(** * Cicero: the invoker, the Nomad event consumer and the domain types

    A shallow embedding of the Go sources of the repository:

    - [src/domain/types.go]   (module [Domain]),
    - [src/invoker.go]        (module [InvokerV1], the first invoker),
    - the later invoker with step instances and [addLogging]
      (module [Invoker]),
    - the Nomad event consumer (module [NomadEventConsumer]).

    Go values are modelled as follows.  A [uint64] is an [N] with its
    wrap-around written out, a [[]byte] is a [list byte], a Go [error] is
    the message it carries, a nil-able pointer is an [option].  Calls that
    leave the process (the database driver, the Nomad client, the message
    bus, the evaluator, the clock) are oracles over an abstract external
    state; the code that surrounds them is translated statement by
    statement. *)

From Stdlib Require Import ZArith NArith List String Ascii Lia Bool.
From Stdlib Require Import DecimalString.
From Stdlib Require DecimalN DecimalPos.
From stdpp Require Import base option list strings gmap.

Open Scope string_scope.
Open Scope list_scope.

(** ** The fragment of the Go runtime the sources use *)

Module Go.

(** A Go [error] value: the message of a non-nil error. *)
Definition error := string.

(** The double quote, which the sources write inside raw string literals. *)
Definition dquote : string := String (ascii_of_nat 34) EmptyString.

(** [2^64], the modulus of [uint64] arithmetic. *)
Definition two64 : N := 18446744073709551616%N.

Definition maxUint64 : N := (two64 - 1)%N.

(** [uint64] addition and multiplication wrap around. *)
Definition add64 (a b : N) : N := ((a + b) mod two64)%N.
Definition mul64 (a b : N) : N := ((a * b) mod two64)%N.

(** [fmt.Sprintf] with the verb [%d] at an unsigned integer, and
    [strconv.FormatUint] in base 10. *)
Definition FormatUint (n : N) : string := NilEmpty.string_of_uint (N.to_uint n).

(** [strings.Split s sep] for a separator of one byte: the substrings
    between the separators, [n + 1] of them when [s] holds [n] separators
    (in particular one empty string for the empty [s]). *)
Fixpoint strings_Split (s : string) (sep : ascii) : list string :=
  match s with
  | EmptyString => [EmptyString]
  | String c rest =>
      if Ascii.eqb c sep then EmptyString :: strings_Split rest sep
      else match strings_Split rest sep with
           | [] => [String c EmptyString]
           | p :: ps => String c p :: ps
           end
  end.

(** The two errors of package [strconv]. *)
Inductive NumError := ErrSyntax | ErrRange.

(** The digit a byte stands for in [strconv.ParseUint]: decimal digits,
    then letters of either case from ten on; [None] for any other byte
    (the underscore included, which only base 0 accepts). *)
Definition digit_of (c : ascii) : option N :=
  let n := N_of_ascii c in
  if ((48 <=? n) && (n <=? 57))%N then Some (n - 48)%N
  else if ((97 <=? n) && (n <=? 122))%N then Some (n - 97 + 10)%N
  else if ((65 <=? n) && (n <=? 90))%N then Some (n - 65 + 10)%N
  else None.

(** The loop of [strconv.ParseUint s 10 64] over the bytes of [s], with
    the accumulator [n]; the checks come in the order of the library:
    syntax of the byte, the cutoff before the multiplication, the
    overflow of the addition. *)
Fixpoint parseUint_loop (s : string) (n : N) : NumError + N :=
  match s with
  | EmptyString => inr n
  | String c rest =>
      match digit_of c with
      | None => inl ErrSyntax
      | Some d =>
          if (10 <=? d)%N then inl ErrSyntax
          else if (maxUint64 / 10 + 1 <=? n)%N then inl ErrRange
          else
            let n10 := mul64 n 10 in
            let n1 := add64 n10 d in
            if ((n1 <? n10) || (maxUint64 <? n1))%N then inl ErrRange
            else parseUint_loop rest n1
      end
  end.

(** [strconv.ParseUint s 10 64]. *)
Definition strconv_ParseUint (s : string) : NumError + N :=
  match s with
  | EmptyString => inl ErrSyntax
  | _ => parseUint_loop s 0%N
  end.

(** The builtin [copy dst src]: the first [min (len dst) (len src)]
    elements of [src] overwrite those of [dst]; the count is returned. *)
Definition copy {A : Type} (dst src : list A) : list A * nat :=
  let n := Nat.min (length dst) (length src) in
  (take n src ++ drop n dst, n).

(** Indexing a slice: [None] stands for the run-time panic
    [index out of range]. *)
Definition index {A : Type} (l : list A) (i : nat) : option A := l !! i.

End Go.

(** ** Computations of one goroutine

    A Go function body is a computation over a state [S].  Besides returning
    a value it can panic (a nil dereference, an index out of range), leave
    the process ([log.Fatalf], which calls [os.Exit]), or wait for ever on
    the limiter.  A Go [error] is an ordinary return value and plays no part
    in the control flow of the monad. *)

Module Eff.

Inductive outcome (A : Type) : Type :=
| Return (a : A)
| Panic (msg : string)
| Fatal (msg : string)
| Blocked.

Arguments Return {A} a.
Arguments Panic {A} msg.
Arguments Fatal {A} msg.
Arguments Blocked {A}.

Definition M (S A : Type) : Type := S -> outcome A * S.

Definition ret {S A : Type} (a : A) : M S A := fun s => (Return a, s).

Definition bind {S A B : Type} (m : M S A) (k : A -> M S B) : M S B :=
  fun s =>
    match m s with
    | (Return a, s') => k a s'
    | (Panic msg, s') => (Panic msg, s')
    | (Fatal msg, s') => (Fatal msg, s')
    | (Blocked, s') => (Blocked, s')
    end.

Definition get {S : Type} : M S S := fun s => (Return s, s).
Definition modify {S : Type} (f : S -> S) : M S unit := fun s => (Return tt, f s).
Definition panic {S A : Type} (msg : string) : M S A := fun s => (Panic msg, s).
Definition fatal {S A : Type} (msg : string) : M S A := fun s => (Fatal msg, s).
Definition block {S A : Type} : M S A := fun s => (Blocked, s).

(** [defer d] followed by the body [m]: [d] runs when [m] returns and
    when it panics; it does not run when the process exits or when the
    goroutine never leaves [m]. *)
Definition defer {S A : Type} (d : M S unit) (m : M S A) : M S A :=
  fun s =>
    match m s with
    | (Return a, s') =>
        match d s' with
        | (Return _, s'') => (Return a, s'')
        | (Panic msg, s'') => (Panic msg, s'')
        | (Fatal msg, s'') => (Fatal msg, s'')
        | (Blocked, s'') => (Blocked, s'')
        end
    | (Panic msg, s') =>
        match d s' with
        | (Return _, s'') => (Panic msg, s'')
        | (Panic msg', s'') => (Panic msg', s'')
        | (Fatal msg', s'') => (Fatal msg', s'')
        | (Blocked, s'') => (Blocked, s'')
        end
    | (Fatal msg, s') => (Fatal msg, s')
    | (Blocked, s') => (Blocked, s')
    end.

(** Dereferencing a pointer: nil panics. *)
Definition deref {S A : Type} (p : option A) : M S A :=
  match p with
  | Some a => ret a
  | None => panic "invalid memory address or nil pointer dereference"
  end.

(** Indexing a slice: out of range panics. *)
Definition at_index {S A : Type} (l : list A) (i : nat) : M S A :=
  match Go.index l i with
  | Some a => ret a
  | None => panic "index out of range"
  end.

Declare Scope eff_scope.
Delimit Scope eff_scope with eff.

Notation "x <- c1 ;; c2" := (bind c1 (fun x => c2))
  (at level 100, c1 at next level, right associativity) : eff_scope.
Notation "c1 ;; c2" := (bind c1 (fun _ => c2))
  (at level 100, right associativity) : eff_scope.

End Eff.

(** [errors.WithMessage err msg] of package [github.com/pkg/errors]. *)
Definition errors_WithMessage (err : Go.error) (msg : string) : Go.error :=
  msg +:+ ": " +:+ err.

(** ** JSON values and the part of the Nomad API the sources touch *)

(** A decoded JSON value, what Go holds in an [interface{}]. *)
#[local] Set Warnings "-register-all".
Inductive JSON : Type :=
| JNull
| JBool (b : bool)
| JNumber (n : Z)
| JString (s : string)
| JArray (l : list JSON)
| JObject (fields : list (string * JSON)).

Module Nomad.

(** A location of the Go heap that holds a task group. *)
Definition loc := nat.

Record TaskLifecycle := { Hook : string; Sidecar : bool }.

Record Resources := { CPU : option Z; MemoryMB : option Z }.

Record Template := { DestPath : option string; EmbeddedTmpl : option string }.

Record Task := {
  Name : string;
  Driver : string;
  Lifecycle : option TaskLifecycle;
  TaskResources : option Resources;
  Config : list (string * JSON);
  Templates : list Template;
}.

(** [Tasks] is a slice of task pointers; the sources never write through
    them, so the tasks stand for their pointers. *)
Record TaskGroup := { GroupName : option string; Tasks : list Task }.

(** [TaskGroups] is a slice of pointers into the heap; [None] is nil. *)
Record Job := { ID : option string; JobName : option string; TaskGroups : list (option loc) }.

Definition with_ID (j : Job) (id : option string) : Job :=
  {| ID := id; JobName := JobName j; TaskGroups := TaskGroups j |}.

Definition with_Tasks (tg : TaskGroup) (ts : list Task) : TaskGroup :=
  {| GroupName := GroupName tg; Tasks := ts |}.

(** [JobRegisterResponse]: only [Warnings] is read. *)
Record JobRegisterResponse := { Warnings : string }.

End Nomad.

(** ** The first invoker ([src/invoker.go]) and its Nix helpers *)

Module InvokerV1.
Import Eff.

(** [workflowStep]: [Job] and [Type] are string pointers. *)
Record workflowStep := {
  Failure : list (string * JSON);
  Success : list (string * JSON);
  Inputs : list string;
  When : list (string * bool);
  Job : option string;
  Type_ : option string;
}.

(** [workflowDefinition].  [Steps] is a Go map; the list gives its
    entries in the order in which [range] visits them in the run at hand,
    an order Go leaves unspecified. *)
Record workflowDefinition := {
  Name : string;
  Version : N;
  Meta : list (string * JSON);
  Steps : list (string * workflowStep);
}.

(** [workflowDefinitions]: a map from names to definition pointers. *)
Definition workflowDefinitions := list (string * option workflowDefinition).

(** The message of the message bus, as far as the subscriber reads it. *)
Record Message := {
  Value : string;
  Subject : string;
  Key : string;
  Timestamp : Z;
  Offset : Z;
}.

(** [priority.PriorityLimiter] as one goroutine sees it: [limit] slots,
    [held] of them taken; [period] is the dynamic-priority period in
    milliseconds. *)
Record Limiter := { limit : nat; held : nat; period : N }.

(** What the invoker does to the world around it, in order. *)
Inductive Event :=
| EvLog (line : string)
| EvWait
| EvFinish
| EvNixInstantiate (attr : string) (id : N) (inputs : string)
| EvNixBuild (workflowName : string) (id : N) (stepName inputs : string)
| EvRegister (job : Nomad.Job)
| EvPublish (subject stream : string) (cert : list (string * JSON)).

(** The world outside the process.  [Ext] is its state; every call
    answers from it and moves it on. *)
Class Env := {
  Ext : Type;
  (** [exec.Command(...).CombinedOutput()] of [nix-instantiate]. *)
  run_nix_instantiate : string -> N -> string -> Ext -> (string * option Go.error) * Ext;
  (** [exec.CommandContext(...).CombinedOutput()] of [nix-build]. *)
  run_nix_build : string -> N -> string -> string -> Ext -> (string * option Go.error) * Ext;
  (** [json.Unmarshal] into [workflowDefinitions]. *)
  json_Unmarshal_defs : string -> Go.error + workflowDefinitions;
  (** [json.Unmarshal] into [struct{ Job *nomad.Job }]. *)
  json_Unmarshal_job : string -> Go.error + Nomad.Job;
  (** [nomadClient.Jobs().Register]. *)
  nomad_Register : Nomad.Job -> Ext -> (Go.error + Nomad.JobRegisterResponse) * Ext;
}.

Section Model.
Context `{Env}.

(** The command and what surrounds it. *)
Record World := {
  ext : Ext;
  limiter : option Limiter;
  trace : list Event;
}.

Definition set_ext (x : Ext) (w : World) : World :=
  {| ext := x; limiter := limiter w; trace := trace w |}.
Definition set_limiter (l : option Limiter) (w : World) : World :=
  {| ext := ext w; limiter := l; trace := trace w |}.
Definition add_event (e : Event) (w : World) : World :=
  {| ext := ext w; limiter := limiter w; trace := e :: trace w |}.

Definition emit (e : Event) : M World unit := modify (add_event e).

Definition call {A : Type} (f : Ext -> A * Ext) : M World A :=
  fun w => let '(a, x) := f (ext w) in (Return a, set_ext x w).

(** [cmd.init]: the limiter, when there is none yet, gets one slot and
    raises the priority of the waiting every 1000 ms. *)
Definition init : M World unit :=
  (w <- get ;;
   match limiter w with
   | None => modify (set_limiter (Some {| limit := 1; held := 0; period := 1000 |}))
   | Some _ => ret tt
   end)%eff.

(** [cmd.limiter.Wait(context.Background(), priority.High)]: a slot is
    taken when one is free; otherwise the goroutine waits, and nothing in
    this model gives the slot back. *)
Definition limiter_Wait : M World unit :=
  (w <- get ;;
   l <- deref (limiter w) ;;
   if Nat.ltb (held l) (limit l) then
     modify (set_limiter (Some {| limit := limit l; held := S (held l); period := period l |})) ;;
     emit EvWait
   else block)%eff.

(** [cmd.limiter.Finish()]. *)
Definition limiter_Finish : M World unit :=
  (w <- get ;;
   l <- deref (limiter w) ;;
   modify (set_limiter (Some {| limit := limit l; held := Nat.pred (held l); period := period l |})) ;;
   emit EvFinish)%eff.

(** [nixInstantiate] with [attr]. *)
Definition nixInstantiate (attr : string) (id : N) (inputs : string)
  : M World (option workflowDefinitions * option Go.error) :=
  (emit (EvNixInstantiate attr id inputs) ;;
   r <- call (run_nix_instantiate inputs id attr) ;;
   let '(output, err) := r in
   match err with
   | Some e =>
       emit (EvLog output) ;;
       ret (None, Some (errors_WithMessage e "Failed to run nix-instantiate"))
   | None =>
       match json_Unmarshal_defs output with
       | inl e =>
           emit (EvLog output) ;;
           ret (None, Some (errors_WithMessage e "While unmarshaling workflowDefinitions"))
       | inr defs => ret (Some defs, None)
       end
   end)%eff.

(** Reading a Go map at a key: the zero value, here nil, when the key is
    absent. *)
Fixpoint map_index (defs : workflowDefinitions) (k : string) : option workflowDefinition :=
  match defs with
  | [] => None
  | (k', v) :: rest => if String.eqb k' k then v else map_index rest k
  end.

(** [nixInstantiateWorkflow]. *)
Definition nixInstantiateWorkflow (workflowName : string) (id : N) (inputs : string)
  : M World (option workflowDefinition * option Go.error) :=
  (r <- nixInstantiate "workflows" id inputs ;;
   match r with
   | (_, Some err) => ret (None, Some err)
   | (None, None) => panic "invalid memory address or nil pointer dereference"
   | (Some defs, None) => ret (map_index defs workflowName, None)
   end)%eff.

(** The topic of a workflow's certificates. *)
Definition cert_subject (workflowName : string) (workflowId : N) : string :=
  "workflow." +:+ workflowName +:+ "." +:+ Go.FormatUint workflowId +:+ ".cert".

(** The [switch] of [invokeWorkflowStep]: [inl] is the value of a
    [return] inside it, [inr] the [err] it leaves behind. *)
Definition run_step (workflowName : string) (workflowId : N) (inputs stepName : string)
    (step : workflowStep) : M World (option Go.error + option Go.error) :=
  (ty <- deref (Type_ step) ;;
   if String.eqb ty "nomad" then
     js <- deref (Job step) ;;
     match json_Unmarshal_job js with
     | inl e => ret (inl (Some (errors_WithMessage e "Invalid Nomad JSON Job")))
     | inr job =>
         emit (EvRegister job) ;;
         r <- call (nomad_Register job) ;;
         match r with
         | inl e => ret (inr (Some e))
         | inr response =>
             (if (0 <? String.length (Nomad.Warnings response))%nat
              then emit (EvLog (Nomad.Warnings response)) else ret tt) ;;
             ret (inr None)
         end
     end
   else
     emit (EvLog ("building " +:+ workflowName +:+ "." +:+ stepName)) ;;
     emit (EvNixBuild workflowName workflowId stepName inputs) ;;
     r <- call (run_nix_build workflowName workflowId stepName inputs) ;;
     let '(output, err) := r in
     match err with
     | Some e => emit (EvLog output) ;; ret (inr (Some e))
     | None => ret (inr None)
     end)%eff.

(** [InvokerCmd.invokeWorkflowStep]. *)
Definition invokeWorkflowStep (workflowName : string) (workflowId : N) (inputs stepName : string)
    (step : workflowStep) : M World (option Go.error) :=
  (limiter_Wait ;;
   defer limiter_Finish
     (r <- run_step workflowName workflowId inputs stepName step ;;
      match r with
      | inl early => ret early
      | inr err =>
          let cert := match err with None => Success step | Some _ => Failure step end in
          emit (EvPublish (cert_subject workflowName workflowId) "workflow.*.*.cert" cert) ;;
          match err with
          | Some e => ret (Some (errors_WithMessage e "Failed to run step"))
          | None => ret None
          end
      end))%eff.

(** The [for ... range workflow.Steps] of [invokeWorkflow]. *)
Fixpoint range_steps (workflowName : string) (workflowId : N) (inputs : string)
    (steps : list (string * workflowStep)) : M World (option Go.error) :=
  match steps with
  | [] => ret None
  | (stepName, step) :: rest =>
      (emit (EvLog ("Checking runnability of " +:+ stepName)) ;;
       match Job step with
       | None => range_steps workflowName workflowId inputs rest
       | Some _ =>
           err <- invokeWorkflowStep workflowName workflowId inputs stepName step ;;
           match err with
           | Some e => ret (Some e)
           | None => range_steps workflowName workflowId inputs rest
           end
       end)%eff
  end.

(** [InvokerCmd.invokeWorkflow]. *)
Definition invokeWorkflow (workflowName : string) (workflowId : N) (inputs : string)
  : M World (option Go.error) :=
  (r <- nixInstantiateWorkflow workflowName workflowId inputs ;;
   match r with
   | (_, Some err) => ret (Some (errors_WithMessage err "Invalid Workflow Definition, ignoring"))
   | (workflow, None) =>
       wf <- deref workflow ;;
       range_steps workflowName workflowId inputs (Steps wf)
   end)%eff.

(** The function [invokerSubscriber] returns, at a message and the error
    the bus hands over with it. *)
Definition invokerSubscriber (msg : Message) (err : option Go.error) : M World unit :=
  match err with
  | Some e => fatal ("error in liftbridge message: " +:+ e)
  | None =>
      (let inputs := Value msg in
       emit (EvLog inputs) ;;
       let parts := Go.strings_Split (Subject msg) "." in
       workflowName <- at_index parts 1 ;;
       idstr <- at_index parts 2 ;;
       match Go.strconv_ParseUint idstr with
       | inl _ =>
           emit (EvLog ("Invalid Workflow ID received, ignoring: " +:+ Subject msg))
       | inr id =>
           err <- invokeWorkflow workflowName id inputs ;;
           match err with
           | Some e => emit (EvLog ("Failed to invoke workflow " +:+ e))
           | None => ret tt
           end
       end)%eff
  end.

End Model.

End InvokerV1.

(** ** The later invoker: step instances, transactions, sidecar logging *)

Module Invoker.
Import Eff.

(** [uuid.UUID], sixteen bytes read as a number. *)
Definition UUID := N.

(** [WorkflowCerts], the decoded payload of an invoke message. *)
Definition WorkflowCerts := list (string * JSON).

(** [WorkflowStep], whose declaration is outside these sources: the
    invoker reads its [Job], a [nomad.Job] held by value, and asks
    [IsRunnable]. *)
Record WorkflowStep := {
  Failure : WorkflowCerts;
  Success : WorkflowCerts;
  Inputs : list string;
  When : list (string * bool);
  Job : Nomad.Job;
}.

Definition with_Job (s : WorkflowStep) (j : Nomad.Job) : WorkflowStep :=
  {| Failure := Failure s; Success := Success s; Inputs := Inputs s; When := When s; Job := j |}.

(** The evaluated workflow; [Steps] in the order of [range], as in the
    first invoker. *)
Record WorkflowDefinition := {
  Name : string;
  Steps : list (string * WorkflowStep);
}.

(** A row of table [step_instance].  [FinishedAt] is a [time.Time] in
    nanoseconds, [None] its zero value. *)
Record StepInstance := {
  ID : UUID;
  WorkflowInstanceId : N;
  StepName : string;
  Certs : WorkflowCerts;
  FinishedAt : option Z;
}.

Definition with_FinishedAt (i : StepInstance) (t : option Z) : StepInstance :=
  {| ID := ID i; WorkflowInstanceId := WorkflowInstanceId i; StepName := StepName i;
     Certs := Certs i; FinishedAt := t |}.

Record Message := {
  Value : string;
  Subject : string;
  Key : string;
  Timestamp : Z;
  Offset : Z;
}.

Record Limiter := { limit : nat; held : nat; period : N }.

(** The statements the database driver executes. *)
Inductive Query := QSelect | QBegin | QInsert | QUpdate | QCommit.

Inductive Event :=
| EvLog (line : string)
| EvWait
| EvFinish
| EvEvaluate (workflowName : string) (wfInstanceId : N) (inputs : WorkflowCerts)
| EvSelect (stepName : string) (wfInstanceId : N)
| EvBegin
| EvInsert (instance : StepInstance)
| EvRegister (job : Nomad.Job)
| EvDeregister (jobID : string)
| EvUpdate (instance : StepInstance)
| EvCommit
| EvRollback
| EvPublish (subject stream : string) (cert : WorkflowCerts).

(** [sql.ErrNoRows]. *)
Definition sql_ErrNoRows : Go.error := "sql: no rows in result set".

(** The heap of task groups that job specs point into. *)
Abbreviation Heap := (gmap Nomad.loc Nomad.TaskGroup).

Class Env := {
  Ext : Type;
  (** [WorkflowStep.IsRunnable], declared outside these sources. *)
  IsRunnable : WorkflowStep -> bool;
  (** [json.Unmarshal] into [map[string]interface{}]. *)
  json_Unmarshal_inputs : string -> Go.error + WorkflowCerts;
  (** [yaml.Marshal]. *)
  yaml_Marshal : JSON -> Go.error + string;
  (** [uuid.UUID.String]. *)
  uuid_String : UUID -> string;
  (** [uuid.New]. *)
  uuid_New : Ext -> UUID * Ext;
  (** [time.Now().UTC()], in nanoseconds. *)
  time_Now : Ext -> Z * Ext;
  (** [cmd.evaluator.EvaluateWorkflow]; the definition it decodes is
      allocated on the heap. *)
  EvaluateWorkflow : string -> N -> WorkflowCerts -> Heap -> Ext ->
                     ((Go.error + WorkflowDefinition) * Heap) * Ext;
  (** Whether the driver fails a statement, a violated constraint
      included. *)
  driver_fault : Query -> Ext -> option Go.error * Ext;
  (** [nomadClient.Jobs().Register]. *)
  nomad_Register : Nomad.Job -> Ext -> (Go.error + Nomad.JobRegisterResponse) * Ext;
  (** [nomadClient.Jobs().Deregister]. *)
  nomad_Deregister : string -> bool -> Ext -> option Go.error * Ext;
}.

(** *** [addLogging] *)

(** The template [{{ env VAR }}] with [VAR] between double quotes. *)
Definition env_tmpl (var : string) : string :=
  "{{ env " +:+ Go.dquote +:+ var +:+ Go.dquote +:+ " }}".

(** The labels of the scrape configuration. *)
Definition promtail_labels : list (string * JSON) :=
  [ ("nomad_alloc_id", JString (env_tmpl "NOMAD_ALLOC_ID"));
    ("nomad_alloc_index", JString (env_tmpl "NOMAD_ALLOC_INDEX"));
    ("nomad_alloc_name", JString (env_tmpl "NOMAD_ALLOC_NAME"));
    ("nomad_dc", JString (env_tmpl "NOMAD_DC"));
    ("nomad_group_name", JString (env_tmpl "NOMAD_GROUP_NAME"));
    ("nomad_job_id", JString (env_tmpl "NOMAD_JOB_ID"));
    ("nomad_job_name", JString (env_tmpl "NOMAD_JOB_NAME"));
    ("nomad_job_parent_id", JString (env_tmpl "NOMAD_JOB_PARENT_ID"));
    ("nomad_namespace", JString (env_tmpl "NOMAD_NAMESPACE"));
    ("nomad_region", JString (env_tmpl "NOMAD_REGION"));
    ("__path__", JString "/alloc/logs/*.std*.[0-9]*") ].

(** The value handed to [yaml.Marshal]. *)
Definition promtail_config : JSON :=
  JObject
    [ ("server", JObject [ ("http_listen_port", JNumber 0); ("grpc_listen_port", JNumber 0) ]);
      ("positions", JObject [ ("filename", JString "/local/positions.yaml") ]);
      ("client", JObject [ ("url", JString "http://172.16.0.20:3100/loki/api/v1/path") ]);
      ("scrape_configs",
        JArray
          [ JObject
              [ ("job_name", JString (env_tmpl "NOMAD_JOB_NAME" +:+ "-" +:+ env_tmpl "NOMAD_ALLOC_INDEX"));
                ("pipeline_stages", JNull);
                ("static_configs", JArray [ JObject [ ("labels", JObject promtail_labels) ] ]) ] ]) ].

(** The task appended to every group, around the marshalled config. *)
Definition promtail_task (cfg : string) : Nomad.Task :=
  {| Nomad.Name := "promtail";
     Nomad.Driver := "nix";
     Nomad.Lifecycle := Some {| Nomad.Hook := "prestart"; Nomad.Sidecar := true |};
     Nomad.TaskResources := Some {| Nomad.CPU := Some 100%Z; Nomad.MemoryMB := Some 100%Z |};
     Nomad.Config :=
       [ ("packages", JArray [ JString "github:nixos/nixpkgs/nixos-21.05#grafana-loki" ]);
         ("command", JArray [ JString "/bin/promtail"; JString "-config.file"; JString "local/config.yaml" ]) ];
     Nomad.Templates :=
       [ {| Nomad.DestPath := Some "local/config.yaml"; Nomad.EmbeddedTmpl := Some cfg |} ] |}.

(** The loop [for _, tg := range job.TaskGroups]: [tg] is a pointer, and
    the assignment to [tg.Tasks] writes the group it points to.  The
    boolean tells whether the loop came to its end; it is [false] at the
    panic of a nil pointer, which leaves the groups written so far as
    they are (a location the heap does not hold is not a pointer a Go
    program can have, and is treated alike). *)
Fixpoint range_TaskGroups (cfg : string) (tgs : list (option Nomad.loc)) (h : Heap) : bool * Heap :=
  match tgs with
  | [] => (true, h)
  | None :: _ => (false, h)
  | Some l :: rest =>
      match h !! l with
      | None => (false, h)
      | Some tg =>
          range_TaskGroups cfg rest
            (<[l := Nomad.with_Tasks tg (Nomad.Tasks tg ++ [promtail_task cfg])]> h)
      end
  end.

(** [addLogging job]: the error it returns, and the heap it leaves. *)
Definition addLogging `{Env} (job : Nomad.Job) (h : Heap) : outcome (option Go.error) * Heap :=
  match yaml_Marshal promtail_config with
  | inl err => (Return (Some (errors_WithMessage err "while marshaling promtail config")), h)
  | inr cfg =>
      match range_TaskGroups cfg (Nomad.TaskGroups job) h with
      | (true, h') => (Return None, h')
      | (false, h') => (Panic "invalid memory address or nil pointer dereference", h')
      end
  end.

(** *** The command *)

Section Model.
Context `{Env}.

(** The process and what surrounds it: the external state, the heap of
    task groups, the committed rows of [step_instance], the rows the
    open transaction has inserted, the limiter of the command, and the
    actions so far, latest first. *)
Record World := {
  ext : Ext;
  heap : Heap;
  table : list StepInstance;
  pending : list StepInstance;
  limiter : option Limiter;
  trace : list Event;
}.

Definition set_ext (x : Ext) (w : World) : World :=
  {| ext := x; heap := heap w; table := table w; pending := pending w;
     limiter := limiter w; trace := trace w |}.
Definition set_heap (h : Heap) (w : World) : World :=
  {| ext := ext w; heap := h; table := table w; pending := pending w;
     limiter := limiter w; trace := trace w |}.
Definition set_table (t : list StepInstance) (w : World) : World :=
  {| ext := ext w; heap := heap w; table := t; pending := pending w;
     limiter := limiter w; trace := trace w |}.
Definition set_pending (p : list StepInstance) (w : World) : World :=
  {| ext := ext w; heap := heap w; table := table w; pending := p;
     limiter := limiter w; trace := trace w |}.
Definition set_limiter (l : option Limiter) (w : World) : World :=
  {| ext := ext w; heap := heap w; table := table w; pending := pending w;
     limiter := l; trace := trace w |}.
Definition add_event (e : Event) (w : World) : World :=
  {| ext := ext w; heap := heap w; table := table w; pending := pending w;
     limiter := limiter w; trace := e :: trace w |}.

Definition emit (e : Event) : M World unit := modify (add_event e).

Definition call {A : Type} (f : Ext -> A * Ext) : M World A :=
  fun w => let '(a, x) := f (ext w) in (Return a, set_ext x w).

(** [cmd.init], as far as the limiter goes. *)
Definition init : M World unit :=
  (w <- get ;;
   match limiter w with
   | None => modify (set_limiter (Some {| limit := 1; held := 0; period := 1000 |}))
   | Some _ => ret tt
   end)%eff.

Definition limiter_Wait : M World unit :=
  (w <- get ;;
   l <- deref (limiter w) ;;
   if Nat.ltb (held l) (limit l) then
     modify (set_limiter (Some {| limit := limit l; held := S (held l); period := period l |})) ;;
     emit EvWait
   else block)%eff.

Definition limiter_Finish : M World unit :=
  (w <- get ;;
   l <- deref (limiter w) ;;
   modify (set_limiter (Some {| limit := limit l; held := Nat.pred (held l); period := period l |})) ;;
   emit EvFinish)%eff.

Definition rollback (w : World) : World := add_event EvRollback (set_pending [] w).

(** [DB.RunInTx ctx nil fn]: begin, run [fn], commit when it returns nil
    and roll back when it returns an error or panics.  The rows [fn]
    inserts through the transaction reach the table at the commit. *)
Definition RunInTx (fn : M World (option Go.error)) : M World (option Go.error) :=
  fun w =>
    match driver_fault QBegin (ext w) with
    | (Some e, x) => (Return (Some e), set_ext x w)
    | (None, x) =>
        match fn (add_event EvBegin (set_pending [] (set_ext x w))) with
        | (Return None, w') =>
            match driver_fault QCommit (ext w') with
            | (Some e, x') => (Return (Some e), rollback (set_ext x' w'))
            | (None, x') =>
                (Return None,
                 add_event EvCommit
                   (set_pending [] (set_table (table w' ++ pending w') (set_ext x' w'))))
            end
        | (Return (Some e), w') => (Return (Some e), rollback w')
        | (Panic msg, w') => (Panic msg, rollback w')
        | (Fatal msg, w') => (Fatal msg, set_pending [] w')
        | (Blocked, w') => (Blocked, w')
        end
    end.

(** [InvokerCmd.insertStepInstance] through the open transaction.  On an
    error the code writes two lines: the result and the error in Go
    syntax, of which the trace keeps the text of the error, and then the
    message. *)
Definition insertStepInstance (instance : StepInstance) : M World (option Go.error) :=
  (emit (EvInsert instance) ;;
   f <- call (driver_fault QInsert) ;;
   match f with
   | Some e =>
       emit (EvLog e) ;;
       emit (EvLog ("Couldn't insert step instance: " +:+ e)) ;;
       ret (Some e)
   | None =>
       w <- get ;;
       modify (set_pending (pending w ++ [instance])) ;;
       emit (EvLog "Created step instance") ;;
       ret None
   end)%eff.

(** The row a [SELECT ... WHERE name = ? AND workflow_instance_id = ?
    LIMIT 1] finds. *)
Definition matches (stepName : string) (wfInstanceId : N) (r : StepInstance) : bool :=
  String.eqb (StepName r) stepName && N.eqb (WorkflowInstanceId r) wfInstanceId.

(** The query at the head of [invokeWorkflowStep], with what the code
    makes of its error: [inl] is an error it returns, [inr None] the nil
    [instance] of [sql.ErrNoRows]. *)
Definition select_instance (stepName : string) (wfInstanceId : N)
  : M World (Go.error + option StepInstance) :=
  (emit (EvSelect stepName wfInstanceId) ;;
   f <- call (driver_fault QSelect) ;;
   w <- get ;;
   let err :=
     match f with
     | Some e => Some e
     | None => match List.find (matches stepName wfInstanceId) (table w) with
               | Some _ => None
               | None => Some sql_ErrNoRows
               end
     end in
   match err with
   | Some e => if String.eqb e sql_ErrNoRows then ret (inr None) else ret (inl e)
   | None => ret (inr (List.find (matches stepName wfInstanceId) (table w)))
   end)%eff.

(** The [UPDATE ... WHERE id = ?] of the row of [instance], sent on the
    connection [DB] and so outside any transaction. *)
Definition update_row (instance : StepInstance) (t : list StepInstance) : list StepInstance :=
  List.map (fun r => if N.eqb (ID r) (ID instance) then instance else r) t.

(** The transaction of a runnable step. *)
Definition register_tx (instance : StepInstance) (job : Nomad.Job) : M World (option Go.error) :=
  (r <- insertStepInstance instance ;;
   match r with
   | Some e => ret (Some e)
   | None =>
       emit (EvRegister job) ;;
       rr <- call (nomad_Register job) ;;
       match rr with
       | inl e => ret (Some (errors_WithMessage e "Failed to run step"))
       | inr response =>
           (if (0 <? String.length (Nomad.Warnings response))%nat
            then emit (EvLog (Nomad.Warnings response)) else ret tt) ;;
           ret None
       end
   end)%eff.

(** The transaction of a step that ran and no longer may. *)
Definition deregister_tx (instance : StepInstance) : M World (option Go.error) :=
  (emit (EvDeregister (uuid_String (ID instance))) ;;
   d <- call (nomad_Deregister (uuid_String (ID instance)) false) ;;
   match d with
   | Some e => ret (Some (errors_WithMessage e "Failed to stop step"))
   | None =>
       now <- call time_Now ;;
       let instance' := with_FinishedAt instance (Some now) in
       emit (EvUpdate instance') ;;
       f <- call (driver_fault QUpdate) ;;
       match f with
       | Some e => ret (Some e)
       | None =>
           w <- get ;;
           modify (set_table (update_row instance' (table w))) ;;
           ret None
       end
   end)%eff.

(** [addLogging(&step.Job)] on the heap of the process. *)
Definition add_logging (job : Nomad.Job) : M World (option Go.error) :=
  fun w => let '(o, h) := addLogging job (heap w) in (o, set_heap h w).

(** [cmd.evaluator.EvaluateWorkflow] in the world of the process. *)
Definition evaluate (workflowName : string) (wfInstanceId : N) (inputs : WorkflowCerts)
  : M World (Go.error + WorkflowDefinition) :=
  fun w =>
    let '(res, h, x) := EvaluateWorkflow workflowName wfInstanceId inputs (heap w) (ext w) in
    (Return res, set_heap h (set_ext x w)).

(** The body of [invokeWorkflowStep], between taking the slot and
    giving it back. *)
Definition step_body (workflowName : string) (wfInstanceId : N) (inputs : WorkflowCerts)
    (stepName : string) (step : WorkflowStep) : M World (option Go.error) :=
  (emit (EvLog ("Checking runnability of " +:+ stepName)) ;;
   sel <- select_instance stepName wfInstanceId ;;
   match sel with
   | inl e => ret (Some e)
   | inr found =>
       if IsRunnable step then
         logged <- add_logging (Job step) ;;
         match logged with
         | Some e => ret (Some e)
         | None =>
             instance <- match found with
                         | Some i => ret i
                         | None =>
                             id <- call uuid_New ;;
                             ret {| ID := id; WorkflowInstanceId := wfInstanceId;
                                    StepName := stepName; Certs := inputs; FinishedAt := None |}
                         end ;;
             let job := Nomad.with_ID (Job step) (Some (uuid_String (ID instance))) in
             RunInTx (register_tx instance job)
         end
       else
         match found with
         | Some instance => RunInTx (deregister_tx instance)
         | None => ret None
         end
   end)%eff.

(** [InvokerCmd.invokeWorkflowStep]. *)
Definition invokeWorkflowStep (workflowName : string) (wfInstanceId : N) (inputs : WorkflowCerts)
    (stepName : string) (step : WorkflowStep) : M World (option Go.error) :=
  (limiter_Wait ;;
   defer limiter_Finish (step_body workflowName wfInstanceId inputs stepName step))%eff.

(** The [for ... range workflow.Steps] of [invokeWorkflow]. *)
Fixpoint range_steps (workflowName : string) (wfInstanceId : N) (inputs : WorkflowCerts)
    (steps : list (string * WorkflowStep)) : M World (option Go.error) :=
  match steps with
  | [] => ret None
  | (stepName, step) :: rest =>
      (err <- invokeWorkflowStep workflowName wfInstanceId inputs stepName step ;;
       match err with
       | Some e => ret (Some e)
       | None => range_steps workflowName wfInstanceId inputs rest
       end)%eff
  end.

(** [InvokerCmd.invokeWorkflow]. *)
Definition invokeWorkflow (workflowName : string) (wfInstanceId : N) (inputs : WorkflowCerts)
  : M World (option Go.error) :=
  (emit (EvEvaluate workflowName wfInstanceId inputs) ;;
   r <- evaluate workflowName wfInstanceId inputs ;;
   match r with
   | inl err => ret (Some (errors_WithMessage err "Invalid Workflow Definition, ignoring"))
   | inr workflow => range_steps workflowName wfInstanceId inputs (Steps workflow)
   end)%eff.

(** The function [invokerSubscriber] returns. *)
Definition invokerSubscriber (msg : Message) (err : option Go.error) : M World unit :=
  match err with
  | Some e => fatal ("error in liftbridge message: " +:+ e)
  | None =>
      match json_Unmarshal_inputs (Value msg) with
      | inl e =>
          (emit (EvLog (Value msg)) ;;
           emit (EvLog ("Invalid JSON received, ignoring: " +:+ e)))%eff
      | inr inputs =>
          (let parts := Go.strings_Split (Subject msg) "." in
           workflowName <- at_index parts 1 ;;
           idstr <- at_index parts 2 ;;
           match Go.strconv_ParseUint idstr with
           | inl _ =>
               emit (EvLog ("Invalid Workflow Instance ID received, ignoring: " +:+ Subject msg))
           | inr wfInstanceId =>
               err <- invokeWorkflow workflowName wfInstanceId inputs ;;
               match err with
               | Some e => emit (EvLog ("Failed to invoke workflow " +:+ e))
               | None => ret tt
               end
           end)%eff
      end
  end.

End Model.

End Invoker.

(** ** The domain types ([src/domain/types.go]) *)

Module Domain.

Definition UUID := N.

(** [Fact]; times are nanoseconds since the epoch. *)
Record Fact := {
  ID : UUID;
  RunId : option UUID;
  CreatedAt : Z;
  Value : JSON;
  BinaryHash : option string;
}.

(** [Run], with the [Success] and [Failure] values the event consumer
    reads from it. *)
Record Run := {
  NomadJobID : UUID;
  InvocationId : UUID;
  RunCreatedAt : Z;
  FinishedAt : option Z;
  Success : JSON;
  Failure : JSON;
}.

Definition with_FinishedAt (r : Run) (t : option Z) : Run :=
  {| NomadJobID := NomadJobID r; InvocationId := InvocationId r; RunCreatedAt := RunCreatedAt r;
     FinishedAt := t; Success := Success r; Failure := Failure r |}.

(** What a [database/sql] scanner is handed: a [driver.Value]. *)
Inductive driver_Value :=
| VNil
| VInt64 (n : Z)
| VFloat64 (bits : Z)
| VBool (b : bool)
| VBytes (b : list Byte.byte)
| VString (s : string)
| VTime (t : Z).

(** The verb [%T] at a [driver.Value]. *)
Definition type_name (v : driver_Value) : string :=
  match v with
  | VNil => "<nil>"
  | VInt64 _ => "int64"
  | VFloat64 _ => "float64"
  | VBool _ => "bool"
  | VBytes _ => "[]uint8"
  | VString _ => "string"
  | VTime _ => "time.Time"
  end.

(** [MD5Sum] is [[16]byte]: a list of sixteen bytes, [MD5Sum_len] being
    the length of the array. *)
Definition MD5Sum := list Byte.byte.
Definition MD5Sum_len : nat := 16.

(** [MD5Sum.Scan]: the receiver after the call and the error returned. *)
Definition MD5Sum_Scan (self : MD5Sum) (value : driver_Value) : MD5Sum * option Go.error :=
  match value with
  | VBytes b =>
      let '(self', copied) := Go.copy self b in
      if Nat.eqb copied MD5Sum_len then (self', None)
      else (self',
            Some ("Could only copy " +:+ Go.FormatUint (N.of_nat copied) +:+ "/" +:+
                  Go.FormatUint (N.of_nat MD5Sum_len) +:+ " bytes into MD5Sum"))
  | _ => (self, Some ("Cannot scan " +:+ type_name value +:+ " into MD5Sum"))
  end.

End Domain.

(** ** The Nomad event consumer *)

Module NomadEventConsumer.
Import Eff.

(** [nomad.Allocation], as far as the consumer reads it. *)
Record Allocation := {
  JobID : string;
  ClientStatus : string;
  ModifyTime : Z;
}.

(** [Allocation.ClientTerminalStatus] of the Nomad API. *)
Definition ClientTerminalStatus (a : Allocation) : bool :=
  String.eqb (ClientStatus a) "complete" || String.eqb (ClientStatus a) "failed"
  || String.eqb (ClientStatus a) "lost".

(** [nomad.Event]: [Payload] is what [Event.Allocation] decodes, an
    error or a pointer that may be nil. *)
Record Event := {
  Topic : string;
  Type_ : string;
  EventIndex : N;
  Payload : Go.error + option Allocation;
}.

(** [nomad.Events], one item of the event stream. *)
Record Events := {
  Index : N;
  Events_ : list Event;
  Err : option Go.error;
}.

(** [time.Second], in nanoseconds. *)
Definition time_Second : Z := 1000000000.

(** [time.Unix sec nsec], in nanoseconds since the epoch. *)
Definition time_Unix (sec nsec : Z) : Z := sec * time_Second + nsec.

(** The tables the consumer writes. *)
Record DB := {
  run : gmap N Domain.Run;
  nomad_event : list Event;
}.

Inductive Action :=
| ActLog (line : string)
| ActUpdateRun (r : Domain.Run)
| ActPublish (stream : string) (message : string)
| ActDeregister (jobID : string)
| ActSaveEvent (e : Event).

Inductive Statement := SGetLast | SGetRun | SUpdateRun | SSaveEvent | SBegin | SCommit.

Class Env := {
  Ext : Type;
  (** [uuid.Parse]. *)
  uuid_Parse : string -> Go.error + Domain.UUID;
  (** [uuid.UUID.String]. *)
  uuid_String : Domain.UUID -> string;
  (** [json.Marshal] at a [domain.Fact]. *)
  json_Marshal : Domain.Fact -> Go.error + string;
  (** [domain.FactCreateStreamName], declared outside these sources. *)
  FactCreateStreamName : string;
  (** Whether the database fails a statement. *)
  db_fault : Statement -> Ext -> option Go.error * Ext;
  (** [NomadEventService.GetLastNomadEvent], outside these sources: the
      index and the error it answers from the table of saved events. *)
  GetLastNomadEvent : list Event -> Ext -> (N * option Go.error) * Ext;
  (** [errors.Is err pgx.ErrNoRows]. *)
  is_ErrNoRows : Go.error -> bool;
  (** [MessageQueueService.Publish]. *)
  mq_Publish : string -> string -> Ext -> option Go.error * Ext;
  (** [NomadClient.JobsDeregister]. *)
  nomad_JobsDeregister : string -> bool -> Ext -> option Go.error * Ext;
}.

Section Model.
Context `{Env}.

(** The database as the open transaction sees it, the messages on the
    bus, the jobs deregistered, and the actions so far, latest first. *)
Record World := {
  ext : Ext;
  db : DB;
  published : list (string * string);
  deregistered : list string;
  trace : list Action;
}.

Definition set_ext (x : Ext) (w : World) : World :=
  {| ext := x; db := db w; published := published w; deregistered := deregistered w;
     trace := trace w |}.
Definition set_db (d : DB) (w : World) : World :=
  {| ext := ext w; db := d; published := published w; deregistered := deregistered w;
     trace := trace w |}.
Definition add_published (m : string * string) (w : World) : World :=
  {| ext := ext w; db := db w; published := published w ++ [m]; deregistered := deregistered w;
     trace := trace w |}.
Definition add_deregistered (j : string) (w : World) : World :=
  {| ext := ext w; db := db w; published := published w; deregistered := deregistered w ++ [j];
     trace := trace w |}.
Definition add_action (a : Action) (w : World) : World :=
  {| ext := ext w; db := db w; published := published w; deregistered := deregistered w;
     trace := a :: trace w |}.

Definition emit (a : Action) : M World unit := modify (add_action a).

Definition call {A : Type} (f : Ext -> A * Ext) : M World A :=
  fun w => let '(a, x) := f (ext w) in (Return a, set_ext x w).

(** What [RunService.GetByNomadJobId] answers. *)
Inductive Lookup := Found (r : Domain.Run) | NotFound | Failed (err : Go.error).

(** [RunService.GetByNomadJobId], outside these sources: the row of
    table [run] with that job id. *)
Definition GetByNomadJobId (id : Domain.UUID) : M World Lookup :=
  (f <- call (db_fault SGetRun) ;;
   match f with
   | Some e => ret (Failed e)
   | None =>
       w <- get ;;
       match run (db w) !! id with
       | Some r => ret (Found r)
       | None => ret NotFound
       end
   end)%eff.

(** [RunService.Update tx run], outside these sources: the row of the
    run, when there is one, takes the values of [run]. *)
Definition RunService_Update (r : Domain.Run) : M World (option Go.error) :=
  (emit (ActUpdateRun r) ;;
   f <- call (db_fault SUpdateRun) ;;
   match f with
   | Some e => ret (Some e)
   | None =>
       w <- get ;;
       match run (db w) !! Domain.NomadJobID r with
       | Some _ =>
           modify (set_db {| run := <[Domain.NomadJobID r := r]> (run (db w));
                             nomad_event := nomad_event (db w) |})
       | None => ret tt
       end ;;
       ret None
   end)%eff.

(** [NomadEventService.Save tx event], outside these sources: one more
    row in [nomad_event]. *)
Definition NomadEventService_Save (e : Event) : M World (option Go.error) :=
  (emit (ActSaveEvent e) ;;
   f <- call (db_fault SSaveEvent) ;;
   match f with
   | Some err => ret (Some err)
   | None =>
       w <- get ;;
       modify (set_db {| run := run (db w); nomad_event := nomad_event (db w) ++ [e] |}) ;;
       ret None
   end)%eff.

(** [MessageQueueService.Publish]: the message is on the bus when the
    call succeeds. *)
Definition Publish (stream : string) (message : string) : M World (option Go.error) :=
  (emit (ActPublish stream message) ;;
   f <- call (mq_Publish stream message) ;;
   match f with
   | Some e => ret (Some e)
   | None => modify (add_published (stream, message)) ;; ret None
   end)%eff.

(** [NomadClient.JobsDeregister id false]. *)
Definition JobsDeregister (jobID : string) : M World (option Go.error) :=
  (emit (ActDeregister jobID) ;;
   f <- call (nomad_JobsDeregister jobID false) ;;
   match f with
   | Some e => ret (Some e)
   | None => modify (add_deregistered jobID) ;; ret None
   end)%eff.

(** The [switch] on the client status: the field of the run the fact
    pointer is set to, nil for any other status. *)
Definition select_fact (status : string) (r : Domain.Run) : option JSON :=
  if String.eqb status "complete" then Some (Domain.Success r)
  else if String.eqb status "failed" then Some (Domain.Failure r)
  else None.

(** The time [finished_at] is set to. *)
Definition modify_time (a : Allocation) : Z :=
  time_Unix (Z.quot (ModifyTime a) time_Second) (Z.rem (ModifyTime a) time_Second).

(** The fact the handler marshals. *)
Definition run_fact (id : Domain.UUID) (value : JSON) : Domain.Fact :=
  {| Domain.ID := 0%N; Domain.RunId := Some id; Domain.CreatedAt := 0%Z;
     Domain.Value := value; Domain.BinaryHash := None |}.

(** [NomadEventConsumer.handleNomadAllocationEvent]. *)
Definition handleNomadAllocationEvent (allocation : option Allocation) : M World (option Go.error) :=
  (a <- deref allocation ;;
   if negb (ClientTerminalStatus a) then
     emit (ActLog ("Ignoring allocation event with non-terminal client status " +:+ ClientStatus a)) ;;
     ret None
   else
     match uuid_Parse (JobID a) with
     | inl _ => ret None
     | inr id =>
         found <- GetByNomadJobId id ;;
         match found with
         | NotFound =>
             emit (ActLog ("Ignoring Nomad event for Job with ID " +:+ uuid_String id +:+ " (no such Run)")) ;;
             ret None
         | Failed err => ret (Some err)
         | Found r =>
             match select_fact (ClientStatus a) r with
             | None => ret None
             | Some fact =>
                 let r' := Domain.with_FinishedAt r (Some (modify_time a)) in
                 u <- RunService_Update r' ;;
                 match u with
                 | Some err =>
                     ret (Some (errors_WithMessage err
                                  ("Failed to update Run with ID " +:+ uuid_String (Domain.NomadJobID r'))))
                 | None =>
                     match json_Marshal (run_fact id fact) with
                     | inl err => ret (Some (errors_WithMessage err "Failed to marshal Fact"))
                     | inr message =>
                         p <- Publish FactCreateStreamName message ;;
                         match p with
                         | Some err => ret (Some (errors_WithMessage err "Could not publish Fact"))
                         | None =>
                             d <- JobsDeregister (uuid_String (Domain.NomadJobID r')) ;;
                             match d with
                             | Some err =>
                                 ret (Some (errors_WithMessage err
                                              ("Failed to deregister Nomad job with ID " +:+
                                               uuid_String (Domain.NomadJobID r'))))
                             | None => ret None
                             end
                         end
                     end
                 end
             end
         end
     end)%eff.

(** [NomadEventConsumer.handleNomadEvent]. *)
Definition handleNomadEvent (event : Event) : M World (option Go.error) :=
  if String.eqb (Topic event) "Allocation" && String.eqb (Type_ event) "AllocationUpdated" then
    match Payload event with
    | inl err => ret (Some (errors_WithMessage err "Error getting Nomad event's allocation"))
    | inr allocation => handleNomadAllocationEvent allocation
    end
  else ret None.

(** [NomadEventConsumer.processNomadEvent]. *)
Definition processNomadEvent (event : Event) : M World (option Go.error) :=
  (h <- handleNomadEvent event ;;
   match h with
   | Some err => ret (Some (errors_WithMessage err "Error handling Nomad event"))
   | None =>
       s <- NomadEventService_Save event ;;
       match s with
       | Some err => ret (Some (errors_WithMessage err "Error to save Nomad event"))
       | None => ret None
       end
   end)%eff.

(** [Db.BeginFunc ctx fn]: the writes of [fn] are kept when it returns
    nil and the commit succeeds, and undone otherwise. *)
Definition BeginFunc (fn : M World (option Go.error)) : M World (option Go.error) :=
  fun w =>
    match db_fault SBegin (ext w) with
    | (Some e, x) => (Return (Some e), set_ext x w)
    | (None, x) =>
        match fn (set_ext x w) with
        | (Return None, w') =>
            match db_fault SCommit (ext w') with
            | (Some e, x') => (Return (Some e), set_db (db w) (set_ext x' w'))
            | (None, x') => (Return None, set_ext x' w')
            end
        | (o, w') => (o, set_db (db w) w')
        end
    end.

(** The loop over [events.Events]: an error ends it. *)
Fixpoint range_events (events : list Event) : M World (option Go.error) :=
  match events with
  | [] => ret None
  | event :: rest =>
      (r <- BeginFunc (emit (ActLog ("Processing Nomad Event with index: " +:+
                                      Go.FormatUint (EventIndex event))) ;;
                       processNomadEvent event) ;;
       match r with
       | Some err =>
           ret (Some (errors_WithMessage err
                        ("Error processing Nomad event with index: " +:+
                         Go.FormatUint (EventIndex event))))
       | None => range_events rest
       end)%eff
  end.

(** One turn of the [for] of [Start], at the cursor [index] and the item
    [events] received from the stream: [inl] is the error [Start]
    returns, [inr] the cursor of the next turn. *)
Definition turn (index : N) (events : Events) : M World (Go.error + N) :=
  match Err events with
  | Some e => ret (inl (errors_WithMessage e "Error getting next events from Nomad event stream"))
  | None =>
      if (Index events <? index)%N then ret (inr index)
      else
        (r <- range_events (Events_ events) ;;
         match r with
         | Some err => ret (inl err)
         | None => ret (inr (Index events))
         end)%eff
  end.

(** The [for] of [Start] over the items received so far: the error
    returned, or the cursor with which the loop waits for the next. *)
Fixpoint turns (index : N) (stream : list Events) : M World (Go.error + N) :=
  match stream with
  | [] => ret (inr index)
  | events :: rest =>
      (r <- turn index events ;;
       match r with
       | inl err => ret (inl err)
       | inr index' => turns index' rest
       end)%eff
  end.

(** The cursor [Start] opens the event stream at: [inl] when reading
    the last index fails with anything but [pgx.ErrNoRows]. *)
Definition start_index : M World (Go.error + N) :=
  (emit (ActLog "Starting NomadEventConsumer") ;;
   w <- get ;;
   r <- call (GetLastNomadEvent (nomad_event (db w))) ;;
   let '(index, err) := r in
   match err with
   | Some e =>
       if negb (is_ErrNoRows e)
       then ret (inl (errors_WithMessage e "Could not get last Nomad event index"))
       else ret (inr (Go.add64 index 1))
   | None => ret (inr (Go.add64 index 1))
   end)%eff.

(** [NomadEventConsumer.Start] over the items [stream] of the event
    stream; [open] is the error [NomadClient.EventStream] answers. *)
Definition Start (open : option Go.error) (stream : list Events) : M World (Go.error + N) :=
  (s <- start_index ;;
   match s with
   | inl err => ret (inl err)
   | inr index =>
       emit (ActLog ("Listening to Nomad events starting at index " +:+ Go.FormatUint index)) ;;
       match open with
       | Some e => ret (inl (errors_WithMessage e "Could not listen to Nomad events"))
       | None => turns index stream
       end
   end)%eff.

End Model.

End NomadEventConsumer.

(** ** Reading traces and configurations *)

(** The value at a path of keys and indices. *)
Fixpoint json_get (path : list (string + nat)) (j : JSON) : option JSON :=
  match path with
  | [] => Some j
  | inl k :: rest =>
      match j with
      | JObject fields =>
          match List.find (fun kv => String.eqb (fst kv) k) fields with
          | Some kv => json_get rest (snd kv)
          | None => None
          end
      | _ => None
      end
  | inr i :: rest =>
      match j with
      | JArray l => match l !! i with Some v => json_get rest v | None => None end
      | _ => None
      end
  end.

(** The labels the scrape configuration takes from the environment of
    the allocation: label and variable. *)
Definition nomad_env_labels : list (string * string) :=
  [ ("nomad_alloc_id", "NOMAD_ALLOC_ID"); ("nomad_alloc_index", "NOMAD_ALLOC_INDEX");
    ("nomad_alloc_name", "NOMAD_ALLOC_NAME"); ("nomad_dc", "NOMAD_DC");
    ("nomad_group_name", "NOMAD_GROUP_NAME"); ("nomad_job_id", "NOMAD_JOB_ID");
    ("nomad_job_name", "NOMAD_JOB_NAME"); ("nomad_job_parent_id", "NOMAD_JOB_PARENT_ID");
    ("nomad_namespace", "NOMAD_NAMESPACE"); ("nomad_region", "NOMAD_REGION") ].

Module TraceV1.
Import InvokerV1.

Definition is_publish (e : Event) : bool :=
  match e with EvPublish _ _ _ => true | _ => false end.

End TraceV1.

Module Trace.
Import Invoker.

Definition is_publish (e : Event) : bool :=
  match e with EvPublish _ _ _ => true | _ => false end.

(** Taking a slot, giving it back, or evaluating the workflow. *)
Definition is_limiter (e : Event) : bool :=
  match e with EvWait | EvFinish => true | _ => false end.

Definition is_evaluate (e : Event) : bool :=
  match e with EvEvaluate _ _ _ => true | _ => false end.

(** The step invocations of a trace: one [EvWait] each. *)
Definition invocations (tr : list Event) : nat :=
  length (List.filter (fun e => match e with EvWait => true | _ => false end) tr).

(** Over a trace in the order of time, from [held] slots: every
    evaluation happens while a slot is held. *)
Fixpoint evaluates_in_slot (held : nat) (tr : list Event) : bool :=
  match tr with
  | [] => true
  | EvWait :: rest => evaluates_in_slot (S held) rest
  | EvFinish :: rest => evaluates_in_slot (Nat.pred held) rest
  | EvEvaluate _ _ _ :: rest => (0 <? held)%nat && evaluates_in_slot held rest
  | _ :: rest => evaluates_in_slot held rest
  end.

End Trace.

Module TraceConsumer.
Import NomadEventConsumer.

(** The calls of [Publish] among actions given latest first, in the
    order of time. *)
Definition publish_calls (tr : list Action) : list (string * string) :=
  omap (fun a => match a with ActPublish s m => Some (s, m) | _ => None end) (rev tr).

End TraceConsumer.

(** ** Concrete surroundings, for running the model *)

Module Scenario.

Definition job (name : string) (tgs : list (option Nomad.loc)) : Nomad.Job :=
  {| Nomad.ID := None; Nomad.JobName := Some name; Nomad.TaskGroups := tgs |}.

Definition named (name : string) (j : Nomad.Job) : bool :=
  match Nomad.JobName j with Some n => String.eqb n name | None => false end.

(** A Nomad that refuses the job called [bad]. *)
Definition register {X : Type} (j : Nomad.Job) (x : X)
  : (Go.error + Nomad.JobRegisterResponse) * X :=
  if named "bad" j then (inl "job refused", x) else (inr {| Nomad.Warnings := "" |}, x).

Module V1.
Import InvokerV1.

Definition step (ty : string) (j : string) : workflowStep :=
  {| Failure := [("ok", JBool false)]; Success := [("ok", JBool true)];
     Inputs := []; When := []; Job := Some j; Type_ := Some ty |}.

Definition steps : list (string * workflowStep) :=
  [ ("first", step "nomad" "bad"); ("second", step "nomad" "good") ].

Definition wf : workflowDefinition :=
  {| Name := "wf"; Version := 0%N; Meta := []; Steps := steps |}.

#[export] Instance env : Env := {|
  Ext := unit;
  run_nix_instantiate := fun _ _ _ x => (("defs", None), x);
  run_nix_build := fun _ _ _ _ x => (("built", None), x);
  json_Unmarshal_defs := fun _ => inr [("wf", Some wf)];
  json_Unmarshal_job := fun s =>
    if String.eqb s "{" then inl "unexpected end of JSON input" else inr (job s []);
  nomad_Register := register;
|}.

(** After [cmd.init]: one slot, none held. *)
Definition w0 : World :=
  {| ext := tt; limiter := Some {| limit := 1; held := 0; period := 1000 |}; trace := [] |}.

Definition msg (subject : string) : Message :=
  {| Value := "{}"; Subject := subject; Key := ""; Timestamp := 0%Z; Offset := 0%Z |}.

End V1.

Module V2.
Import Invoker.

Definition group : Nomad.TaskGroup :=
  {| Nomad.GroupName := Some "g";
     Nomad.Tasks := [ {| Nomad.Name := "main"; Nomad.Driver := "nix"; Nomad.Lifecycle := None;
                         Nomad.TaskResources := None; Nomad.Config := []; Nomad.Templates := [] |} ] |}.

Definition step (name : string) (tgs : list (option Nomad.loc)) (runnable : bool) : WorkflowStep :=
  {| Failure := [("ok", JBool false)]; Success := [("ok", JBool true)];
     Inputs := []; When := [("go", runnable)]; Job := job name tgs |}.

Definition steps : list (string * WorkflowStep) :=
  [ ("first", step "bad" [Some 0] true); ("second", step "good" [Some 1] true) ].

Definition wf : WorkflowDefinition := {| Name := "wf"; Steps := steps |}.

#[export] Instance env : Env := {|
  Ext := nat;
  IsRunnable := fun s => forallb snd (When s);
  json_Unmarshal_inputs := fun s =>
    if String.eqb s "{}" then inr [] else inl "invalid character";
  yaml_Marshal := fun _ => inr "server: {}";
  uuid_String := fun u => Go.FormatUint u;
  uuid_New := fun x => (N.of_nat x, S x);
  time_Now := fun x => (1%Z, x);
  EvaluateWorkflow := fun _ _ _ h x => (inr wf, h, x);
  driver_fault := fun _ x => (None, x);
  nomad_Register := register;
  nomad_Deregister := fun _ _ x => (None, x);
|}.

Definition h0 : gmap Nomad.loc Nomad.TaskGroup := <[0 := group]> (<[1 := group]> ∅).

Definition w0 : World :=
  {| ext := 0; heap := h0; table := []; pending := [];
     limiter := Some {| limit := 1; held := 0; period := 1000 |}; trace := [] |}.

Definition msg (subject : string) : Message :=
  {| Value := "{}"; Subject := subject; Key := ""; Timestamp := 0%Z; Offset := 0%Z |}.

End V2.

Module Consumer.
Import NomadEventConsumer.

Definition a_run : Domain.Run :=
  {| Domain.NomadJobID := 7%N; Domain.InvocationId := 1%N; Domain.RunCreatedAt := 0%Z;
     Domain.FinishedAt := None;
     Domain.Success := JObject [("ok", JBool true)];
     Domain.Failure := JObject [("ok", JBool false)] |}.

(** Messages are the run id and the tag of the value. *)
Definition marshal (f : Domain.Fact) : Go.error + string :=
  match Domain.Value f with
  | JObject [(_, JBool true)] => inr "success"
  | JObject [(_, JBool false)] => inr "failure"
  | _ => inl "unsupported value"
  end.

#[export] Instance env : Env := {|
  Ext := unit;
  uuid_Parse := fun s => match Go.strconv_ParseUint s with
                         | inr n => inr n
                         | inl _ => inl "invalid UUID"
                         end;
  uuid_String := fun u => Go.FormatUint u;
  json_Marshal := marshal;
  FactCreateStreamName := "fact.create";
  db_fault := fun _ x => (None, x);
  GetLastNomadEvent := fun rows x =>
    match rows with
    | [] => ((0%N, Some "no rows in result set"), x)
    | _ => ((fold_right N.max 0%N (map EventIndex rows), None), x)
    end;
  is_ErrNoRows := fun e => String.eqb e "no rows in result set";
  mq_Publish := fun _ _ x => (None, x);
  nomad_JobsDeregister := fun _ _ x => (None, x);
|}.

Definition w0 : World :=
  {| ext := tt; db := {| run := {[ 7%N := a_run ]}; nomad_event := [] |};
     published := []; deregistered := []; trace := [] |}.

Definition alloc (status : string) : Allocation :=
  {| JobID := "7"; ClientStatus := status; ModifyTime := 1700000000123456789%Z |}.

Definition event (index : N) (status : string) : Event :=
  {| Topic := "Allocation"; Type_ := "AllocationUpdated"; EventIndex := index;
     Payload := inr (Some (alloc status)) |}.

Definition batch (index : N) (status : string) : Events :=
  {| Index := index; Events_ := [event index status]; Err := None |}.

End Consumer.

End Scenario.

(** ** Relating the world before and after a computation *)

Module Frame.
Import Eff Invoker.

(** The computation [m] leaves every world in relation [R] to the one
    it started from. *)
Definition keeps `{Env} (R : World -> World -> Prop) {A : Type} (m : M World A) : Prop :=
  forall w, R w (snd (m w)).

(** The goroutine comes out of the call: it returns or it panics. *)
Definition tame {A : Type} (o : outcome A) : Prop :=
  match o with Return _ | Panic _ => True | Fatal _ | Blocked => False end.

Definition tamed `{Env} {A : Type} (m : M World A) : Prop := forall w, tame (fst (m w)).

(** An action that neither touches the limiter, nor evaluates the
    workflow, nor publishes. *)
Definition inside (e : Event) : bool :=
  negb (Trace.is_limiter e) && negb (Trace.is_evaluate e) && negb (Trace.is_publish e).

(** [w'] has the limiter of [w] and its trace, under actions that are
    all [inside]. *)
Definition quiet `{Env} (w w' : World) : Prop :=
  limiter w' = limiter w /\
  exists body, trace w' = body ++ trace w /\ forallb inside body = true.

(** [w'] has the trace of [w] under later actions, none of which
    publishes. *)
Definition mute `{Env} (w w' : World) : Prop :=
  exists later, trace w' = later ++ trace w /\
                forallb (fun e => negb (Trace.is_publish e)) later = true.

(** [w'] has the committed rows of [w]. *)
Definition same_table `{Env} (w w' : World) : Prop := table w' = table w.

(** The result [r] of a computation started in [w] either is a return
    of nil or has left the committed rows of [w] as they were. *)
Definition nil_or_same_table `{Env} (w : World) (r : outcome (option Go.error) * World) : Prop :=
  fst r <> Return None -> table (snd r) = table w.

(** [w'] has the trace of [w] under later actions. *)
Definition grows `{Env} (w w' : World) : Prop :=
  exists later, trace w' = later ++ trace w.

End Frame.

(** ** Decimal numerals and separators *)

Module Numeral.

(** The number a decimal numeral denotes after the digits read so far
    have given [acc]. *)
Fixpoint value (d : Decimal.uint) (acc : N) : N :=
  match d with
  | Decimal.Nil => acc
  | Decimal.D0 l => value l (acc * 10)%N
  | Decimal.D1 l => value l (acc * 10 + 1)%N
  | Decimal.D2 l => value l (acc * 10 + 2)%N
  | Decimal.D3 l => value l (acc * 10 + 3)%N
  | Decimal.D4 l => value l (acc * 10 + 4)%N
  | Decimal.D5 l => value l (acc * 10 + 5)%N
  | Decimal.D6 l => value l (acc * 10 + 6)%N
  | Decimal.D7 l => value l (acc * 10 + 7)%N
  | Decimal.D8 l => value l (acc * 10 + 8)%N
  | Decimal.D9 l => value l (acc * 10 + 9)%N
  end.

(** The byte [sep] does not occur in [s]. *)
Fixpoint free_of (sep : ascii) (s : string) : bool :=
  match s with
  | EmptyString => true
  | String c rest => negb (Ascii.eqb c sep) && free_of sep rest
  end.

(** The subject on which a workflow instance is invoked. *)
Definition invoke_subject (workflowName : string) (id : N) : string :=
  "workflow." +:+ workflowName +:+ "." +:+ Go.FormatUint id +:+ ".invoke".

End Numeral.

(** ** What a step invocation asks of the database and of Nomad *)

Module Observe.
Import Invoker.

(** The insert of a step instance or the registration of a job. *)
Definition is_insert_or_register (e : Event) : bool :=
  match e with EvInsert _ | EvRegister _ => true | _ => false end.

(** Between [w] and [w'] the inserts and registrations were [cs], in
    the order of time. *)
Definition calls `{Env} (w w' : World) (cs : list Event) : Prop :=
  exists later, trace w' = later ++ trace w /\
                List.filter is_insert_or_register (rev later) = cs.


(** The inserts and registrations a runnable step may make: none, the
    insert of [i], or the insert of [i] followed by the registration of
    [job]. *)
Definition insert_then_register (i : StepInstance) (job : Nomad.Job) (cs : list Event) : Prop :=
  cs = [] \/ cs = [EvInsert i] \/ cs = [EvInsert i; EvRegister job].

(** What [instance] points to after the lookup of a step, when the
    driver has answered the [SELECT] with [f] over the rows [t]: the
    first row of that step and workflow instance, and nil when there is
    none or the driver has answered with an error. *)
Definition found_row (stepName : string) (wfInstanceId : N) (f : option Go.error)
    (t : list StepInstance) : option StepInstance :=
  match f with
  | Some _ => None
  | None => List.find (matches stepName wfInstanceId) t
  end.

(** The step instance a runnable step goes on with, and the world
    outside after it: the row found, or else a new row under the id
    [uuid.New] hands out in [x], with the workflow instance, the name of
    the step and the inputs. *)
Definition instance_for `{Env} (wfInstanceId : N) (stepName : string) (inputs : WorkflowCerts)
    (found : option StepInstance) (x : Ext) : StepInstance * Ext :=
  match found with
  | Some i => (i, x)
  | None =>
      let '(u, x') := uuid_New x in
      ({| ID := u; WorkflowInstanceId := wfInstanceId; StepName := stepName;
          Certs := inputs; FinishedAt := None |}, x')
  end.

End Observe.

(** ** What the allocation handler does, in order *)

Module ObserveConsumer.
Import NomadEventConsumer.

(** An action other than a log line. *)
Definition is_effect (a : Action) : bool :=
  match a with ActLog _ => false | _ => true end.

(** A beginning of the sequence: the update of the run [r], the
    publication of [message] on [stream], the deregistration of [job]. *)
Definition begins (r : Domain.Run) (stream message job : string) (l : list Action) : Prop :=
  l = [] \/ l = [ActUpdateRun r] \/ l = [ActUpdateRun r; ActPublish stream message] \/
  l = [ActUpdateRun r; ActPublish stream message; ActDeregister job].

(** The transaction [Start] opens for one event. *)
Definition event_tx `{Env} (event : Event) : Eff.M World (option Go.error) :=
  BeginFunc
    (Eff.bind (emit (ActLog ("Processing Nomad Event with index: " +:+
                             Go.FormatUint (EventIndex event))))
       (fun _ => processNomadEvent event)).

End ObserveConsumer.

(** ** Leaving the process, and a Nomad that cannot deregister *)

Module Exit.

(** The computation did not call [log.Fatalf]. *)
Definition stays {A : Type} (o : Eff.outcome A) : Prop :=
  match o with Eff.Fatal _ => False | _ => True end.

End Exit.

Module Outage.
Import NomadEventConsumer.

(** The surroundings of [Scenario.Consumer], with a Nomad that answers
    every deregistration with an error. *)
#[export] Instance env : Env := {|
  Ext := unit;
  uuid_Parse := fun s => match Go.strconv_ParseUint s with
                         | inr n => inr n
                         | inl _ => inl "invalid UUID"
                         end;
  uuid_String := fun u => Go.FormatUint u;
  json_Marshal := Scenario.Consumer.marshal;
  FactCreateStreamName := "fact.create";
  db_fault := fun _ x => (None, x);
  GetLastNomadEvent := fun _ x => ((0%N, None), x);
  is_ErrNoRows := fun _ => false;
  mq_Publish := fun _ _ x => (None, x);
  nomad_JobsDeregister := fun _ _ x => (Some "nomad is down", x);
|}.

Definition w0 : World :=
  {| ext := tt; db := {| run := {[ 7%N := Scenario.Consumer.a_run ]}; nomad_event := [] |};
     published := []; deregistered := []; trace := [] |}.

End Outage.

(** * Properties *)

(** ** [MD5Sum.Scan] *)

Section MD5SumScan.
Import Domain.

Lemma copy_covering {A : Type} (dst src : list A) :
  length dst <= length src -> Go.copy dst src = (take (length dst) src, length dst).
Proof.
  intros Hle. unfold Go.copy.
  rewrite Nat.min_l by exact Hle.
  rewrite drop_all, app_nil_r. reflexivity.
Qed.

Lemma copy_short {A : Type} (dst src : list A) :
  length src < length dst -> Go.copy dst src = (src ++ drop (length src) dst, length src).
Proof.
  intros Hlt. unfold Go.copy.
  rewrite Nat.min_r by lia.
  rewrite firstn_all. reflexivity.
Qed.

(** C10.  On a receiver of sixteen bytes, [Scan] accepts exactly the byte
    slices of sixteen bytes or more, of which it keeps the first sixteen
    without complaint about the rest; a shorter slice is an error (its
    bytes are copied all the same), and so is any value that is not a
    byte slice, which leaves the receiver as it was. *)
Theorem MD5Sum_Scan_cases (self : MD5Sum) (Hlen : length self = MD5Sum_len) :
  (forall b : list Byte.byte, MD5Sum_len <= length b ->
     MD5Sum_Scan self (VBytes b) = (take MD5Sum_len b, None)) /\
  (forall b : list Byte.byte, length b < MD5Sum_len ->
     exists e, MD5Sum_Scan self (VBytes b) = (b ++ drop (length b) self, Some e)) /\
  (forall v : driver_Value, (forall b, v <> VBytes b) ->
     exists e, MD5Sum_Scan self v = (self, Some e)).
Proof.
  split; [|split].
  - intros b Hb. unfold MD5Sum_Scan.
    rewrite copy_covering by lia.
    rewrite Hlen, Nat.eqb_refl. reflexivity.
  - intros b Hb. unfold MD5Sum_Scan.
    rewrite copy_short by lia.
    destruct (Nat.eqb (length b) MD5Sum_len) eqn:E.
    + apply Nat.eqb_eq in E. lia.
    + eexists. reflexivity.
  - intros v Hv. destruct v; try (eexists; reflexivity).
    exfalso. exact (Hv b eq_refl).
Qed.

End MD5SumScan.

(** A digest of zeros, a slice of twenty bytes and one of three. *)
Lemma MD5Sum_Scan_cases_witness :
  Domain.MD5Sum_Scan (replicate 16 Byte.x00) (Domain.VBytes (replicate 20 Byte.x2a))
    = (replicate 16 Byte.x2a, None) /\
  (exists e, Domain.MD5Sum_Scan (replicate 16 Byte.x00) (Domain.VBytes (replicate 3 Byte.x2a))
             = (replicate 3 Byte.x2a ++ replicate 13 Byte.x00, Some e)) /\
  (exists e, Domain.MD5Sum_Scan (replicate 16 Byte.x00) (Domain.VString "digest")
             = (replicate 16 Byte.x00, Some e)).
Proof.
  destruct (MD5Sum_Scan_cases (replicate 16 Byte.x00) eq_refl) as (Hlong & Hshort & Hother).
  split; [|split].
  - apply (Hlong (replicate 20 Byte.x2a)). vm_compute. lia.
  - apply (Hshort (replicate 3 Byte.x2a)). vm_compute. lia.
  - apply (Hother (Domain.VString "digest")). intros b Hb. discriminate Hb.
Defined.

(** ** Computations *)

Section EffLemmas.
Import Eff.
Context {S : Type}.

Lemma bind_Return {A B : Type} (m : M S A) (k : A -> M S B) (s s' : S) (a : A) :
  m s = (Return a, s') -> bind m k s = k a s'.
Proof. intros Hm. unfold bind. rewrite Hm. reflexivity. Qed.

End EffLemmas.

(** ** The subscribers and the subject of a message *)

Section Subscriber.
Import Eff.

Lemma lookup_2_lookup_1 {A : Type} (l : list A) (x : A) :
  l !! 2 = Some x -> exists y, l !! 1 = Some y.
Proof.
  destruct l as [|a [|b [|c l]]]; intros Hx; try discriminate Hx.
  exists b. reflexivity.
Qed.

(** C5, as the code has it.  When the subject of a message has a third
    segment and that segment is no decimal [uint64], both subscribers
    drop the message: they log the warning and return, and nothing but
    the log has changed.  (The later subscriber drops a message whose
    payload is not JSON before it looks at the subject.) *)
Theorem subscriber_drops_malformed_id
    (E1 : InvokerV1.Env) (E2 : Invoker.Env) (subject idstr : string) (e : Go.NumError)
    (Hseg : Go.strings_Split subject "." !! 2 = Some idstr)
    (Hbad : Go.strconv_ParseUint idstr = inl e) :
  (forall (m : InvokerV1.Message) (w : InvokerV1.World),
     InvokerV1.Subject m = subject ->
     InvokerV1.invokerSubscriber m None w =
       (Return tt,
        InvokerV1.add_event
          (InvokerV1.EvLog ("Invalid Workflow ID received, ignoring: " +:+ subject))
          (InvokerV1.add_event (InvokerV1.EvLog (InvokerV1.Value m)) w))) /\
  (forall (m : Invoker.Message) (w : Invoker.World),
     Invoker.Subject m = subject ->
     Invoker.invokerSubscriber m None w =
       (Return tt,
        match Invoker.json_Unmarshal_inputs (Invoker.Value m) with
        | inl err =>
            Invoker.add_event (Invoker.EvLog ("Invalid JSON received, ignoring: " +:+ err))
              (Invoker.add_event (Invoker.EvLog (Invoker.Value m)) w)
        | inr _ =>
            Invoker.add_event
              (Invoker.EvLog ("Invalid Workflow Instance ID received, ignoring: " +:+ subject)) w
        end)).
Proof.
  destruct (lookup_2_lookup_1 _ _ Hseg) as [name Hname].
  split.
  - intros m w Hm. unfold InvokerV1.invokerSubscriber.
    rewrite Hm. unfold at_index, Go.index.
    rewrite Hname, Hseg. cbn [bind ret].
    unfold bind, InvokerV1.emit, modify, ret. cbn.
    rewrite Hbad. reflexivity.
  - intros m w Hm. unfold Invoker.invokerSubscriber.
    destruct (Invoker.json_Unmarshal_inputs (Invoker.Value m)) as [err | inputs].
    + reflexivity.
    + rewrite Hm. unfold at_index, Go.index.
      rewrite Hname, Hseg.
      unfold bind, ret. rewrite Hbad. reflexivity.
Qed.

End Subscriber.

(** The subject [workflow.wf.x1.invoke]: its third segment is [x1]. *)
Lemma subscriber_drops_malformed_id_witness :
  fst (InvokerV1.invokerSubscriber (Scenario.V1.msg "workflow.wf.x1.invoke") None Scenario.V1.w0)
    = Eff.Return tt /\
  fst (Invoker.invokerSubscriber (Scenario.V2.msg "workflow.wf.x1.invoke") None Scenario.V2.w0)
    = Eff.Return tt.
Proof.
  destruct (subscriber_drops_malformed_id Scenario.V1.env Scenario.V2.env
              "workflow.wf.x1.invoke" "x1" Go.ErrSyntax eq_refl eq_refl) as [H1 H2].
  split.
  - rewrite (H1 (Scenario.V1.msg "workflow.wf.x1.invoke") Scenario.V1.w0 eq_refl). reflexivity.
  - rewrite (H2 (Scenario.V2.msg "workflow.wf.x1.invoke") Scenario.V2.w0 eq_refl). reflexivity.
Defined.

(** C5, as the claim has it, fails: a subject of two segments makes both
    subscribers panic at [parts[2]]. *)
Lemma subscriber_panics_on_short_subject :
  fst (InvokerV1.invokerSubscriber (Scenario.V1.msg "workflow.wf") None Scenario.V1.w0)
    = Eff.Panic "index out of range" /\
  fst (Invoker.invokerSubscriber (Scenario.V2.msg "workflow.wf") None Scenario.V2.w0)
    = Eff.Panic "index out of range".
Proof. split; vm_compute; reflexivity. Qed.

(** ** The loops over the steps of a workflow *)

Section StepLoops.
Import Eff.

Lemma V1_range_steps_cons `{InvokerV1.Env} (name : string) (id : N) (inputs stepName : string)
    (step : InvokerV1.workflowStep) (rest : list (string * InvokerV1.workflowStep))
    (w : InvokerV1.World) :
  InvokerV1.range_steps name id inputs ((stepName, step) :: rest) w =
    let w1 := InvokerV1.add_event (InvokerV1.EvLog ("Checking runnability of " +:+ stepName)) w in
    match InvokerV1.Job step with
    | None => InvokerV1.range_steps name id inputs rest w1
    | Some _ =>
        match InvokerV1.invokeWorkflowStep name id inputs stepName step w1 with
        | (Return None, w2) => InvokerV1.range_steps name id inputs rest w2
        | (Return (Some e), w2) => (Return (Some e), w2)
        | (Panic msg, w2) => (Panic msg, w2)
        | (Fatal msg, w2) => (Fatal msg, w2)
        | (Blocked, w2) => (Blocked, w2)
        end
    end.
Proof.
  cbn [InvokerV1.range_steps]. unfold bind at 1. cbn [InvokerV1.emit modify].
  destruct (InvokerV1.Job step); [|reflexivity].
  unfold bind.
  destruct (InvokerV1.invokeWorkflowStep _ _ _ _ _ _) as [[[e|] | msg | msg | ] w2]; reflexivity.
Qed.

Lemma V2_range_steps_cons `{Invoker.Env} (name : string) (id : N) (inputs : Invoker.WorkflowCerts)
    (stepName : string) (step : Invoker.WorkflowStep)
    (rest : list (string * Invoker.WorkflowStep)) (w : Invoker.World) :
  Invoker.range_steps name id inputs ((stepName, step) :: rest) w =
    match Invoker.invokeWorkflowStep name id inputs stepName step w with
    | (Return None, w2) => Invoker.range_steps name id inputs rest w2
    | (Return (Some e), w2) => (Return (Some e), w2)
    | (Panic msg, w2) => (Panic msg, w2)
    | (Fatal msg, w2) => (Fatal msg, w2)
    | (Blocked, w2) => (Blocked, w2)
    end.
Proof.
  cbn [Invoker.range_steps]. unfold bind.
  destruct (Invoker.invokeWorkflowStep _ _ _ _ _ _) as [[[e|] | msg | msg | ] w2]; reflexivity.
Qed.

Lemma V1_range_steps_stops `{InvokerV1.Env} (name : string) (id : N) (inputs : string)
    (pre : list (string * InvokerV1.workflowStep)) :
  forall (stepName : string) (step : InvokerV1.workflowStep)
         (rest : list (string * InvokerV1.workflowStep)) (w w1 w2 : InvokerV1.World) (e : Go.error),
    InvokerV1.range_steps name id inputs pre w = (Return None, w1) ->
    InvokerV1.Job step <> None ->
    InvokerV1.invokeWorkflowStep name id inputs stepName step
      (InvokerV1.add_event (InvokerV1.EvLog ("Checking runnability of " +:+ stepName)) w1)
      = (Return (Some e), w2) ->
    InvokerV1.range_steps name id inputs (pre ++ (stepName, step) :: rest) w
      = (Return (Some e), w2).
Proof.
  induction pre as [|[n s] pre IH]; intros stepName step rest w w1 w2 e Hpre Hjob Hstep.
  - cbn in Hpre. injection Hpre as <-.
    cbn [app]. rewrite V1_range_steps_cons. cbv zeta.
    destruct (InvokerV1.Job step); [|congruence].
    rewrite Hstep. reflexivity.
  - change (((n, s) :: pre) ++ (stepName, step) :: rest)
      with ((n, s) :: (pre ++ (stepName, step) :: rest)).
    rewrite V1_range_steps_cons in Hpre |- *. cbv zeta in Hpre |- *.
    destruct (InvokerV1.Job s).
    + destruct (InvokerV1.invokeWorkflowStep name id inputs n s _) as [[[e'|] | msg | msg | ] w'];
        try discriminate Hpre.
      eapply IH; eassumption.
    + eapply IH; eassumption.
Qed.

Lemma V2_range_steps_stops `{Invoker.Env} (name : string) (id : N) (inputs : Invoker.WorkflowCerts)
    (pre : list (string * Invoker.WorkflowStep)) :
  forall (stepName : string) (step : Invoker.WorkflowStep)
         (rest : list (string * Invoker.WorkflowStep)) (w w1 w2 : Invoker.World) (e : Go.error),
    Invoker.range_steps name id inputs pre w = (Return None, w1) ->
    Invoker.invokeWorkflowStep name id inputs stepName step w1 = (Return (Some e), w2) ->
    Invoker.range_steps name id inputs (pre ++ (stepName, step) :: rest) w
      = (Return (Some e), w2).
Proof.
  induction pre as [|[n s] pre IH]; intros stepName step rest w w1 w2 e Hpre Hstep.
  - cbn in Hpre. injection Hpre as <-.
    cbn [app]. rewrite V2_range_steps_cons, Hstep. reflexivity.
  - change (((n, s) :: pre) ++ (stepName, step) :: rest)
      with ((n, s) :: (pre ++ (stepName, step) :: rest)).
    rewrite V2_range_steps_cons in Hpre |- *.
    destruct (Invoker.invokeWorkflowStep name id inputs n s w) as [[[e'|] | msg | msg | ] w'];
      try discriminate Hpre.
    eapply IH; eassumption.
Qed.

(** C7, as the code has it.  Both loops stop at the first step whose
    invocation returns an error: when the steps before it went through
    and its invocation returns [e], the loop returns [e] in the world that
    invocation left, whatever steps follow.  (The first invoker logs
    each step and invokes those that have a job.) *)
Theorem step_loops_stop_at_first_error (E1 : InvokerV1.Env) (E2 : Invoker.Env)
    (name : string) (id : N) (e : Go.error) :
  (forall (inputs stepName : string) (step : InvokerV1.workflowStep)
          (pre rest : list (string * InvokerV1.workflowStep)) (w w1 w2 : InvokerV1.World),
     InvokerV1.range_steps name id inputs pre w = (Return None, w1) ->
     InvokerV1.Job step <> None ->
     InvokerV1.invokeWorkflowStep name id inputs stepName step
       (InvokerV1.add_event (InvokerV1.EvLog ("Checking runnability of " +:+ stepName)) w1)
       = (Return (Some e), w2) ->
     InvokerV1.range_steps name id inputs (pre ++ (stepName, step) :: rest) w
       = (Return (Some e), w2)) /\
  (forall (inputs : Invoker.WorkflowCerts) (stepName : string) (step : Invoker.WorkflowStep)
          (pre rest : list (string * Invoker.WorkflowStep)) (w w1 w2 : Invoker.World),
     Invoker.range_steps name id inputs pre w = (Return None, w1) ->
     Invoker.invokeWorkflowStep name id inputs stepName step w1 = (Return (Some e), w2) ->
     Invoker.range_steps name id inputs (pre ++ (stepName, step) :: rest) w
       = (Return (Some e), w2)).
Proof.
  split.
  - intros. eapply V1_range_steps_stops; eassumption.
  - intros. eapply V2_range_steps_stops; eassumption.
Qed.

End StepLoops.

(** Two steps, of which Nomad refuses the first: either loop returns the
    error of the first and is where that step left it. *)
Lemma step_loops_stop_at_first_error_witness :
  InvokerV1.range_steps "wf" 12 "{}" Scenario.V1.steps Scenario.V1.w0
    = (Eff.Return (Some "Failed to run step: job refused"),
       snd (InvokerV1.invokeWorkflowStep "wf" 12 "{}" "first" (Scenario.V1.step "nomad" "bad")
              (InvokerV1.add_event (InvokerV1.EvLog "Checking runnability of first")
                 Scenario.V1.w0))) /\
  Invoker.range_steps "wf" 12 [] Scenario.V2.steps Scenario.V2.w0
    = (Eff.Return (Some "Failed to run step: job refused"),
       snd (Invoker.invokeWorkflowStep "wf" 12 [] "first" (Scenario.V2.step "bad" [Some 0] true)
              Scenario.V2.w0)).
Proof.
  destruct (step_loops_stop_at_first_error Scenario.V1.env Scenario.V2.env "wf" 12
              "Failed to run step: job refused") as [H1 H2].
  split.
  - apply (H1 "{}" "first" (Scenario.V1.step "nomad" "bad") []
              [("second", Scenario.V1.step "nomad" "good")] Scenario.V1.w0 Scenario.V1.w0).
    + reflexivity.
    + discriminate.
    + vm_compute. reflexivity.
  - apply (H2 [] "first" (Scenario.V2.step "bad" [Some 0] true) []
              [("second", Scenario.V2.step "good" [Some 1] true)] Scenario.V2.w0 Scenario.V2.w0).
    + reflexivity.
    + vm_compute. reflexivity.
Defined.

(** C7, as the claim has it, fails for the later invoker: of two steps
    whose first returns an error, the second is not invoked. *)
Lemma later_loop_stops_at_first_error :
  let r := Invoker.range_steps "wf" 12 [] Scenario.V2.steps Scenario.V2.w0 in
  length Scenario.V2.steps = 2 /\
  fst r = Eff.Return (Some "Failed to run step: job refused") /\
  Trace.invocations (Invoker.trace (snd r)) = 1 /\
  r = Invoker.invokeWorkflowStep "wf" 12 [] "first" (Scenario.V2.step "bad" [Some 0] true)
        Scenario.V2.w0.
Proof. vm_compute. repeat split; reflexivity. Qed.

(** ** What an invocation of the later invoker leaves in place

    A relation [R] between the world before and the world after that is
    a preorder and that the primitive moves of the model respect is kept
    by every computation built from them. *)

Section Keeps.
Import Eff Invoker.
Context `{Env}.

Variable R : World -> World -> Prop.
Variable ok : Event -> bool.
Hypothesis R_refl : forall w, R w w.
Hypothesis R_trans : forall w1 w2 w3, R w1 w2 -> R w2 w3 -> R w1 w3.
Hypothesis R_ext : forall x w, R w (set_ext x w).
Hypothesis R_heap : forall h w, R w (set_heap h w).
Hypothesis R_table : forall t w, R w (set_table t w).
Hypothesis R_pending : forall p w, R w (set_pending p w).
Hypothesis R_event : forall e w, ok e = true -> R w (add_event e w).
Hypothesis ok_inside : forall e, Frame.inside e = true -> ok e = true.

#[local] Abbreviation keeps := (Frame.keeps R).

Lemma keeps_ret {A : Type} (a : A) : keeps (ret a).
Proof. intros w. apply R_refl. Qed.

Lemma keeps_bind {A B : Type} (m : M World A) (k : A -> M World B) :
  keeps m -> (forall a, keeps (k a)) -> keeps (bind m k).
Proof.
  intros Hm Hk w. unfold bind. specialize (Hm w).
  destruct (m w) as [[a | msg | msg | ] w1]; cbn [snd] in *; try exact Hm.
  eapply R_trans; [exact Hm | apply Hk].
Qed.

Lemma keeps_get : keeps get.
Proof. intros w. apply R_refl. Qed.

Lemma keeps_modify (f : World -> World) : (forall w, R w (f w)) -> keeps (modify f).
Proof. intros Hf w. apply Hf. Qed.

Lemma keeps_emit (e : Event) : ok e = true -> keeps (emit e).
Proof. intros He w. apply R_event, He. Qed.

Lemma keeps_call {A : Type} (f : Ext -> A * Ext) : keeps (call f).
Proof. intros w. unfold call. destruct (f (ext w)) as [a x]. apply R_ext. Qed.

Lemma keeps_deref {A : Type} (p : option A) : keeps (deref (S := World) p).
Proof. intros w. destruct p; apply R_refl. Qed.

Lemma keeps_defer {A : Type} (d : M World unit) (m : M World A) :
  keeps d -> keeps m -> keeps (defer d m).
Proof.
  intros Hd Hm w. unfold defer. specialize (Hm w).
  destruct (m w) as [[a | msg | msg | ] w1]; cbn [snd] in *; try exact Hm.
  - specialize (Hd w1). destruct (d w1) as [[[] | msg | msg | ] w2]; cbn [snd] in *;
      eapply R_trans; eassumption.
  - specialize (Hd w1). destruct (d w1) as [[[] | msg' | msg' | ] w2]; cbn [snd] in *;
      eapply R_trans; eassumption.
Qed.

Lemma keeps_add_logging (job : Nomad.Job) : keeps (add_logging job).
Proof.
  intros w. unfold add_logging. destruct (addLogging job (heap w)) as [o h]. apply R_heap.
Qed.

Lemma keeps_evaluate (name : string) (id : N) (inputs : WorkflowCerts) :
  keeps (evaluate name id inputs).
Proof.
  intros w. unfold evaluate.
  destruct (EvaluateWorkflow name id inputs (heap w) (ext w)) as [[res h] x].
  eapply R_trans; [apply R_ext | apply R_heap].
Qed.

Lemma R_rollback (w : World) : R w (rollback w).
Proof.
  unfold rollback. eapply R_trans; [apply R_pending | apply R_event].
  apply ok_inside; reflexivity.
Qed.

Lemma keeps_RunInTx (fn : M World (option Go.error)) : keeps fn -> keeps (RunInTx fn).
Proof.
  intros Hfn w. unfold RunInTx.
  destruct (driver_fault QBegin (ext w)) as [[e|] x]; cbn [snd]; [apply R_ext|].
  specialize (Hfn (add_event EvBegin (set_pending [] (set_ext x w)))).
  assert (Hopen : R w (add_event EvBegin (set_pending [] (set_ext x w)))).
  { eapply R_trans; [apply R_ext|]. eapply R_trans; [apply R_pending|].
    apply R_event, ok_inside; reflexivity. }
  destruct (fn _) as [[[e|] | msg | msg | ] w1]; cbn [snd] in *.
  - eapply R_trans; [exact Hopen|]. eapply R_trans; [exact Hfn | apply R_rollback].
  - destruct (driver_fault QCommit (ext w1)) as [[e|] x1]; cbn [snd].
    + eapply R_trans; [exact Hopen|]. eapply R_trans; [exact Hfn|].
      eapply R_trans; [apply R_ext | apply R_rollback].
    + eapply R_trans; [exact Hopen|]. eapply R_trans; [exact Hfn|].
      eapply R_trans; [apply R_ext|]. eapply R_trans; [apply R_table|].
      eapply R_trans; [apply R_pending|]. apply R_event, ok_inside; reflexivity.
  - eapply R_trans; [exact Hopen|]. eapply R_trans; [exact Hfn | apply R_rollback].
  - eapply R_trans; [exact Hopen|]. eapply R_trans; [exact Hfn | apply R_pending].
  - eapply R_trans; eassumption.
Qed.

(** One step of a proof that a computation keeps [R]. *)
Ltac keeps_step :=
  first
    [ apply keeps_ret
    | apply keeps_get
    | apply keeps_call
    | apply keeps_deref
    | apply keeps_add_logging
    | apply keeps_evaluate
    | apply keeps_emit; apply ok_inside; reflexivity
    | apply keeps_modify; intros ?; first [apply R_table | apply R_pending | apply R_heap]
    | apply keeps_RunInTx
    | apply keeps_bind; [|intros ?]
    | match goal with
      | |- keeps (match ?x with _ => _ end) => destruct x
      | |- keeps (if ?b then _ else _) => destruct b
      end ].

Lemma keeps_insertStepInstance (instance : StepInstance) : keeps (insertStepInstance instance).
Proof. unfold insertStepInstance. repeat keeps_step. Qed.

Lemma keeps_select_instance (stepName : string) (id : N) : keeps (select_instance stepName id).
Proof. unfold select_instance. repeat keeps_step. Qed.

Lemma keeps_register_tx (instance : StepInstance) (job : Nomad.Job) :
  keeps (register_tx instance job).
Proof.
  unfold register_tx.
  apply keeps_bind; [apply keeps_insertStepInstance | intros r].
  repeat keeps_step.
Qed.

Lemma keeps_deregister_tx (instance : StepInstance) : keeps (deregister_tx instance).
Proof. unfold deregister_tx. repeat keeps_step. Qed.

Lemma keeps_step_body (name : string) (id : N) (inputs : WorkflowCerts) (stepName : string)
    (step : WorkflowStep) : keeps (step_body name id inputs stepName step).
Proof.
  unfold step_body.
  apply keeps_bind; [keeps_step | intros _].
  apply keeps_bind; [apply keeps_select_instance | intros sel].
  destruct sel as [e | found]; [keeps_step|].
  destruct (IsRunnable step).
  - apply keeps_bind; [keeps_step | intros logged].
    destruct logged as [e|]; [keeps_step|].
    apply keeps_bind; [repeat keeps_step | intros instance].
    apply keeps_RunInTx, keeps_register_tx.
  - destruct found as [instance|]; [|keeps_step].
    apply keeps_RunInTx, keeps_deregister_tx.
Qed.

(** With a relation that the limiter and every action respect, the
    whole invocation keeps it. *)
Hypothesis R_limiter : forall l w, R w (set_limiter l w).
Hypothesis ok_limiter : forall e, Trace.is_limiter e = true -> ok e = true.

Lemma keeps_limiter_Wait : keeps limiter_Wait.
Proof.
  intros w. unfold limiter_Wait, bind, get, deref.
  destruct (limiter w) as [l|]; cbn [ret panic snd]; [|apply R_refl].
  destruct (Nat.ltb (held l) (limit l)); cbn [modify emit block snd]; [|apply R_refl].
  eapply R_trans; [apply R_limiter | apply R_event, ok_limiter; reflexivity].
Qed.

Lemma keeps_limiter_Finish : keeps limiter_Finish.
Proof.
  intros w. unfold limiter_Finish, bind, get, deref.
  destruct (limiter w) as [l|]; cbn [ret panic modify emit snd]; [|apply R_refl].
  eapply R_trans; [apply R_limiter | apply R_event, ok_limiter; reflexivity].
Qed.

Lemma keeps_invokeWorkflowStep (name : string) (id : N) (inputs : WorkflowCerts)
    (stepName : string) (step : WorkflowStep) :
  keeps (invokeWorkflowStep name id inputs stepName step).
Proof.
  unfold invokeWorkflowStep.
  apply keeps_bind; [apply keeps_limiter_Wait | intros _].
  apply keeps_defer; [apply keeps_limiter_Finish | apply keeps_step_body].
Qed.

Lemma keeps_range_steps (name : string) (id : N) (inputs : WorkflowCerts)
    (steps : list (string * WorkflowStep)) : keeps (range_steps name id inputs steps).
Proof.
  induction steps as [|[stepName step] rest IH]; cbn [range_steps]; [apply keeps_ret|].
  apply keeps_bind; [apply keeps_invokeWorkflowStep | intros err].
  destruct err; [apply keeps_ret | exact IH].
Qed.

End Keeps.

(** The outcomes of the body of a step invocation. *)

Section Tamed.
Import Eff Invoker Frame.
Context `{Env}.

Lemma tamed_ret {A : Type} (a : A) : tamed (ret a).
Proof. intros w. exact I. Qed.

Lemma tamed_bind {A B : Type} (m : M World A) (k : A -> M World B) :
  tamed m -> (forall a, tamed (k a)) -> tamed (bind m k).
Proof.
  intros Hm Hk w. unfold bind. specialize (Hm w).
  destruct (m w) as [[a | msg | msg | ] w1]; cbn [fst] in *; try exact Hm.
  apply Hk.
Qed.

Lemma tamed_get : tamed get.
Proof. intros w. exact I. Qed.

Lemma tamed_modify (f : World -> World) : tamed (modify f).
Proof. intros w. exact I. Qed.

Lemma tamed_emit (e : Event) : tamed (emit e).
Proof. intros w. exact I. Qed.

Lemma tamed_call {A : Type} (f : Ext -> A * Ext) : tamed (call f).
Proof. intros w. unfold call. destruct (f (ext w)). exact I. Qed.

Lemma tamed_add_logging (job : Nomad.Job) : tamed (add_logging job).
Proof.
  intros w. unfold add_logging, addLogging.
  destruct (yaml_Marshal promtail_config) as [err | cfg]; [exact I|].
  destruct (range_TaskGroups cfg (Nomad.TaskGroups job) (heap w)) as [[|] h]; exact I.
Qed.

Lemma tamed_RunInTx (fn : M World (option Go.error)) : tamed fn -> tamed (RunInTx fn).
Proof.
  intros Hfn w. unfold RunInTx.
  destruct (driver_fault QBegin (ext w)) as [[e|] x]; [exact I|].
  specialize (Hfn (add_event EvBegin (set_pending [] (set_ext x w)))).
  destruct (fn _) as [[[e|] | msg | msg | ] w1]; cbn [fst] in *; try exact Hfn.
  destruct (driver_fault QCommit (ext w1)) as [[e|] x1]; exact I.
Qed.

Ltac tamed_step :=
  first
    [ apply tamed_ret
    | apply tamed_get
    | apply tamed_call
    | apply tamed_emit
    | apply tamed_modify
    | apply tamed_add_logging
    | apply tamed_RunInTx
    | apply tamed_bind; [|intros ?]
    | match goal with
      | |- tamed (match ?x with _ => _ end) => destruct x
      | |- tamed (if ?b then _ else _) => destruct b
      end ].

Lemma tamed_step_body (name : string) (id : N) (inputs : WorkflowCerts) (stepName : string)
    (step : WorkflowStep) : tamed (step_body name id inputs stepName step).
Proof.
  unfold step_body, select_instance, register_tx, deregister_tx, insertStepInstance.
  repeat tamed_step.
Qed.

End Tamed.

(** ** The limiter around a step invocation *)

Section Slots.
Import Eff Invoker Frame.
Context `{Env}.

Lemma quiet_same (w w' : World) : limiter w' = limiter w -> trace w' = trace w -> quiet w w'.
Proof. intros Hl Ht. split; [exact Hl|]. exists []. split; [exact Ht | reflexivity]. Qed.

Lemma quiet_refl (w : World) : quiet w w.
Proof. apply quiet_same; reflexivity. Qed.

Lemma quiet_trans (w1 w2 w3 : World) : quiet w1 w2 -> quiet w2 w3 -> quiet w1 w3.
Proof.
  intros [Hl1 (b1 & Ht1 & Hb1)] [Hl2 (b2 & Ht2 & Hb2)]. split; [congruence|].
  exists (b2 ++ b1). split.
  - rewrite Ht2, Ht1, app_assoc. reflexivity.
  - rewrite forallb_app, Hb1, Hb2. reflexivity.
Qed.

Lemma quiet_event (e : Event) (w : World) : inside e = true -> quiet w (add_event e w).
Proof.
  intros He. split; [reflexivity|]. exists [e]. split; [reflexivity|].
  cbn. rewrite He. reflexivity.
Qed.

Lemma grows_same (w w' : World) : trace w' = trace w -> grows w w'.
Proof. intros Ht. exists []. exact Ht. Qed.

Lemma grows_refl (w : World) : grows w w.
Proof. apply grows_same; reflexivity. Qed.

Lemma grows_trans (w1 w2 w3 : World) : grows w1 w2 -> grows w2 w3 -> grows w1 w3.
Proof.
  intros [b1 Ht1] [b2 Ht2]. exists (b2 ++ b1). rewrite Ht2, Ht1, app_assoc. reflexivity.
Qed.

Lemma step_body_quiet (name : string) (id : N) (inputs : WorkflowCerts) (stepName : string)
    (step : WorkflowStep) : keeps quiet (step_body name id inputs stepName step).
Proof.
  apply keeps_step_body with (ok := inside).
  - exact quiet_refl.
  - exact quiet_trans.
  - intros x w. apply quiet_same; reflexivity.
  - intros h w. apply quiet_same; reflexivity.
  - intros t w. apply quiet_same; reflexivity.
  - intros p w. apply quiet_same; reflexivity.
  - intros e w. apply quiet_event.
  - intros e He. exact He.
Qed.

Lemma range_steps_grows (name : string) (id : N) (inputs : WorkflowCerts)
    (steps : list (string * WorkflowStep)) : keeps grows (range_steps name id inputs steps).
Proof.
  apply keeps_range_steps with (ok := fun _ => true).
  - exact grows_refl.
  - exact grows_trans.
  - intros x w. apply grows_same; reflexivity.
  - intros h w. apply grows_same; reflexivity.
  - intros t w. apply grows_same; reflexivity.
  - intros p w. apply grows_same; reflexivity.
  - intros e w _. exists [e]. reflexivity.
  - reflexivity.
  - intros l w. apply grows_same; reflexivity.
  - reflexivity.
Qed.

Lemma limiter_Wait_free (w : World) (l : Limiter) :
  limiter w = Some l -> held l < limit l ->
  limiter_Wait w =
    (Return tt,
     add_event EvWait
       (set_limiter (Some {| limit := limit l; held := S (held l); period := period l |}) w)).
Proof.
  intros Hl Hfree. unfold limiter_Wait, bind, get, deref. rewrite Hl. cbn [ret].
  destruct (Nat.ltb_spec (held l) (limit l)) as [_ | Hge]; [reflexivity | lia].
Qed.

Lemma limiter_Finish_held (w : World) (l : Limiter) :
  limiter w = Some l ->
  limiter_Finish w =
    (Return tt,
     add_event EvFinish
       (set_limiter (Some {| limit := limit l; held := Nat.pred (held l); period := period l |}) w)).
Proof. intros Hl. unfold limiter_Finish, bind, get, deref. rewrite Hl. reflexivity. Qed.

(** C8, as the code has it.  [init] gives the command a limiter of one
    slot.  A step invocation that finds a slot free takes it first and
    gives it back last, whether its body returns or panics: the limiter
    is afterwards as it was before, and all the body does (the lookup of
    the step instance, the logging sidecar, the transaction with the job
    runner) happens in between.  The workflow itself is evaluated at the
    head of [invokeWorkflow], before any step has taken a slot. *)
Theorem step_invocation_holds_slot (name : string) (id : N) (inputs : WorkflowCerts)
    (stepName : string) (step : WorkflowStep) (w : World) (l : Limiter)
    (Hlim : limiter w = Some l) (Hfree : held l < limit l) :
  (forall w0 : World, limiter w0 = None ->
     limiter (snd (init w0)) = Some {| limit := 1; held := 0; period := 1000 |}) /\
  (let r := invokeWorkflowStep name id inputs stepName step w in
   tame (fst r) /\
   limiter (snd r) = Some l /\
   exists body, trace (snd r) = EvFinish :: body ++ EvWait :: trace w /\
                forallb inside body = true) /\
  (exists later,
     trace (snd (invokeWorkflow name id inputs w)) = later ++ EvEvaluate name id inputs :: trace w).
Proof.
  split; [|split].
  - intros w0 Hnone. unfold init, bind, get. rewrite Hnone. reflexivity.
  - cbv zeta. unfold invokeWorkflowStep.
    rewrite (bind_Return _ _ _ _ _ (limiter_Wait_free w l Hlim Hfree)).
    set (l1 := {| limit := limit l; held := S (held l); period := period l |}).
    set (w1 := add_event EvWait (set_limiter (Some l1) w)).
    pose proof (tamed_step_body name id inputs stepName step w1) as Htame.
    pose proof (step_body_quiet name id inputs stepName step w1) as [Hl (body & Ht & Hb)].
    unfold defer.
    destruct (step_body name id inputs stepName step w1) as [o w2].
    cbn [fst snd] in Htame, Hl, Ht.
    assert (Hl2 : limiter w2 = Some l1) by (rewrite Hl; reflexivity).
    assert (Hback : {| limit := limit l1; held := Nat.pred (held l1); period := period l1 |} = l)
      by (destruct l; reflexivity).
    destruct o as [a | msg | msg | ]; try contradiction Htame;
      rewrite (limiter_Finish_held w2 l1 Hl2), Hback; cbn [fst snd];
      (split; [exact I | split; [reflexivity|]]);
      exists body; cbn [trace add_event set_limiter]; rewrite Ht; (split; [reflexivity | exact Hb]).
  - unfold invokeWorkflow.
    unfold bind at 1. cbn [emit modify].
    set (w1 := add_event (EvEvaluate name id inputs) w).
    unfold bind, evaluate.
    destruct (EvaluateWorkflow name id inputs (heap w1) (ext w1)) as [[res h] x].
    destruct res as [err | workflow].
    + exists []. reflexivity.
    + destruct (range_steps_grows name id inputs (Steps workflow) (set_heap h (set_ext x w1)))
        as [later Hlater].
      exists later. rewrite Hlater. reflexivity.
Qed.

End Slots.

(** The world after [init], one runnable step. *)
Lemma step_invocation_holds_slot_witness :
  Invoker.limiter
    (snd (Invoker.invokeWorkflowStep "wf" 12 [] "second"
            (Scenario.V2.step "good" [Some 1] true) Scenario.V2.w0))
    = Some {| Invoker.limit := 1; Invoker.held := 0; Invoker.period := 1000 |}.
Proof.
  destruct (step_invocation_holds_slot (H := Scenario.V2.env) "wf" 12 [] "second"
              (Scenario.V2.step "good" [Some 1] true) Scenario.V2.w0
              {| Invoker.limit := 1; Invoker.held := 0; Invoker.period := 1000 |}
              eq_refl (Nat.lt_0_1)) as (_ & (_ & Hl & _) & _).
  exact Hl.
Defined.

(** C8, as the claim has it, fails: the workflow is evaluated with no
    slot held. *)
Lemma workflow_evaluated_without_slot :
  let r := Invoker.invokeWorkflow "wf" 12 [] Scenario.V2.w0 in
  Invoker.limiter Scenario.V2.w0
    = Some {| Invoker.limit := 1; Invoker.held := 0; Invoker.period := 1000 |} /\
  last (Invoker.trace (snd r)) = Some (Invoker.EvEvaluate "wf" 12 []) /\
  Trace.evaluates_in_slot 0 (rev (Invoker.trace (snd r))) = false.
Proof. vm_compute. repeat split; reflexivity. Qed.

(** ** Certificates *)

Section Certificates.
Import Eff.

Lemma V1_limiter_Wait_free `{InvokerV1.Env} (w : InvokerV1.World) (l : InvokerV1.Limiter) :
  InvokerV1.limiter w = Some l -> InvokerV1.held l < InvokerV1.limit l ->
  InvokerV1.limiter_Wait w =
    (Return tt,
     InvokerV1.add_event InvokerV1.EvWait
       (InvokerV1.set_limiter
          (Some {| InvokerV1.limit := InvokerV1.limit l; InvokerV1.held := S (InvokerV1.held l);
                   InvokerV1.period := InvokerV1.period l |}) w)).
Proof.
  intros Hl Hfree. unfold InvokerV1.limiter_Wait, bind, get, deref. rewrite Hl. cbn [ret].
  destruct (Nat.ltb_spec (InvokerV1.held l) (InvokerV1.limit l)) as [_ | Hge]; [reflexivity | lia].
Qed.

Lemma V2_invokeWorkflowStep_mute `{Invoker.Env} (name : string) (id : N)
    (inputs : Invoker.WorkflowCerts) (stepName : string) (step : Invoker.WorkflowStep) :
  Frame.keeps Frame.mute (Invoker.invokeWorkflowStep name id inputs stepName step).
Proof.
  assert (Hsame : forall w w' : Invoker.World,
             Invoker.trace w' = Invoker.trace w -> Frame.mute w w').
  { intros w w' Ht. exists []. split; [exact Ht | reflexivity]. }
  apply keeps_invokeWorkflowStep with (ok := fun e => negb (Trace.is_publish e)).
  - intros w. apply Hsame. reflexivity.
  - intros w1 w2 w3 (b1 & Ht1 & Hb1) (b2 & Ht2 & Hb2). exists (b2 ++ b1). split.
    + rewrite Ht2, Ht1, app_assoc. reflexivity.
    + rewrite forallb_app, Hb1, Hb2. reflexivity.
  - intros x w. apply Hsame. reflexivity.
  - intros h w. apply Hsame. reflexivity.
  - intros t w. apply Hsame. reflexivity.
  - intros p w. apply Hsame. reflexivity.
  - intros e w He. exists [e]. split; [reflexivity|]. cbn. rewrite He. reflexivity.
  - intros e He. unfold Frame.inside in He.
    destruct (Trace.is_publish e); [|reflexivity].
    rewrite andb_false_r in He. discriminate He.
  - intros l w. apply Hsame. reflexivity.
  - intros e He. destruct e; try discriminate He; reflexivity.
Qed.

(** C6, as the code has it.  In the first invoker, a step invocation
    that finds a slot free publishes one certificate on the topic
    [workflow.<name>.<id>.cert], after the step has run and before the
    slot is given back.  For a step of type nomad whose job decodes, the
    certificate is the failure template of the step when [Register]
    answers with an error, which the invocation returns under the
    message [Failed to run step], and the success template when
    [Register] answers with a response, and the invocation returns nil.
    For a step of any other type it is the failure template when
    [nix-build] fails and the success template when it succeeds, with
    the same results.  In the later invoker no step invocation publishes
    anything. *)
Theorem first_invoker_publishes_certificate (E1 : InvokerV1.Env) (E2 : Invoker.Env)
    (name : string) (id : N) :
  (forall (inputs stepName : string) (step : InvokerV1.workflowStep) (w : InvokerV1.World)
          (l : InvokerV1.Limiter) (js : string) (job : Nomad.Job)
          (r : Go.error + Nomad.JobRegisterResponse) (x : InvokerV1.Ext),
     InvokerV1.limiter w = Some l ->
     InvokerV1.held l < InvokerV1.limit l ->
     InvokerV1.Type_ step = Some "nomad" ->
     InvokerV1.Job step = Some js ->
     InvokerV1.json_Unmarshal_job js = inr job ->
     InvokerV1.nomad_Register job (InvokerV1.ext w) = (r, x) ->
     InvokerV1.invokeWorkflowStep name id inputs stepName step w =
       (Return match r with
               | inl e => Some (errors_WithMessage e "Failed to run step")
               | inr _ => None
               end,
        {| InvokerV1.ext := x;
           InvokerV1.limiter := Some l;
           InvokerV1.trace :=
             InvokerV1.EvFinish
             :: InvokerV1.EvPublish
                  ("workflow." +:+ name +:+ "." +:+ Go.FormatUint id +:+ ".cert")
                  "workflow.*.*.cert"
                  match r with
                  | inl _ => InvokerV1.Failure step
                  | inr _ => InvokerV1.Success step
                  end
             :: match r with
                | inl _ => []
                | inr response =>
                    if (0 <? String.length (Nomad.Warnings response))%nat
                    then [InvokerV1.EvLog (Nomad.Warnings response)] else []
                end
             ++ InvokerV1.EvRegister job :: InvokerV1.EvWait :: InvokerV1.trace w |})) /\
  (forall (inputs stepName : string) (step : InvokerV1.workflowStep) (w : InvokerV1.World)
          (l : InvokerV1.Limiter) (ty output : string) (err : option Go.error)
          (x : InvokerV1.Ext),
     InvokerV1.limiter w = Some l ->
     InvokerV1.held l < InvokerV1.limit l ->
     InvokerV1.Type_ step = Some ty ->
     ty <> "nomad" ->
     InvokerV1.run_nix_build name id stepName inputs (InvokerV1.ext w) = ((output, err), x) ->
     InvokerV1.invokeWorkflowStep name id inputs stepName step w =
       (Return match err with
               | Some e => Some (errors_WithMessage e "Failed to run step")
               | None => None
               end,
        {| InvokerV1.ext := x;
           InvokerV1.limiter := Some l;
           InvokerV1.trace :=
             InvokerV1.EvFinish
             :: InvokerV1.EvPublish
                  ("workflow." +:+ name +:+ "." +:+ Go.FormatUint id +:+ ".cert")
                  "workflow.*.*.cert"
                  match err with
                  | Some _ => InvokerV1.Failure step
                  | None => InvokerV1.Success step
                  end
             :: match err with
                | Some _ => [InvokerV1.EvLog output]
                | None => []
                end
             ++ InvokerV1.EvNixBuild name id stepName inputs
             :: InvokerV1.EvLog ("building " +:+ name +:+ "." +:+ stepName)
             :: InvokerV1.EvWait :: InvokerV1.trace w |})) /\
  (forall (inputs : Invoker.WorkflowCerts) (stepName : string) (step : Invoker.WorkflowStep)
          (w : Invoker.World),
     exists later,
       Invoker.trace (snd (Invoker.invokeWorkflowStep name id inputs stepName step w))
         = later ++ Invoker.trace w /\
       forallb (fun e => negb (Trace.is_publish e)) later = true).
Proof.
  split; [|split].
  - intros inputs stepName step w l js job r x Hl Hfree Hty Hjs Hdec Hreg.
    unfold InvokerV1.invokeWorkflowStep.
    rewrite (bind_Return _ _ _ _ _ (V1_limiter_Wait_free w l Hl Hfree)).
    unfold defer, InvokerV1.run_step, bind, deref. rewrite Hty. cbn [ret String.eqb Ascii.eqb Bool.eqb].
    rewrite Hjs. cbn [ret]. rewrite Hdec.
    cbn [InvokerV1.emit modify]. unfold InvokerV1.call.
    cbn [InvokerV1.ext InvokerV1.add_event InvokerV1.set_limiter]. rewrite Hreg.
    destruct l as [lim hld per]. cbn [InvokerV1.limit InvokerV1.held InvokerV1.period].
    destruct r as [e | response].
    + reflexivity.
    + destruct (0 <? String.length (Nomad.Warnings response))%nat; reflexivity.
  - intros inputs stepName step w l ty output err x Hl Hfree Hty Hother Hbuild.
    unfold InvokerV1.invokeWorkflowStep.
    rewrite (bind_Return _ _ _ _ _ (V1_limiter_Wait_free w l Hl Hfree)).
    unfold defer, InvokerV1.run_step, bind, deref. rewrite Hty. cbn [ret].
    destruct (String.eqb_spec ty "nomad") as [Hnomad | _]; [contradiction|].
    cbn [InvokerV1.emit modify]. unfold InvokerV1.call.
    cbn [InvokerV1.ext InvokerV1.add_event InvokerV1.set_limiter]. rewrite Hbuild.
    destruct l as [lim hld per]. cbn [InvokerV1.limit InvokerV1.held InvokerV1.period].
    destruct err as [e|]; reflexivity.
  - intros inputs stepName step w.
    exact (V2_invokeWorkflowStep_mute name id inputs stepName step w).
Qed.

End Certificates.

(** A step of type nomad that registers, one that Nomad refuses, and a
    step that is built. *)
Lemma first_invoker_publishes_certificate_witness :
  InvokerV1.invokeWorkflowStep "wf" 12 "{}" "second" (Scenario.V1.step "nomad" "good")
    Scenario.V1.w0
  = (Eff.Return None,
     {| InvokerV1.ext := InvokerV1.ext Scenario.V1.w0;
        InvokerV1.limiter := InvokerV1.limiter Scenario.V1.w0;
        InvokerV1.trace :=
          [ InvokerV1.EvFinish;
            InvokerV1.EvPublish "workflow.wf.12.cert" "workflow.*.*.cert" [("ok", JBool true)];
            InvokerV1.EvRegister (Scenario.job "good" []);
            InvokerV1.EvWait ] |}) /\
  InvokerV1.invokeWorkflowStep "wf" 12 "{}" "first" (Scenario.V1.step "nomad" "bad")
    Scenario.V1.w0
  = (Eff.Return (Some "Failed to run step: job refused"),
     {| InvokerV1.ext := InvokerV1.ext Scenario.V1.w0;
        InvokerV1.limiter := InvokerV1.limiter Scenario.V1.w0;
        InvokerV1.trace :=
          [ InvokerV1.EvFinish;
            InvokerV1.EvPublish "workflow.wf.12.cert" "workflow.*.*.cert" [("ok", JBool false)];
            InvokerV1.EvRegister (Scenario.job "bad" []);
            InvokerV1.EvWait ] |}) /\
  InvokerV1.invokeWorkflowStep "wf" 12 "{}" "third" (Scenario.V1.step "nix" "drv")
    Scenario.V1.w0
  = (Eff.Return None,
     {| InvokerV1.ext := InvokerV1.ext Scenario.V1.w0;
        InvokerV1.limiter := InvokerV1.limiter Scenario.V1.w0;
        InvokerV1.trace :=
          [ InvokerV1.EvFinish;
            InvokerV1.EvPublish "workflow.wf.12.cert" "workflow.*.*.cert" [("ok", JBool true)];
            InvokerV1.EvNixBuild "wf" 12 "third" "{}";
            InvokerV1.EvLog "building wf.third";
            InvokerV1.EvWait ] |}).
Proof.
  destruct (first_invoker_publishes_certificate Scenario.V1.env Scenario.V2.env "wf" 12)
    as (Hnomad & Hbuild & _).
  split; [|split].
  - apply (Hnomad "{}" "second" (Scenario.V1.step "nomad" "good") Scenario.V1.w0
             {| InvokerV1.limit := 1; InvokerV1.held := 0; InvokerV1.period := 1000 |}
             "good" (Scenario.job "good" []) (inr {| Nomad.Warnings := "" |}) tt);
      first [reflexivity | exact Nat.lt_0_1].
  - apply (Hnomad "{}" "first" (Scenario.V1.step "nomad" "bad") Scenario.V1.w0
             {| InvokerV1.limit := 1; InvokerV1.held := 0; InvokerV1.period := 1000 |}
             "bad" (Scenario.job "bad" []) (inl "job refused") tt);
      first [reflexivity | exact Nat.lt_0_1].
  - apply (Hbuild "{}" "third" (Scenario.V1.step "nix" "drv") Scenario.V1.w0
             {| InvokerV1.limit := 1; InvokerV1.held := 0; InvokerV1.period := 1000 |}
             "nix" "built" None tt);
      first [reflexivity | exact Nat.lt_0_1 | discriminate].
Defined.

(** C6, as the claim has it, fails for the later invoker: a runnable
    step is inserted and registered, and nothing is published. *)
Lemma later_invoker_publishes_nothing :
  let r := Invoker.invokeWorkflowStep "wf" 12 [] "second"
             (Scenario.V2.step "good" [Some 1] true) Scenario.V2.w0 in
  fst r = Eff.Return None /\
  List.filter Trace.is_publish (Invoker.trace (snd r)) = [] /\
  List.map (fun e => match e with
                     | Invoker.EvRegister _ => "register"
                     | Invoker.EvInsert _ => "insert"
                     | Invoker.EvLog _ => "log"
                     | Invoker.EvWait => "wait"
                     | Invoker.EvFinish => "finish"
                     | Invoker.EvSelect _ _ => "select"
                     | Invoker.EvBegin => "begin"
                     | Invoker.EvCommit => "commit"
                     | _ => "other"
                     end) (rev (Invoker.trace (snd r)))
    = ["wait"; "log"; "select"; "begin"; "insert"; "log"; "register"; "commit"; "finish"].
Proof. vm_compute. repeat split; reflexivity. Qed.

(** ** The transaction of a runnable step *)

Section RunnableStep.
Import Eff Invoker Frame.
Context `{Env}.

Lemma same_table_trans (w1 w2 w3 : World) :
  same_table w1 w2 -> same_table w2 w3 -> same_table w1 w3.
Proof. unfold same_table. congruence. Qed.

Lemma limiter_Wait_table (w : World) :
  table (snd (limiter_Wait w)) = table w /\
  (forall u, fst (limiter_Wait w) = Return u -> exists l1, limiter (snd (limiter_Wait w)) = Some l1).
Proof.
  unfold limiter_Wait, bind, get, deref.
  destruct (limiter w) as [l|]; cbn [ret panic].
  - destruct (Nat.ltb (held l) (limit l)); cbn [modify emit block fst snd].
    + split; [reflexivity|]. intros _ _. eexists. reflexivity.
    + split; [reflexivity|]. intros u Hu. discriminate Hu.
  - split; [reflexivity|]. intros u Hu. discriminate Hu.
Qed.

Lemma select_instance_same_table (stepName : string) (id : N) :
  keeps same_table (select_instance stepName id).
Proof.
  apply keeps_select_instance with (ok := fun _ => true).
  - intros w. reflexivity.
  - exact same_table_trans.
  - intros x w. reflexivity.
  - intros e w _. reflexivity.
  - reflexivity.
Qed.

(** The transaction leaves the table as it was unless it returns nil,
    and then the table has the one row more. *)
Lemma RunInTx_register_tx (instance : StepInstance) (job : Nomad.Job) (w : World) :
  let r := RunInTx (register_tx instance job) w in
  (fst r = Return None /\ table (snd r) = table w ++ [instance]) \/
  (fst r <> Return None /\ table (snd r) = table w).
Proof.
  cbv zeta. unfold RunInTx.
  destruct (driver_fault QBegin (ext w)) as [[e|] x1].
  { right. split; [discriminate | reflexivity]. }
  unfold register_tx, insertStepInstance, bind, emit, modify, call, get, ret.
  cbn [ext add_event set_pending set_ext].
  destruct (driver_fault QInsert x1) as [[e|] x2].
  { right. split; [discriminate | reflexivity]. }
  cbn [ext add_event set_pending set_ext pending app].
  destruct (nomad_Register job x2) as [[e | response] x3].
  { right. split; [discriminate | reflexivity]. }
  destruct (0 <? String.length (Nomad.Warnings response))%nat;
    cbn [ext add_event set_pending set_ext];
    destruct (driver_fault QCommit x3) as [[e|] x4];
    first [ right; split; [discriminate | reflexivity]
          | left; split; reflexivity ].
Qed.

Lemma nil_or_same_table_bind {A : Type} (m : M World A) (k : A -> M World (option Go.error))
    (w0 w : World) :
  table w = table w0 ->
  keeps same_table m ->
  (forall a w1, table w1 = table w0 -> nil_or_same_table w0 (k a w1)) ->
  nil_or_same_table w0 (bind m k w).
Proof.
  intros Hw Hm Hk. unfold bind. specialize (Hm w). unfold same_table in Hm.
  destruct (m w) as [[a | msg | msg | ] w1]; cbn [snd] in Hm.
  - apply Hk. congruence.
  - intros _. cbn [snd]. congruence.
  - intros _. cbn [snd]. congruence.
  - intros _. cbn [snd]. congruence.
Qed.

Lemma step_body_runnable (name : string) (id : N) (inputs : WorkflowCerts) (stepName : string)
    (step : WorkflowStep) (w0 w : World) :
  IsRunnable step = true ->
  table w = table w0 ->
  nil_or_same_table w0 (step_body name id inputs stepName step w).
Proof.
  intros Hrun Hw. unfold step_body.
  apply nil_or_same_table_bind; [exact Hw | intros w'; reflexivity | intros _ w1 Hw1].
  apply nil_or_same_table_bind; [exact Hw1 | apply select_instance_same_table | intros sel w2 Hw2].
  destruct sel as [e | found].
  { intros _. exact Hw2. }
  rewrite Hrun.
  apply nil_or_same_table_bind; [exact Hw2 | | intros logged w3 Hw3].
  { intros w'. unfold add_logging. destruct (addLogging (Job step) (heap w')). reflexivity. }
  destruct logged as [e|].
  { intros _. exact Hw3. }
  apply nil_or_same_table_bind; [exact Hw3 | | intros instance w4 Hw4].
  { intros w'. destruct found as [i|]; [reflexivity|].
    unfold bind, call. destruct (uuid_New (ext w')). reflexivity. }
  intros Hnot.
  destruct (RunInTx_register_tx instance
              (Nomad.with_ID (Job step) (Some (uuid_String (ID instance)))) w4)
    as [[Hnil _] | [_ Hsame]].
  - contradiction.
  - rewrite Hsame. exact Hw4.
Qed.

(** A runnable step that finds a slot free, whose lookup goes through
    and whose job takes the logging sidecar, comes to its transaction
    with the instance the lookup has left it, and then gives back the
    slot. *)
Lemma runnable_step_opens_tx (name : string) (id : N) (inputs : WorkflowCerts)
    (stepName : string) (step : WorkflowStep) (w : World) (l : Limiter)
    (f : option Go.error) (x0 x1 : Ext) (h1 : Heap) (instance : StepInstance) :
  IsRunnable step = true ->
  limiter w = Some l ->
  held l < limit l ->
  driver_fault QSelect (ext w) = (f, x0) ->
  (forall e, f = Some e -> e = sql_ErrNoRows) ->
  addLogging (Job step) (heap w) = (Return None, h1) ->
  Observe.instance_for id stepName inputs (Observe.found_row stepName id f (table w)) x0
    = (instance, x1) ->
  invokeWorkflowStep name id inputs stepName step w =
    defer limiter_Finish
      (RunInTx (register_tx instance
                  (Nomad.with_ID (Job step) (Some (uuid_String (ID instance))))))
      {| ext := x1; heap := h1; table := table w; pending := pending w;
         limiter := Some {| limit := limit l; held := S (held l); period := period l |};
         trace := EvSelect stepName id :: EvLog ("Checking runnability of " +:+ stepName)
                  :: EvWait :: trace w |}.
Proof.
  intros Hrun Hl Hfree Hsel Hf Hlog Hinst.
  unfold invokeWorkflowStep.
  rewrite (bind_Return _ _ _ _ _ (limiter_Wait_free w l Hl Hfree)).
  unfold defer, step_body. unfold bind at 1. cbn [emit modify].
  unfold bind at 1. unfold select_instance, bind, emit, modify, call, get.
  cbn [ext add_event set_limiter set_ext]. rewrite Hsel.
  cbn [table add_event set_limiter set_ext].
  unfold Observe.found_row, Observe.instance_for in Hinst.
  destruct f as [e|].
  - rewrite (Hf e eq_refl). rewrite String.eqb_refl. cbn [ret]. rewrite Hrun.
    unfold add_logging. cbn [heap add_event set_limiter set_ext]. rewrite Hlog.
    cbn [ext set_heap add_event set_limiter set_ext].
    destruct (uuid_New x0) as [u x]. injection Hinst as <- <-. reflexivity.
  - destruct (List.find (matches stepName id) (table w)) as [i|].
    + cbn [ret]. rewrite Hrun.
      unfold add_logging. cbn [heap add_event set_limiter set_ext]. rewrite Hlog.
      injection Hinst as <- <-. reflexivity.
    + rewrite String.eqb_refl. cbn [ret]. rewrite Hrun.
      unfold add_logging. cbn [heap add_event set_limiter set_ext]. rewrite Hlog.
      cbn [ext set_heap add_event set_limiter set_ext].
      destruct (uuid_New x0) as [u x]. injection Hinst as <- <-. reflexivity.
Qed.

(** C1.  A runnable step inserts the row of its step instance and
    registers its job in one transaction.  Take a step invocation that
    finds a slot free, whose lookup goes through and whose job takes the
    logging sidecar; its row is the row the lookup found, or else a new
    one.  When the transaction does not begin, nothing is inserted or
    registered.  When the insert fails, [Register] is not called and
    the transaction is rolled back.  When the insert succeeds and
    [Register] answers with an error, the transaction is rolled back,
    the invocation returns that error under the message [Failed to run
    step], and the table holds the rows it held before.  When [Register]
    answers with a response, the transaction is committed; the
    invocation returns what the commit answers, and the table has the
    row as one more when the commit succeeds and is as before when it
    fails.  Whatever the world outside answers, an invocation of a
    runnable step that ends otherwise than by returning nil leaves the
    table as it was. *)
Theorem register_failure_rolls_back (name : string) (id : N) (inputs : WorkflowCerts)
    (stepName : string) (step : WorkflowStep) (Hrunnable : IsRunnable step = true) :
  (forall (w : World) (l : Limiter) (f : option Go.error) (x0 x1 : Ext) (h1 : Heap)
          (instance : StepInstance),
     limiter w = Some l ->
     held l < limit l ->
     driver_fault QSelect (ext w) = (f, x0) ->
     (forall e, f = Some e -> e = sql_ErrNoRows) ->
     addLogging (Job step) (heap w) = (Return None, h1) ->
     Observe.instance_for id stepName inputs (Observe.found_row stepName id f (table w)) x0
       = (instance, x1) ->
     let job := Nomad.with_ID (Job step) (Some (uuid_String (ID instance))) in
     let before :=
       EvSelect stepName id :: EvLog ("Checking runnability of " +:+ stepName)
       :: EvWait :: trace w in
     (forall (e : Go.error) (x2 : Ext),
        driver_fault QBegin x1 = (Some e, x2) ->
        invokeWorkflowStep name id inputs stepName step w =
          (Return (Some e),
           {| ext := x2; heap := h1; table := table w; pending := pending w;
              limiter := Some l; trace := EvFinish :: before |})) /\
     (forall x2 : Ext,
        driver_fault QBegin x1 = (None, x2) ->
        (forall (e : Go.error) (x3 : Ext),
           driver_fault QInsert x2 = (Some e, x3) ->
           invokeWorkflowStep name id inputs stepName step w =
             (Return (Some e),
              {| ext := x3; heap := h1; table := table w; pending := []; limiter := Some l;
                 trace := EvFinish :: EvRollback
                          :: EvLog ("Couldn't insert step instance: " +:+ e) :: EvLog e
                          :: EvInsert instance :: EvBegin :: before |})) /\
        (forall x3 : Ext,
           driver_fault QInsert x2 = (None, x3) ->
           let inserted :=
             EvLog "Created step instance" :: EvInsert instance :: EvBegin :: before in
           (forall (e : Go.error) (x4 : Ext),
              nomad_Register job x3 = (inl e, x4) ->
              invokeWorkflowStep name id inputs stepName step w =
                (Return (Some (errors_WithMessage e "Failed to run step")),
                 {| ext := x4; heap := h1; table := table w; pending := [];
                    limiter := Some l;
                    trace := EvFinish :: EvRollback :: EvRegister job :: inserted |})) /\
           (forall (response : Nomad.JobRegisterResponse) (x4 x5 : Ext) (c : option Go.error),
              nomad_Register job x3 = (inr response, x4) ->
              driver_fault QCommit x4 = (c, x5) ->
              invokeWorkflowStep name id inputs stepName step w =
                (Return c,
                 {| ext := x5; heap := h1;
                    table := match c with
                             | None => table w ++ [instance]
                             | Some _ => table w
                             end;
                    pending := []; limiter := Some l;
                    trace := EvFinish
                             :: match c with None => EvCommit | Some _ => EvRollback end
                             :: (if (0 <? String.length (Nomad.Warnings response))%nat
                                 then [EvLog (Nomad.Warnings response)] else [])
                             ++ EvRegister job :: inserted |}))))) /\
  (forall w : World,
     let r := invokeWorkflowStep name id inputs stepName step w in
     fst r <> Return None -> table (snd r) = table w).
Proof.
  split.
  - intros w l f x0 x1 h1 instance Hl Hfree Hsel Hf Hlog Hinst.
    cbv zeta.
    rewrite (runnable_step_opens_tx name id inputs stepName step w l f x0 x1 h1 instance
               Hrunnable Hl Hfree Hsel Hf Hlog Hinst).
    destruct l as [lim hld per]. cbn [limit held period].
    split.
    { intros e x2 Hbegin. unfold defer, RunInTx. cbn [ext]. rewrite Hbegin. reflexivity. }
    intros x2 Hbegin. split.
    { intros e x3 Hinsert.
      unfold defer, RunInTx. cbn [ext]. rewrite Hbegin.
      unfold register_tx, insertStepInstance, bind, emit, modify, call, get, ret.
      cbn [ext add_event set_pending set_ext]. rewrite Hinsert. reflexivity. }
    intros x3 Hinsert. split.
    + intros e x4 Hreg.
      unfold defer, RunInTx. cbn [ext]. rewrite Hbegin.
      unfold register_tx, insertStepInstance, bind, emit, modify, call, get, ret.
      cbn [ext add_event set_pending set_ext]. rewrite Hinsert.
      cbn [ext add_event set_pending set_ext pending app]. rewrite Hreg.
      reflexivity.
    + intros response x4 x5 c Hreg Hcommit.
      unfold defer, RunInTx. cbn [ext]. rewrite Hbegin.
      unfold register_tx, insertStepInstance, bind, emit, modify, call, get, ret.
      cbn [ext add_event set_pending set_ext]. rewrite Hinsert.
      cbn [ext add_event set_pending set_ext pending app]. rewrite Hreg.
      destruct (0 <? String.length (Nomad.Warnings response))%nat;
        cbn [ext add_event set_pending set_ext]; rewrite Hcommit;
        destruct c as [e|]; reflexivity.
  - intros w. cbv zeta. unfold invokeWorkflowStep, bind.
    destruct (limiter_Wait_table w) as [Htab Hsome].
    destruct (limiter_Wait w) as [[[] | msg | msg | ] w1]; cbn [fst snd] in *;
      try (intros _; exact Htab).
    destruct (Hsome tt eq_refl) as (l1 & Hl1).
    pose proof (step_body_runnable name id inputs stepName step w w1 Hrunnable Htab) as Hbody.
    pose proof (step_body_quiet name id inputs stepName step w1) as [Hlq _].
    unfold defer. unfold nil_or_same_table in Hbody.
    destruct (step_body name id inputs stepName step w1) as [o w2].
    cbn [fst snd] in Hbody, Hlq.
    assert (Hl2 : limiter w2 = Some l1) by congruence.
    rewrite (limiter_Finish_held w2 l1 Hl2).
    destruct o as [[e|] | msg | msg | ]; cbn [fst snd add_event set_limiter table]; intros Hnot.
    + apply Hbody. discriminate.
    + contradiction.
    + apply Hbody. discriminate.
    + apply Hbody. discriminate.
    + apply Hbody. discriminate.
Qed.

End RunnableStep.

(** A runnable step without a row whose job Nomad refuses: the row is
    inserted under a new id, the job is sent under that id, the
    transaction is rolled back, the invocation returns the error of
    [Register] and the table stays empty. *)
Lemma register_failure_rolls_back_witness :
  let step := Scenario.V2.step "bad" [Some 0] true in
  let row := {| Invoker.ID := 0%N; Invoker.WorkflowInstanceId := 12%N;
                Invoker.StepName := "first"; Invoker.Certs := [];
                Invoker.FinishedAt := None |} in
  let r := Invoker.invokeWorkflowStep "wf" 12 [] "first" step Scenario.V2.w0 in
  fst r = Eff.Return (Some "Failed to run step: job refused") /\
  Invoker.table (snd r) = [] /\
  Invoker.pending (snd r) = [] /\
  Invoker.trace (snd r) =
    [ Invoker.EvFinish; Invoker.EvRollback;
      Invoker.EvRegister (Nomad.with_ID (Invoker.Job step) (Some "0"));
      Invoker.EvLog "Created step instance"; Invoker.EvInsert row; Invoker.EvBegin;
      Invoker.EvSelect "first" 12; Invoker.EvLog "Checking runnability of first";
      Invoker.EvWait ].
Proof.
  cbv zeta.
  destruct (register_failure_rolls_back (H := Scenario.V2.env) "wf" 12 [] "first"
              (Scenario.V2.step "bad" [Some 0] true) eq_refl) as [Htx _].
  destruct (Htx Scenario.V2.w0
              {| Invoker.limit := 1; Invoker.held := 0; Invoker.period := 1000 |}
              None 0 1
              (snd (Invoker.addLogging (H := Scenario.V2.env)
                      (Invoker.Job (Scenario.V2.step "bad" [Some 0] true)) Scenario.V2.h0))
              {| Invoker.ID := 0%N; Invoker.WorkflowInstanceId := 12%N;
                 Invoker.StepName := "first"; Invoker.Certs := [];
                 Invoker.FinishedAt := None |}
              eq_refl Nat.lt_0_1 eq_refl) as [_ Hbegun];
    try reflexivity.
  - intros e He. discriminate He.
  - destruct (Hbegun 1 eq_refl) as [_ Hinserted].
    destruct (Hinserted 1 eq_refl) as [Hfail _].
    rewrite (Hfail "job refused" 1 eq_refl). repeat split; reflexivity.
Defined.

(** ** The logging sidecar *)

Section LoggingSidecar.
Import Eff Invoker.
Context `{Env}.

(** The loop over distinct pointers to allocated groups comes to its
    end, has appended the task to each of them and has written nothing
    else. *)
Lemma range_TaskGroups_appends (cfg : string) (tgs : list (option Nomad.loc)) :
  forall h : gmap Nomad.loc Nomad.TaskGroup,
    NoDup tgs ->
    (forall p, p ∈ tgs -> exists l tg, p = Some l /\ h !! l = Some tg) ->
    exists h',
      range_TaskGroups cfg tgs h = (true, h') /\
      (forall l tg, Some l ∈ tgs -> h !! l = Some tg ->
         h' !! l = Some (Nomad.with_Tasks tg (Nomad.Tasks tg ++ [promtail_task cfg]))) /\
      (forall l, Some l ∉ tgs -> h' !! l = h !! l).
Proof.
  induction tgs as [|p rest IH]; intros h Hnodup Halloc.
  - exists h. split; [reflexivity|]. split.
    + intros l tg Hin. inversion Hin.
    + intros l _. reflexivity.
  - apply NoDup_cons in Hnodup as [Hfresh Hnodup].
    destruct (Halloc p) as (l & tg & -> & Hl); [left|].
    cbn [range_TaskGroups]. rewrite Hl.
    set (tg' := Nomad.with_Tasks tg (Nomad.Tasks tg ++ [promtail_task cfg])).
    destruct (IH (<[l := tg']> h) Hnodup) as (h' & Hrun & Hin & Hout).
    { intros q Hq. destruct (Halloc q) as (l' & tg'' & -> & Hl'); [right; exact Hq|].
      exists l', tg''. split; [reflexivity|].
      rewrite lookup_insert_ne; [exact Hl'|]. intros ->. contradiction. }
    exists h'. split; [exact Hrun|]. split.
    + intros l' tg'' Hmem Hl'. apply elem_of_cons in Hmem as [Heq | Hmem].
      * injection Heq as ->. rewrite Hout by exact Hfresh.
        rewrite lookup_insert_eq. rewrite Hl in Hl'. injection Hl' as <-. reflexivity.
      * apply Hin; [exact Hmem|]. rewrite lookup_insert_ne; [exact Hl'|].
        intros ->. contradiction.
    + intros l' Hnot. rewrite Hout.
      * apply lookup_insert_ne. intros ->. apply Hnot. left.
      * intros Hmem. apply Hnot. right. exact Hmem.
Qed.

(** C9.  When the configuration marshals and the task groups of the job
    are distinct allocated groups, [addLogging] returns nil and every
    group of the job has its tasks as before followed by one more, the
    task [promtail]: hook prestart, sidecar, 100 CPU units, 100 MB, and
    the marshalled configuration as the template [local/config.yaml].
    No other group is written.  The configuration marshalled scrapes
    [/alloc/logs/*.std*.[0-9]*], labels it with the ten [nomad_]
    variables of the allocation and sends it to the one client URL. *)
Theorem addLogging_appends_promtail (job : Nomad.Job) (h : gmap Nomad.loc Nomad.TaskGroup)
    (cfg : string)
    (Hcfg : yaml_Marshal promtail_config = inr cfg)
    (Hdistinct : NoDup (Nomad.TaskGroups job))
    (Halloc : forall p, p ∈ Nomad.TaskGroups job -> exists l tg, p = Some l /\ h !! l = Some tg) :
  exists h',
    addLogging job h = (Return None, h') /\
    (forall l tg, Some l ∈ Nomad.TaskGroups job -> h !! l = Some tg ->
       h' !! l = Some {| Nomad.GroupName := Nomad.GroupName tg;
                         Nomad.Tasks := Nomad.Tasks tg ++ [promtail_task cfg] |}) /\
    (forall l, Some l ∉ Nomad.TaskGroups job -> h' !! l = h !! l) /\
    Nomad.Name (promtail_task cfg) = "promtail" /\
    Nomad.Lifecycle (promtail_task cfg)
      = Some {| Nomad.Hook := "prestart"; Nomad.Sidecar := true |} /\
    Nomad.TaskResources (promtail_task cfg)
      = Some {| Nomad.CPU := Some 100%Z; Nomad.MemoryMB := Some 100%Z |} /\
    Nomad.Templates (promtail_task cfg)
      = [ {| Nomad.DestPath := Some "local/config.yaml"; Nomad.EmbeddedTmpl := Some cfg |} ] /\
    json_get [inl "scrape_configs"; inr 0; inl "static_configs"; inr 0; inl "labels";
              inl "__path__"] promtail_config
      = Some (JString "/alloc/logs/*.std*.[0-9]*") /\
    Forall (fun lv =>
              json_get [inl "scrape_configs"; inr 0; inl "static_configs"; inr 0; inl "labels";
                        inl (fst lv)] promtail_config
              = Some (JString ("{{ env " +:+ Go.dquote +:+ snd lv +:+ Go.dquote +:+ " }}")))
           nomad_env_labels /\
    List.map fst promtail_labels = List.map fst nomad_env_labels ++ ["__path__"] /\
    json_get [inl "client"; inl "url"] promtail_config
      = Some (JString "http://172.16.0.20:3100/loki/api/v1/path").
Proof.
  destruct (range_TaskGroups_appends cfg (Nomad.TaskGroups job) h Hdistinct Halloc)
    as (h' & Hrun & Hin & Hout).
  exists h'. split.
  { unfold addLogging. rewrite Hcfg, Hrun. reflexivity. }
  split; [exact Hin|]. split; [exact Hout|].
  repeat (split; [reflexivity|]).
  split.
  { unfold nomad_env_labels. repeat (constructor; [reflexivity|]). constructor. }
  split; reflexivity.
Qed.

End LoggingSidecar.

(** A job of two groups of one task each. *)
Lemma addLogging_appends_promtail_witness :
  exists h',
    Invoker.addLogging (H := Scenario.V2.env) (Scenario.job "good" [Some 0; Some 1])
      Scenario.V2.h0 = (Eff.Return None, h') /\
    h' !! 0 = Some {| Nomad.GroupName := Some "g";
                      Nomad.Tasks := Nomad.Tasks Scenario.V2.group
                                     ++ [Invoker.promtail_task "server: {}"] |} /\
    h' !! 1 = Some {| Nomad.GroupName := Some "g";
                      Nomad.Tasks := Nomad.Tasks Scenario.V2.group
                                     ++ [Invoker.promtail_task "server: {}"] |}.
Proof.
  destruct (addLogging_appends_promtail (H := Scenario.V2.env)
              (Scenario.job "good" [Some 0; Some 1]) Scenario.V2.h0 "server: {}" eq_refl)
    as (h' & Hrun & Hin & _).
  - apply NoDup_cons. split.
    + intros Hmem. apply list_elem_of_singleton in Hmem. discriminate Hmem.
    + apply NoDup_singleton.
  - intros p Hp. apply elem_of_cons in Hp as [-> | Hp].
    + exists 0, Scenario.V2.group. split; reflexivity.
    + apply list_elem_of_singleton in Hp as ->.
      exists 1, Scenario.V2.group. split; reflexivity.
  - exists h'. split; [exact Hrun|]. split.
    + apply (Hin 0 Scenario.V2.group); [left | reflexivity].
    + apply (Hin 1 Scenario.V2.group); [right; left | reflexivity].
Defined.

(** ** The allocation handler of the event consumer *)

Section AllocationHandler.
Import Eff NomadEventConsumer.
Context `{Env}.

(** Quotient and remainder by [time.Second] put the nanoseconds back
    together. *)
Lemma modify_time_ModifyTime (a : Allocation) : modify_time a = ModifyTime a.
Proof.
  unfold modify_time, time_Unix.
  pose proof (Z.quot_rem' (ModifyTime a) time_Second) as Hqr. lia.
Qed.

Lemma select_fact_cases (status : string) (r : Domain.Run) :
  (status = "complete" /\ select_fact status r = Some (Domain.Success r)) \/
  (status = "failed" /\ select_fact status r = Some (Domain.Failure r)) \/
  (status <> "complete" /\ status <> "failed" /\ select_fact status r = None).
Proof.
  unfold select_fact.
  destruct (String.eqb_spec status "complete") as [-> | Hc]; [left; split; reflexivity|].
  destruct (String.eqb_spec status "failed") as [-> | Hf].
  - right; left; split; reflexivity.
  - right; right; repeat split; assumption.
Qed.

(** The handler at a terminal event of a run it finds, up to the choice
    of the fact. *)
Lemma handler_known_run (a : Allocation) (w : World) (id : Domain.UUID) (r : Domain.Run) (x1 : Ext) :
  ClientTerminalStatus a = true ->
  uuid_Parse (JobID a) = inr id ->
  db_fault SGetRun (ext w) = (None, x1) ->
  run (db w) !! id = Some r ->
  handleNomadAllocationEvent (Some a) w =
    match select_fact (ClientStatus a) r with
    | None => (Return None, set_ext x1 w)
    | Some fact =>
        let r' := Domain.with_FinishedAt r (Some (modify_time a)) in
        bind (RunService_Update r')
          (fun u =>
             match u with
             | Some err =>
                 ret (Some (errors_WithMessage err
                              ("Failed to update Run with ID " +:+ uuid_String (Domain.NomadJobID r'))))
             | None =>
                 match json_Marshal (run_fact id fact) with
                 | inl err => ret (Some (errors_WithMessage err "Failed to marshal Fact"))
                 | inr message =>
                     bind (Publish FactCreateStreamName message)
                       (fun p =>
                          match p with
                          | Some err => ret (Some (errors_WithMessage err "Could not publish Fact"))
                          | None =>
                              bind (JobsDeregister (uuid_String (Domain.NomadJobID r')))
                                (fun d =>
                                   match d with
                                   | Some err =>
                                       ret (Some (errors_WithMessage err
                                                    ("Failed to deregister Nomad job with ID " +:+
                                                     uuid_String (Domain.NomadJobID r'))))
                                   | None => ret None
                                   end)
                          end)
                 end
             end) (set_ext x1 w)
    end.
Proof.
  intros Hterm Hparse Hget Hrow.
  unfold handleNomadAllocationEvent. unfold bind at 1. cbn [deref ret].
  rewrite Hterm. cbn [negb]. rewrite Hparse.
  unfold bind at 1. unfold GetByNomadJobId, bind, call, get, ret. rewrite Hget.
  cbn [db set_ext]. rewrite Hrow.
  destruct (select_fact (ClientStatus a) r); reflexivity.
Qed.

(** What the handler does once a fact is chosen: the update of the run,
    then at most one call of [Publish]. *)
Lemma handler_after_fact (r' : Domain.Run) (id : Domain.UUID) (fact : JSON) (w : World) :
  let res :=
    bind (RunService_Update r')
      (fun u =>
         match u with
         | Some err =>
             ret (Some (errors_WithMessage err
                          ("Failed to update Run with ID " +:+ uuid_String (Domain.NomadJobID r'))))
         | None =>
             match json_Marshal (run_fact id fact) with
             | inl err => ret (Some (errors_WithMessage err "Failed to marshal Fact"))
             | inr message =>
                 bind (Publish FactCreateStreamName message)
                   (fun p =>
                      match p with
                      | Some err => ret (Some (errors_WithMessage err "Could not publish Fact"))
                      | None =>
                          bind (JobsDeregister (uuid_String (Domain.NomadJobID r')))
                            (fun d =>
                               match d with
                               | Some err =>
                                   ret (Some (errors_WithMessage err
                                                ("Failed to deregister Nomad job with ID " +:+
                                                 uuid_String (Domain.NomadJobID r'))))
                               | None => ret None
                               end)
                      end)
             end
         end) w in
  exists body,
    trace (snd res) = body ++ trace w /\
    (forall x2, db_fault SUpdateRun (ext w) = (None, x2) ->
       run (db (snd res)) =
         match run (db w) !! Domain.NomadJobID r' with
         | Some _ => <[Domain.NomadJobID r' := r']> (run (db w))
         | None => run (db w)
         end) /\
    (forall x2 message,
       db_fault SUpdateRun (ext w) = (None, x2) ->
       json_Marshal (run_fact id fact) = inr message ->
       TraceConsumer.publish_calls body = [(FactCreateStreamName, message)]) /\
    length (TraceConsumer.publish_calls body) <= 1.
Proof.
  cbv zeta.
  unfold RunService_Update, Publish, JobsDeregister, bind, emit, modify, call, get, ret.
  cbn [ext add_action set_ext].
  destruct (db_fault SUpdateRun (ext w)) as [[e|] x2].
  { eexists [_]. split; [reflexivity|]. cbn.
    repeat split; try lia; intros; discriminate. }
  cbn [db set_ext add_action].
  destruct (run (db w) !! Domain.NomadJobID r') as [old|];
    cbn [db set_db set_ext add_action ext run];
    (destruct (json_Marshal (run_fact id fact)) as [e | message];
     [ eexists [_]; (split; [reflexivity|]); cbn;
       repeat split; try reflexivity; try lia; intros; discriminate
     | cbn [ext set_db set_ext add_action];
       destruct (mq_Publish FactCreateStreamName message x2) as [[e|] x3];
       [ eexists [_; _]; (split; [reflexivity|]); cbn;
         repeat split; try reflexivity; try lia;
         intros ? ? _ Hm; injection Hm as <-; reflexivity
       | cbn [ext set_db set_ext add_action add_published];
         destruct (nomad_JobsDeregister (uuid_String (Domain.NomadJobID r')) false x3)
           as [[e|] x4];
         eexists [_; _; _]; (split; [reflexivity|]); cbn;
         repeat split; try reflexivity; try lia;
         intros ? ? _ Hm; injection Hm as <-; reflexivity ] ]).
Qed.

(** C2, as the code has it.  At a terminal allocation event of a run the
    consumer finds under its job id: when the status is complete or
    failed and the update of the run goes through, the handler has set
    [finished_at] of the run to the modify time of the allocation; when
    the status is any other terminal one (lost), the handler returns nil
    and has written and published nothing, so [finished_at] is as it
    was.  In every case the handler publishes at most one fact. *)
Theorem handler_closes_complete_and_failed_runs (a : Allocation) (w : World) (id : Domain.UUID)
    (r : Domain.Run) (x1 : Ext)
    (Hterm : ClientTerminalStatus a = true)
    (Hparse : uuid_Parse (JobID a) = inr id)
    (Hget : db_fault SGetRun (ext w) = (None, x1))
    (Hrow : run (db w) !! id = Some r)
    (Hkey : Domain.NomadJobID r = id) :
  let res := handleNomadAllocationEvent (Some a) w in
  (ClientStatus a = "complete" \/ ClientStatus a = "failed" ->
   forall x2, db_fault SUpdateRun x1 = (None, x2) ->
     run (db (snd res)) !! id = Some (Domain.with_FinishedAt r (Some (ModifyTime a)))) /\
  (ClientStatus a <> "complete" -> ClientStatus a <> "failed" ->
     res = (Return None, set_ext x1 w)) /\
  (exists body, trace (snd res) = body ++ trace w /\
                length (TraceConsumer.publish_calls body) <= 1).
Proof.
  cbv zeta. rewrite (handler_known_run a w id r x1 Hterm Hparse Hget Hrow).
  destruct (select_fact_cases (ClientStatus a) r)
    as [[Hc Hsel] | [[Hf Hsel] | (Hnc & Hnf & Hsel)]]; rewrite Hsel.
  - destruct (handler_after_fact (Domain.with_FinishedAt r (Some (modify_time a))) id
                (Domain.Success r) (set_ext x1 w)) as (body & Htr & Hdb & _ & Hlen).
    cbv zeta in Htr, Hdb, Hlen |- *.
    split; [|split].
    + intros _ x2 Hupd. rewrite (Hdb x2 Hupd). cbn [Domain.with_FinishedAt Domain.NomadJobID].
      cbn [db set_ext]. rewrite Hkey, Hrow, lookup_insert_eq, modify_time_ModifyTime.
      reflexivity.
    + intros Hn. contradiction.
    + exists body. split; [exact Htr | exact Hlen].
  - destruct (handler_after_fact (Domain.with_FinishedAt r (Some (modify_time a))) id
                (Domain.Failure r) (set_ext x1 w)) as (body & Htr & Hdb & _ & Hlen).
    cbv zeta in Htr, Hdb, Hlen |- *.
    split; [|split].
    + intros _ x2 Hupd. rewrite (Hdb x2 Hupd). cbn [Domain.with_FinishedAt Domain.NomadJobID].
      cbn [db set_ext]. rewrite Hkey, Hrow, lookup_insert_eq, modify_time_ModifyTime.
      reflexivity.
    + intros _ Hn. contradiction.
    + exists body. split; [exact Htr | exact Hlen].
  - split; [|split].
    + intros [Hc | Hf]; contradiction.
    + intros _ _. reflexivity.
    + exists []. split; [reflexivity | cbn; lia].
Qed.

(** C3.  At a terminal allocation event of a run the consumer finds:
    when the status is complete, the update of the run goes through and
    the fact of the run's [Success] value marshals, the handler calls
    [Publish] once, with that fact on the fact-creation stream; when the
    status is failed, likewise with the run's [Failure] value; at any
    other terminal status it calls [Publish] not at all. *)
Theorem handler_publishes_fact_of_status (a : Allocation) (w : World) (id : Domain.UUID)
    (r : Domain.Run) (x1 : Ext)
    (Hterm : ClientTerminalStatus a = true)
    (Hparse : uuid_Parse (JobID a) = inr id)
    (Hget : db_fault SGetRun (ext w) = (None, x1))
    (Hrow : run (db w) !! id = Some r) :
  exists body,
    trace (snd (handleNomadAllocationEvent (Some a) w)) = body ++ trace w /\
    (ClientStatus a = "complete" ->
     forall x2 message,
       db_fault SUpdateRun x1 = (None, x2) ->
       json_Marshal {| Domain.ID := 0%N; Domain.RunId := Some id; Domain.CreatedAt := 0%Z;
                       Domain.Value := Domain.Success r; Domain.BinaryHash := None |}
         = inr message ->
       TraceConsumer.publish_calls body = [(FactCreateStreamName, message)]) /\
    (ClientStatus a = "failed" ->
     forall x2 message,
       db_fault SUpdateRun x1 = (None, x2) ->
       json_Marshal {| Domain.ID := 0%N; Domain.RunId := Some id; Domain.CreatedAt := 0%Z;
                       Domain.Value := Domain.Failure r; Domain.BinaryHash := None |}
         = inr message ->
       TraceConsumer.publish_calls body = [(FactCreateStreamName, message)]) /\
    (ClientStatus a <> "complete" -> ClientStatus a <> "failed" ->
     TraceConsumer.publish_calls body = []).
Proof.
  rewrite (handler_known_run a w id r x1 Hterm Hparse Hget Hrow).
  destruct (select_fact_cases (ClientStatus a) r)
    as [[Hc Hsel] | [[Hf Hsel] | (Hnc & Hnf & Hsel)]]; rewrite Hsel.
  - destruct (handler_after_fact (Domain.with_FinishedAt r (Some (modify_time a))) id
                (Domain.Success r) (set_ext x1 w)) as (body & Htr & _ & Hpub & _).
    cbv zeta in Htr, Hpub |- *.
    exists body. split; [exact Htr|]. split; [|split].
    + intros _ x2 message Hupd Hm. exact (Hpub x2 message Hupd Hm).
    + intros Hf. rewrite Hc in Hf. discriminate Hf.
    + intros Hn. contradiction.
  - destruct (handler_after_fact (Domain.with_FinishedAt r (Some (modify_time a))) id
                (Domain.Failure r) (set_ext x1 w)) as (body & Htr & _ & Hpub & _).
    cbv zeta in Htr, Hpub |- *.
    exists body. split; [exact Htr|]. split; [|split].
    + intros Hc. rewrite Hf in Hc. discriminate Hc.
    + intros _ x2 message Hupd Hm. exact (Hpub x2 message Hupd Hm).
    + intros _ Hn. contradiction.
  - exists []. split; [reflexivity|]. split; [|split].
    + intros Hc. contradiction.
    + intros Hf. contradiction.
    + intros _ _. reflexivity.
Qed.

End AllocationHandler.

(** A failed allocation of the run with job id 7. *)
Lemma handler_closes_complete_and_failed_runs_witness :
  NomadEventConsumer.run
    (NomadEventConsumer.db
       (snd (NomadEventConsumer.handleNomadAllocationEvent
               (Some (Scenario.Consumer.alloc "failed")) Scenario.Consumer.w0))) !! 7%N
    = Some (Domain.with_FinishedAt Scenario.Consumer.a_run (Some 1700000000123456789%Z)).
Proof.
  destruct (handler_closes_complete_and_failed_runs (H := Scenario.Consumer.env)
              (Scenario.Consumer.alloc "failed") Scenario.Consumer.w0 7%N
              Scenario.Consumer.a_run tt eq_refl eq_refl eq_refl eq_refl eq_refl)
    as (Hclosed & _ & _).
  apply (Hclosed (or_intror eq_refl) tt eq_refl).
Defined.

(** C2, as the claim has it, fails: the status lost is terminal, the
    run is found, and the handler, like the whole consumer over a stream
    that holds the event, leaves [finished_at] unset. *)
Lemma lost_run_is_not_closed :
  let res := NomadEventConsumer.handleNomadAllocationEvent
               (Some (Scenario.Consumer.alloc "lost")) Scenario.Consumer.w0 in
  let run_of := fun w => NomadEventConsumer.run (NomadEventConsumer.db w) !! 7%N in
  NomadEventConsumer.ClientTerminalStatus (Scenario.Consumer.alloc "lost") = true /\
  run_of Scenario.Consumer.w0 = Some Scenario.Consumer.a_run /\
  fst res = Eff.Return None /\
  option_map Domain.FinishedAt (run_of (snd res)) = Some None /\
  option_map Domain.FinishedAt
    (run_of (snd (NomadEventConsumer.Start None [Scenario.Consumer.batch 1 "lost"]
                    Scenario.Consumer.w0))) = Some None.
Proof. vm_compute. repeat split; reflexivity. Qed.

(** A completed allocation of the run with job id 7: one call of
    [Publish], with the success fact. *)
Lemma handler_publishes_fact_of_status_witness :
  exists body,
    NomadEventConsumer.trace
      (snd (NomadEventConsumer.handleNomadAllocationEvent
              (Some (Scenario.Consumer.alloc "complete")) Scenario.Consumer.w0))
      = body ++ [] /\
    TraceConsumer.publish_calls body = [("fact.create", "success")].
Proof.
  destruct (handler_publishes_fact_of_status (H := Scenario.Consumer.env)
              (Scenario.Consumer.alloc "complete") Scenario.Consumer.w0 7%N
              Scenario.Consumer.a_run tt eq_refl eq_refl eq_refl eq_refl)
    as (body & Htr & Hcomplete & _ & _).
  exists body. split; [exact Htr|].
  apply (Hcomplete eq_refl tt "success"); reflexivity.
Defined.

(** ** The cursor of the event consumer *)

Section Cursor.
Import Eff NomadEventConsumer.
Context `{Env}.





End Cursor.


(** * Further properties of the code *)

(** ** Subjects: formatting and parsing agree *)

Section Subjects.
Import Eff Numeral.

Lemma value_of_uint_acc (d : Decimal.uint) :
  forall p : positive, value d (N.pos p) = N.pos (Pos.of_uint_acc d p).
Proof.
  induction d; intros p; cbn [value Pos.of_uint_acc]; try reflexivity;
    rewrite <- IHd; f_equal; lia.
Qed.

Lemma value_of_uint (d : Decimal.uint) : value d 0 = N.of_uint d.
Proof.
  unfold N.of_uint.
  induction d; cbn [value Pos.of_uint]; try reflexivity; try exact IHd;
    change (0 * 10 + _)%N with (N.pos 1 + 0)%N || idtac;
    cbn [N.mul N.add]; apply value_of_uint_acc.
Qed.

Lemma value_ge (d : Decimal.uint) : forall acc : N, (acc <= value d acc)%N.
Proof.
  induction d; intros acc; cbn [value]; try lia;
    (etransitivity; [|apply IHd]); lia.
Qed.

(** One turn of the loop of [ParseUint] at a decimal digit. *)
Lemma parseUint_loop_digit (c : ascii) (k : N) (rest : string) (acc : N) :
  Go.digit_of c = Some k -> (k < 10)%N -> (acc * 10 + k < Go.two64)%N ->
  Go.parseUint_loop (String c rest) acc = Go.parseUint_loop rest (acc * 10 + k).
Proof.
  intros Hdigit Hk Hfit. cbn [Go.parseUint_loop]. rewrite Hdigit.
  unfold Go.two64 in Hfit.
  destruct (N.leb_spec 10 k) as [Hge | _]; [lia|].
  change (Go.maxUint64 / 10 + 1)%N with 1844674407370955162%N.
  destruct (N.leb_spec 1844674407370955162 acc) as [Hcut | _]; [lia|].
  unfold Go.mul64, Go.add64.
  rewrite (N.mod_small (acc * 10) Go.two64) by (unfold Go.two64; lia).
  rewrite (N.mod_small (acc * 10 + k) Go.two64) by (unfold Go.two64; lia).
  destruct (N.ltb_spec (acc * 10 + k) (acc * 10)) as [Hlt | _]; [lia|].
  change Go.maxUint64 with 18446744073709551615%N.
  destruct (N.ltb_spec 18446744073709551615 (acc * 10 + k)) as [Hlt | _]; [lia|].
  reflexivity.
Qed.

(** The loop of [ParseUint] reads a numeral whose value fits 64 bits. *)
Lemma parseUint_loop_value (d : Decimal.uint) :
  forall acc : N,
    (value d acc < Go.two64)%N ->
    Go.parseUint_loop (NilEmpty.string_of_uint d) acc = inr (value d acc).
Proof.
  induction d; intros acc Hfit; cbn [value NilEmpty.string_of_uint] in *;
    try reflexivity;
    match goal with
    | Hfit : (value ?l ?acc' < _)%N |- _ =>
        pose proof (value_ge l acc') as Hge;
        rewrite <- (IHd acc' Hfit)
    end.
  - rewrite (parseUint_loop_digit _ 0) by (reflexivity || lia). rewrite N.add_0_r. reflexivity.
  - apply (parseUint_loop_digit _ 1); [reflexivity | lia | lia].
  - apply (parseUint_loop_digit _ 2); [reflexivity | lia | lia].
  - apply (parseUint_loop_digit _ 3); [reflexivity | lia | lia].
  - apply (parseUint_loop_digit _ 4); [reflexivity | lia | lia].
  - apply (parseUint_loop_digit _ 5); [reflexivity | lia | lia].
  - apply (parseUint_loop_digit _ 6); [reflexivity | lia | lia].
  - apply (parseUint_loop_digit _ 7); [reflexivity | lia | lia].
  - apply (parseUint_loop_digit _ 8); [reflexivity | lia | lia].
  - apply (parseUint_loop_digit _ 9); [reflexivity | lia | lia].
Qed.

(** [strconv.ParseUint] reads back what [strconv.FormatUint] wrote. *)
Lemma ParseUint_FormatUint (n : N) :
  (n < Go.two64)%N -> Go.strconv_ParseUint (Go.FormatUint n) = inr n.
Proof.
  intros Hfit. unfold Go.FormatUint, Go.strconv_ParseUint.
  assert (Hval : value (N.to_uint n) 0 = n)
    by (rewrite value_of_uint; apply DecimalN.Unsigned.of_to).
  assert (Hloop : Go.parseUint_loop (NilEmpty.string_of_uint (N.to_uint n)) 0 = inr n).
  { rewrite <- Hval at 2. apply parseUint_loop_value. rewrite Hval. exact Hfit. }
  assert (Hnonnil : N.to_uint n <> Decimal.Nil).
  { destruct n as [|p]; [discriminate | apply DecimalPos.Unsigned.to_uint_nonnil]. }
  destruct (N.to_uint n); try exact Hloop. contradiction.
Qed.

Lemma Split_free (sep : ascii) (a : string) :
  free_of sep a = true -> Go.strings_Split a sep = [a].
Proof.
  induction a as [|c a IH]; cbn [free_of Go.strings_Split]; [reflexivity|].
  intros Hfree. apply andb_true_iff in Hfree as [Hc Ha].
  apply negb_true_iff in Hc. rewrite Hc, (IH Ha). reflexivity.
Qed.

Lemma Split_app (sep : ascii) (a b : string) :
  free_of sep a = true ->
  Go.strings_Split (a +:+ String sep b) sep = a :: Go.strings_Split b sep.
Proof.
  induction a as [|c a IH]; cbn [free_of].
  - intros _. change ("" +:+ String sep b) with (String sep b).
    cbn [Go.strings_Split]. rewrite Ascii.eqb_refl. reflexivity.
  - intros Hfree. apply andb_true_iff in Hfree as [Hc Ha].
    apply negb_true_iff in Hc.
    change (String c a +:+ String sep b) with (String c (a +:+ String sep b)).
    cbn [Go.strings_Split]. rewrite Hc, (IH Ha). reflexivity.
Qed.

Lemma numeral_free_of_dot (d : Decimal.uint) :
  free_of "." (NilEmpty.string_of_uint d) = true.
Proof. induction d; cbn [NilEmpty.string_of_uint free_of]; try reflexivity; exact IHd. Qed.

(** The segments of an invoke subject. *)
Lemma Split_invoke_subject (name : string) (id : N) :
  free_of "." name = true ->
  Go.strings_Split (invoke_subject name id) "." =
    ["workflow"; name; Go.FormatUint id; "invoke"].
Proof.
  intros Hname. unfold invoke_subject.
  change ("workflow." +:+ name +:+ "." +:+ Go.FormatUint id +:+ ".invoke")
    with ("workflow" +:+ String "." (name +:+ String "." (Go.FormatUint id +:+ String "." "invoke"))).
  rewrite Split_app by reflexivity.
  rewrite Split_app by exact Hname.
  rewrite Split_app by apply numeral_free_of_dot.
  reflexivity.
Qed.

(** X1.  A subject [workflow.<name>.<id>.invoke] whose name holds no dot
    and whose id is the decimal form of a [uint64] is read back as it
    was written: both subscribers invoke the workflow [name] at the
    instance [id], and log the error this returns, if any.  The first
    hands over the payload as it is, the later one the payload decoded. *)
Theorem subscribers_read_back_invoke_subject (E1 : InvokerV1.Env) (E2 : Invoker.Env)
    (name : string) (id : N)
    (Hname : free_of "." name = true) (Hid : (id < Go.two64)%N) :
  (forall (m : InvokerV1.Message) (w : InvokerV1.World),
     InvokerV1.Subject m = invoke_subject name id ->
     InvokerV1.invokerSubscriber m None w =
       bind (InvokerV1.invokeWorkflow name id (InvokerV1.Value m))
         (fun err =>
            match err with
            | Some e => InvokerV1.emit (InvokerV1.EvLog ("Failed to invoke workflow " +:+ e))
            | None => ret tt
            end)
         (InvokerV1.add_event (InvokerV1.EvLog (InvokerV1.Value m)) w)) /\
  (forall (m : Invoker.Message) (inputs : Invoker.WorkflowCerts) (w : Invoker.World),
     Invoker.Subject m = invoke_subject name id ->
     Invoker.json_Unmarshal_inputs (Invoker.Value m) = inr inputs ->
     Invoker.invokerSubscriber m None w =
       bind (Invoker.invokeWorkflow name id inputs)
         (fun err =>
            match err with
            | Some e => Invoker.emit (Invoker.EvLog ("Failed to invoke workflow " +:+ e))
            | None => ret tt
            end) w).
Proof.
  split.
  - intros m w Hm. unfold InvokerV1.invokerSubscriber.
    rewrite Hm, (Split_invoke_subject name id Hname).
    unfold bind at 1. cbn [InvokerV1.emit modify].
    unfold at_index, Go.index. cbn [lookup list_lookup].
    unfold bind at 1. cbn [ret]. unfold bind at 1. cbn [ret].
    rewrite (ParseUint_FormatUint id Hid). reflexivity.
  - intros m inputs w Hm Hjson. unfold Invoker.invokerSubscriber.
    rewrite Hjson, Hm, (Split_invoke_subject name id Hname).
    unfold at_index, Go.index. cbn [lookup list_lookup].
    unfold bind at 1. cbn [ret]. unfold bind at 1. cbn [ret].
    rewrite (ParseUint_FormatUint id Hid). reflexivity.
Qed.

End Subjects.

(** The greatest [uint64] as the id of the workflow [wf]. *)
Lemma subscribers_read_back_invoke_subject_witness :
  Invoker.invokerSubscriber
    (Scenario.V2.msg "workflow.wf.18446744073709551615.invoke") None Scenario.V2.w0
  = Eff.bind (Invoker.invokeWorkflow "wf" 18446744073709551615 [])
      (fun err =>
         match err with
         | Some e => Invoker.emit (Invoker.EvLog ("Failed to invoke workflow " +:+ e))
         | None => Eff.ret tt
         end) Scenario.V2.w0.
Proof.
  destruct (subscribers_read_back_invoke_subject Scenario.V1.env Scenario.V2.env
              "wf" 18446744073709551615 eq_refl eq_refl) as [_ H2].
  apply (H2 (Scenario.V2.msg "workflow.wf.18446744073709551615.invoke") []); reflexivity.
Defined.

(** ** The first invoker: workflows and steps that lead nowhere *)

Section FirstInvokerEdges.
Import Eff InvokerV1.
Context `{Env}.

(** X2.  When [nix-instantiate] succeeds and its output decodes, but the
    definitions hold no workflow of the name asked for (or hold nil
    under it), [invokeWorkflow] does not return an error: reading
    [workflow.Steps] panics on the nil pointer, before any step is
    looked at. *)
Theorem unknown_workflow_panics (workflowName : string) (id : N) (inputs : string) (w : World)
    (output : string) (x : Ext) (defs : workflowDefinitions)
    (Hrun : run_nix_instantiate inputs id "workflows" (ext w) = ((output, None), x))
    (Hdecode : json_Unmarshal_defs output = inr defs)
    (Hmissing : map_index defs workflowName = None) :
  invokeWorkflow workflowName id inputs w =
    (Panic "invalid memory address or nil pointer dereference",
     set_ext x (add_event (EvNixInstantiate "workflows" id inputs) w)).
Proof.
  unfold invokeWorkflow, nixInstantiateWorkflow, nixInstantiate, bind, emit, modify, call.
  cbn [ext add_event]. rewrite Hrun, Hdecode. cbn [ret]. rewrite Hmissing. reflexivity.
Qed.

(** X3.  A step without a job is logged and passed over: over steps
    none of which has a job the loop of the first invoker returns nil,
    takes no slot, builds and registers nothing, and leaves one log line
    for each step, in the order of the steps. *)
Theorem steps_without_job_are_only_logged (workflowName : string) (id : N) (inputs : string)
    (steps : list (string * workflowStep)) (w : World)
    (Hnone : Forall (fun s => Job (snd s) = None) steps) :
  range_steps workflowName id inputs steps w =
    (Return None,
     {| ext := ext w; limiter := limiter w;
        trace := rev (List.map (fun s => EvLog ("Checking runnability of " +:+ fst s)) steps)
                 ++ trace w |}).
Proof.
  revert w. induction steps as [|[stepName step] rest IH]; intros w.
  - destruct w. reflexivity.
  - apply Forall_cons in Hnone as [Hstep Hrest]. cbn [snd] in Hstep.
    rewrite V1_range_steps_cons. cbv zeta. rewrite Hstep.
    rewrite (IH Hrest). cbn [ext limiter trace add_event List.map rev fst].
    rewrite <- app_assoc. reflexivity.
Qed.

(** X4.  Two ways in which a step invocation of the first invoker that
    has taken its slot ends without a certificate: a step of type nomad
    whose job does not decode returns the decoding error; a step with no
    type panics.  Either way nothing is registered, built or published,
    and the slot is given back. *)
Theorem step_without_certificate (workflowName : string) (id : N) (inputs stepName : string)
    (step : workflowStep) (w : World) (l : Limiter)
    (Hlim : limiter w = Some l) (Hfree : held l < limit l) :
  (forall js e,
     Type_ step = Some "nomad" -> Job step = Some js -> json_Unmarshal_job js = inl e ->
     invokeWorkflowStep workflowName id inputs stepName step w =
       (Return (Some ("Invalid Nomad JSON Job: " +:+ e)),
        {| ext := ext w; limiter := Some l; trace := EvFinish :: EvWait :: trace w |})) /\
  (Type_ step = None ->
     invokeWorkflowStep workflowName id inputs stepName step w =
       (Panic "invalid memory address or nil pointer dereference",
        {| ext := ext w; limiter := Some l; trace := EvFinish :: EvWait :: trace w |})).
Proof.
  assert (Hback : {| limit := limit l; held := Nat.pred (S (held l)); period := period l |} = l)
    by (destruct l; reflexivity).
  split.
  - intros js e Hty Hjob Hdec. unfold invokeWorkflowStep.
    rewrite (bind_Return _ _ _ _ _ (V1_limiter_Wait_free w l Hlim Hfree)).
    unfold defer, run_step, bind, deref. rewrite Hty. cbn [ret String.eqb Ascii.eqb Bool.eqb].
    rewrite Hjob. cbn [ret]. rewrite Hdec. cbn [ret].
    unfold limiter_Finish, bind, get, deref. cbn [limiter add_event set_limiter ret modify emit].
    cbn [ext trace limit held period add_event set_limiter]. rewrite Hback. reflexivity.
  - intros Hty. unfold invokeWorkflowStep.
    rewrite (bind_Return _ _ _ _ _ (V1_limiter_Wait_free w l Hlim Hfree)).
    unfold defer, run_step, bind, deref. rewrite Hty. cbn [panic].
    unfold limiter_Finish, bind, get, deref. cbn [limiter add_event set_limiter ret modify emit].
    cbn [ext trace limit held period add_event set_limiter]. rewrite Hback. reflexivity.
Qed.

End FirstInvokerEdges.

(** The definitions of the scenario hold [wf] only. *)
Lemma unknown_workflow_panics_witness :
  fst (InvokerV1.invokeWorkflow "other" 12 "{}" Scenario.V1.w0)
    = Eff.Panic "invalid memory address or nil pointer dereference".
Proof.
  rewrite (unknown_workflow_panics (H := Scenario.V1.env) "other" 12 "{}" Scenario.V1.w0
             "defs" tt [("wf", Some Scenario.V1.wf)] eq_refl eq_refl eq_refl).
  reflexivity.
Defined.

(** Two decisions: steps that carry no job. *)
Lemma steps_without_job_are_only_logged_witness :
  InvokerV1.range_steps "wf" 12 "{}"
    [ ("a", {| InvokerV1.Failure := []; InvokerV1.Success := []; InvokerV1.Inputs := [];
               InvokerV1.When := []; InvokerV1.Job := None; InvokerV1.Type_ := None |});
      ("b", {| InvokerV1.Failure := []; InvokerV1.Success := []; InvokerV1.Inputs := [];
               InvokerV1.When := []; InvokerV1.Job := None; InvokerV1.Type_ := Some "nomad" |}) ]
    Scenario.V1.w0
  = (Eff.Return None,
     {| InvokerV1.ext := InvokerV1.ext Scenario.V1.w0;
        InvokerV1.limiter := InvokerV1.limiter Scenario.V1.w0;
        InvokerV1.trace := [ InvokerV1.EvLog "Checking runnability of b";
                             InvokerV1.EvLog "Checking runnability of a" ] |}).
Proof.
  apply (steps_without_job_are_only_logged (H := Scenario.V1.env)).
  repeat constructor.
Defined.

(** A nomad step whose job is the text of an unfinished object. *)
Lemma step_without_certificate_witness :
  InvokerV1.invokeWorkflowStep "wf" 12 "{}" "s" (Scenario.V1.step "nomad" "{") Scenario.V1.w0
  = (Eff.Return (Some "Invalid Nomad JSON Job: unexpected end of JSON input"),
     {| InvokerV1.ext := InvokerV1.ext Scenario.V1.w0;
        InvokerV1.limiter := Some {| InvokerV1.limit := 1; InvokerV1.held := 0;
                                     InvokerV1.period := 1000 |};
        InvokerV1.trace := [InvokerV1.EvFinish; InvokerV1.EvWait] |}).
Proof.
  destruct (step_without_certificate (H := Scenario.V1.env) "wf" 12 "{}" "s"
              (Scenario.V1.step "nomad" "{") Scenario.V1.w0
              {| InvokerV1.limit := 1; InvokerV1.held := 0; InvokerV1.period := 1000 |}
              eq_refl Nat.lt_0_1) as [Hjson _].
  apply (Hjson "{" "unexpected end of JSON input"); reflexivity.
Defined.

(** ** The later invoker: what a step invocation writes and registers *)

Section StepCalls.
Import Eff Invoker Frame Observe.
Context `{Env}.

Lemma calls_same (w w' : World) : trace w' = trace w -> calls w w' [].
Proof. intros Ht. exists []. split; [exact Ht | reflexivity]. Qed.

Lemma calls_app (w1 w2 w3 : World) (cs1 cs2 : list Event) :
  calls w1 w2 cs1 -> calls w2 w3 cs2 -> calls w1 w3 (cs1 ++ cs2).
Proof.
  intros (l1 & Ht1 & Hc1) (l2 & Ht2 & Hc2). exists (l2 ++ l1). split.
  - rewrite Ht2, Ht1, app_assoc. reflexivity.
  - rewrite rev_app_distr, List.filter_app, Hc1, Hc2. reflexivity.
Qed.

Lemma calls_nil_trans (w1 w2 w3 : World) : calls w1 w2 [] -> calls w2 w3 [] -> calls w1 w3 [].
Proof. intros H1 H2. exact (calls_app w1 w2 w3 [] [] H1 H2). Qed.





(** X5.  The transaction that stops a step, once it has begun.  When
    [Deregister] fails, the error is returned under the message
    [Failed to stop step], no [UPDATE] is sent and the table is as it
    was.  When [Deregister] succeeds and the [UPDATE] goes through, the
    row of the instance carries the time of the clock as [FinishedAt],
    whether the commit then succeeds or fails: the [UPDATE] is sent on
    [DB], not on the transaction. *)
Theorem deregister_tx_outcomes (instance : StepInstance) (w : World) (x1 : Ext)
    (Hbegin : driver_fault QBegin (ext w) = (None, x1)) :
  (forall e x2,
     nomad_Deregister (uuid_String (ID instance)) false x1 = (Some e, x2) ->
     let r := RunInTx (deregister_tx instance) w in
     fst r = Return (Some (errors_WithMessage e "Failed to stop step")) /\
     table (snd r) = table w /\
     trace (snd r) =
       EvRollback :: EvDeregister (uuid_String (ID instance)) :: EvBegin :: trace w) /\
  (forall x2 now x3 x4 c x5,
     nomad_Deregister (uuid_String (ID instance)) false x1 = (None, x2) ->
     time_Now x2 = (now, x3) ->
     driver_fault QUpdate x3 = (None, x4) ->
     driver_fault QCommit x4 = (c, x5) ->
     let r := RunInTx (deregister_tx instance) w in
     fst r = Return c /\
     table (snd r) = update_row (with_FinishedAt instance (Some now)) (table w)).
Proof.
  split.
  - intros e x2 Hder. cbv zeta. unfold RunInTx. rewrite Hbegin.
    unfold deregister_tx, bind, emit, modify, call, get, ret.
    cbn [ext add_event set_pending set_ext]. rewrite Hder. repeat split; reflexivity.
  - intros x2 now x3 x4 c x5 Hder Hnow Hupd Hcommit. cbv zeta. unfold RunInTx. rewrite Hbegin.
    unfold deregister_tx, bind, emit, modify, call, get, ret.
    cbn [ext add_event set_pending set_ext]. rewrite Hder.
    cbn [ext add_event set_pending set_ext]. rewrite Hnow.
    cbn [ext add_event set_pending set_ext]. rewrite Hupd.
    cbn [ext add_event set_pending set_ext set_table]. rewrite Hcommit.
    destruct c as [e|]; cbn [fst snd table rollback set_table set_pending set_ext add_event pending];
      rewrite ?app_nil_r; split; reflexivity.
Qed.


Lemma limiter_Finish_calls (w : World) :
  table (snd (limiter_Finish w)) = table w /\ calls w (snd (limiter_Finish w)) [].
Proof.
  unfold limiter_Finish, bind, get, deref.
  destruct (limiter w) as [l|]; cbn [ret panic modify emit snd].
  - split; [reflexivity | eexists [_]; split; reflexivity].
  - split; [reflexivity | apply calls_same; reflexivity].
Qed.



End StepCalls.

Section RunnableStepCalls.
Import Eff Invoker Frame Observe.
Context `{Env}.

(** The transaction of a runnable step inserts before it registers, and
    registers at most once. *)
Lemma RunInTx_register_tx_calls (instance : StepInstance) (job : Nomad.Job) (w : World) :
  exists cs,
    calls w (snd (RunInTx (register_tx instance job) w)) cs /\
    insert_then_register instance job cs.
Proof.
  unfold RunInTx, insert_then_register.
  destruct (driver_fault QBegin (ext w)) as [[e|] x1].
  { exists []. split; [apply calls_same; reflexivity | left; reflexivity]. }
  unfold register_tx, insertStepInstance, bind, emit, modify, call, get, ret.
  cbn [ext add_event set_pending set_ext].
  destruct (driver_fault QInsert x1) as [[e|] x2].
  { exists [EvInsert instance]. split; [eexists [_; _; _; _; _]; split; reflexivity|].
    right; left; reflexivity. }
  cbn [ext add_event set_pending set_ext pending app].
  destruct (nomad_Register job x2) as [[e | response] x3].
  { exists [EvInsert instance; EvRegister job].
    split; [eexists [_; _; _; _; _]; split; reflexivity|]. right; right; reflexivity. }
  destruct (0 <? String.length (Nomad.Warnings response))%nat;
    cbn [ext add_event set_pending set_ext];
    destruct (driver_fault QCommit x3) as [[e|] x4];
    exists [EvInsert instance; EvRegister job];
    (split; [|right; right; reflexivity]).
  - eexists [_; _; _; _; _; _]. split; reflexivity.
  - eexists [_; _; _; _; _; _]. split; reflexivity.
  - eexists [_; _; _; _; _]. split; reflexivity.
  - eexists [_; _; _; _; _]. split; reflexivity.
Qed.

(** The row a runnable step goes on with is a row of that step and
    that workflow instance. *)
Lemma instance_for_found_row (id : N) (stepName : string) (inputs : WorkflowCerts)
    (f : option Go.error) (t : list StepInstance) (x : Ext) :
  let i := fst (instance_for id stepName inputs (found_row stepName id f t) x) in
  StepName i = stepName /\ WorkflowInstanceId i = id.
Proof.
  cbv zeta. unfold instance_for, found_row.
  destruct f as [e|].
  - destruct (uuid_New x) as [u x']. split; reflexivity.
  - destruct (List.find (matches stepName id) t) as [i|] eqn:Hfind.
    + apply find_some in Hfind as [_ Hm]. unfold matches in Hm.
      apply andb_true_iff in Hm as [Hn Hw].
      apply String.eqb_eq in Hn. apply N.eqb_eq in Hw. split; assumption.
    + destruct (uuid_New x) as [u x']. split; reflexivity.
Qed.

(** Giving back the slot after [m] adds no insert and no registration
    to those of [m]. *)
Lemma defer_Finish_calls {A : Type} (m : M World A) (w0 w : World) (cs : list Event) :
  calls w0 (snd (m w)) cs -> calls w0 (snd (defer limiter_Finish m w)) cs.
Proof.
  intros Hm. unfold defer.
  destruct (m w) as [[a | msg | msg | ] w1]; cbn [snd] in *; try exact Hm.
  - destruct (limiter_Finish_calls w1) as [_ Hfin].
    destruct (limiter_Finish w1) as [[[] | msg | msg | ] w2]; cbn [snd] in *;
      rewrite <- (app_nil_r cs); exact (calls_app w0 w1 w2 cs [] Hm Hfin).
  - destruct (limiter_Finish_calls w1) as [_ Hfin].
    destruct (limiter_Finish w1) as [[[] | msg' | msg' | ] w2]; cbn [snd] in *;
      rewrite <- (app_nil_r cs); exact (calls_app w0 w1 w2 cs [] Hm Hfin).
Qed.

(** The lookup of a step returns: an error of the driver other than
    [sql.ErrNoRows], or else what [found_row] says. *)
Lemma select_instance_found (stepName : string) (id : N) (w : World) :
  exists r,
    select_instance stepName id w =
      (Return r, set_ext (snd (driver_fault QSelect (ext w))) (add_event (EvSelect stepName id) w)) /\
    ((exists e, r = inl e) \/
     r = inr (found_row stepName id (fst (driver_fault QSelect (ext w))) (table w))).
Proof.
  unfold select_instance, bind, emit, modify, call, get, found_row.
  cbn [ext add_event].
  destruct (driver_fault QSelect (ext w)) as [[e|] x0]; cbn [fst snd table set_ext add_event].
  - destruct (String.eqb e sql_ErrNoRows).
    + eexists. split; [reflexivity | right; reflexivity].
    + eexists. split; [reflexivity | left; eexists; reflexivity].
  - destruct (List.find (matches stepName id) (table w)) as [i|].
    + eexists. split; [reflexivity | right; reflexivity].
    + rewrite String.eqb_refl. eexists. split; [reflexivity | right; reflexivity].
Qed.

(** The inserts and registrations of the body of a runnable step, from
    a world [w1] that has the trace of [w] under actions that are
    neither. *)
Lemma step_body_calls (name : string) (id : N) (inputs : WorkflowCerts) (stepName : string)
    (step : WorkflowStep) (w w1 : World) :
  IsRunnable step = true ->
  calls w w1 [] ->
  let i := fst (instance_for id stepName inputs
                  (found_row stepName id (fst (driver_fault QSelect (ext w1))) (table w1))
                  (snd (driver_fault QSelect (ext w1)))) in
  exists cs,
    calls w (snd (step_body name id inputs stepName step w1)) cs /\
    insert_then_register i (Nomad.with_ID (Job step) (Some (uuid_String (ID i)))) cs.
Proof.
  intros Hrun H01. cbv zeta.
  assert (Hquiet : forall (i : StepInstance) (job : Nomad.Job) (w2 : World),
             calls w1 w2 [] ->
             exists cs, calls w w2 cs /\ insert_then_register i job cs).
  { intros i job w2 Hc. exists []. split; [|left; reflexivity].
    exact (calls_nil_trans w w1 w2 H01 Hc). }
  assert (Htx : forall (i : StepInstance) (w3 : World),
             calls w1 w3 [] ->
             exists cs,
               calls w (snd (RunInTx (register_tx i
                                        (Nomad.with_ID (Job step) (Some (uuid_String (ID i)))))
                               w3)) cs /\
               insert_then_register i (Nomad.with_ID (Job step) (Some (uuid_String (ID i)))) cs).
  { intros i w3 Hc.
    destruct (RunInTx_register_tx_calls i
                (Nomad.with_ID (Job step) (Some (uuid_String (ID i)))) w3)
      as (cs & Hcs & Hgood).
    exists cs. split; [|exact Hgood].
    exact (calls_app w w3 _ [] cs (calls_nil_trans w w1 w3 H01 Hc) Hcs). }
  unfold step_body. unfold bind at 1. cbn [emit modify].
  destruct (select_instance_found stepName id
              (add_event (EvLog ("Checking runnability of " +:+ stepName)) w1))
    as (r & Hsel & Hr).
  rewrite (bind_Return _ _ _ _ _ Hsel). clear Hsel.
  cbn [ext table add_event] in *.
  generalize dependent (driver_fault QSelect (ext w1)). intros [f x0] Hr. cbn [fst snd] in *.
  destruct Hr as [[e ->] | ->].
  { cbn [ret snd]. apply Hquiet. eexists [_; _]. split; reflexivity. }
  rewrite Hrun. unfold bind at 1. unfold add_logging. cbn [heap set_ext add_event].
  destruct (addLogging (Job step) (heap w1)) as [[[e|] | msg | msg | ] h];
    cbn [snd ret];
    try (apply Hquiet; eexists [_; _]; split; reflexivity).
  unfold instance_for.
  destruct (found_row stepName id f (table w1)) as [i|].
  - unfold bind. cbn [ret fst]. apply Htx. eexists [_; _]. split; reflexivity.
  - unfold bind, call. cbn [ext set_heap set_ext add_event].
    destruct (uuid_New x0) as [u x]. cbn [ret fst].
    apply Htx. eexists [_; _]. split; reflexivity.
Qed.

Lemma calls_unique (w w' : World) (cs1 cs2 : list Event) :
  calls w w' cs1 -> calls w w' cs2 -> cs1 = cs2.
Proof.
  intros (l1 & H1 & F1) (l2 & H2 & F2). rewrite H1 in H2.
  apply app_inv_tail in H2. subst l2. congruence.
Qed.

(** Exhibits the inserts and registrations between two worlds whose
    traces are known. *)
Ltac show_calls :=
  first [ eexists [_; _; _; _; _; _; _]; split; reflexivity
        | eexists [_; _; _; _; _; _; _; _]; split; reflexivity
        | eexists [_; _; _; _; _; _; _; _; _]; split; reflexivity
        | eexists [_; _; _; _; _; _; _; _; _; _]; split; reflexivity
        | eexists [_; _; _; _; _; _; _; _; _; _; _]; split; reflexivity ].

(** A runnable step that finds a slot free, whose lookup goes through,
    whose job takes the logging sidecar and whose transaction begins,
    sends the insert of its row. *)
Lemma runnable_step_inserts (name : string) (id : N) (inputs : WorkflowCerts)
    (stepName : string) (step : WorkflowStep) (w : World) (l : Limiter) (h1 : Heap) :
  IsRunnable step = true ->
  limiter w = Some l ->
  held l < limit l ->
  (forall e, fst (driver_fault QSelect (ext w)) = Some e -> e = sql_ErrNoRows) ->
  addLogging (Job step) (heap w) = (Return None, h1) ->
  let ix := instance_for id stepName inputs
              (found_row stepName id (fst (driver_fault QSelect (ext w))) (table w))
              (snd (driver_fault QSelect (ext w))) in
  fst (driver_fault QBegin (snd ix)) = None ->
  exists rest,
    calls w (snd (invokeWorkflowStep name id inputs stepName step w)) (EvInsert (fst ix) :: rest).
Proof.
  intros Hrun Hl Hfree Hf Hlog. cbv zeta. intros Hbegin.
  rewrite (runnable_step_opens_tx name id inputs stepName step w l
             (fst (driver_fault QSelect (ext w))) (snd (driver_fault QSelect (ext w)))
             (snd (instance_for id stepName inputs
                     (found_row stepName id (fst (driver_fault QSelect (ext w))) (table w))
                     (snd (driver_fault QSelect (ext w)))))
             h1
             (fst (instance_for id stepName inputs
                     (found_row stepName id (fst (driver_fault QSelect (ext w))) (table w))
                     (snd (driver_fault QSelect (ext w)))))
             Hrun Hl Hfree);
    [ | destruct (driver_fault QSelect (ext w)); reflexivity | exact Hf | exact Hlog
      | destruct (instance_for _ _ _ _ _); reflexivity ].
  destruct (instance_for id stepName inputs
              (found_row stepName id (fst (driver_fault QSelect (ext w))) (table w))
              (snd (driver_fault QSelect (ext w)))) as [i x1].
  cbn [fst snd] in *.
  unfold defer, RunInTx. cbn [ext].
  destruct (driver_fault QBegin x1) as [[e|] x2]; [discriminate Hbegin|].
  unfold register_tx, insertStepInstance, bind, emit, modify, call, get, ret.
  cbn [ext add_event set_pending set_ext].
  destruct (driver_fault QInsert x2) as [[e|] x3].
  { eexists. unfold limiter_Finish, bind, get, deref. cbn. show_calls. }
  cbn [ext add_event set_pending set_ext pending app].
  destruct (nomad_Register _ x3) as [[e | response] x4].
  { eexists. unfold limiter_Finish, bind, get, deref. cbn. show_calls. }
  destruct (0 <? String.length (Nomad.Warnings response))%nat;
    cbn [ext add_event set_pending set_ext];
    destruct (driver_fault QCommit x4) as [[e|] x5];
    eexists; unfold limiter_Finish, bind, get, deref; cbn; show_calls.
Qed.

(** X7.  The invocation of a runnable step makes at most one insert
    and at most one registration, the insert first.  The row inserted
    is the row the lookup of the step finds, when it finds one, and
    otherwise a new row under the id [uuid.New] hands out, with the
    workflow instance, the name of the step and the inputs; either way a
    row of this step and this workflow instance.  The job registered is
    the job of the step under the id of that row.  The insert is sent
    whenever the invocation finds a slot free, its lookup goes through,
    the job takes the logging sidecar and the transaction begins. *)
Theorem runnable_step_registers_under_instance_id (name : string) (id : N)
    (inputs : WorkflowCerts) (stepName : string) (step : WorkflowStep) (w : World)
    (Hrunnable : IsRunnable step = true) :
  let ix := instance_for id stepName inputs
              (found_row stepName id (fst (driver_fault QSelect (ext w))) (table w))
              (snd (driver_fault QSelect (ext w))) in
  let i := fst ix in
  StepName i = stepName /\
  WorkflowInstanceId i = id /\
  exists cs : list Event,
    calls w (snd (invokeWorkflowStep name id inputs stepName step w)) cs /\
    insert_then_register i (Nomad.with_ID (Job step) (Some (uuid_String (ID i)))) cs /\
    (forall (l : Limiter) (h1 : Heap),
       limiter w = Some l ->
       held l < limit l ->
       (forall e, fst (driver_fault QSelect (ext w)) = Some e -> e = sql_ErrNoRows) ->
       addLogging (Job step) (heap w) = (Return None, h1) ->
       fst (driver_fault QBegin (snd ix)) = None ->
       cs <> []).
Proof.
  cbv zeta.
  destruct (instance_for_found_row id stepName inputs (fst (driver_fault QSelect (ext w)))
              (table w) (snd (driver_fault QSelect (ext w)))) as [Hn Hw].
  split; [exact Hn|]. split; [exact Hw|].
  assert (Hcalls : exists cs,
            calls w (snd (invokeWorkflowStep name id inputs stepName step w)) cs /\
            insert_then_register
              (fst (instance_for id stepName inputs
                      (found_row stepName id (fst (driver_fault QSelect (ext w))) (table w))
                      (snd (driver_fault QSelect (ext w)))))
              (Nomad.with_ID (Job step)
                 (Some (uuid_String
                          (ID (fst (instance_for id stepName inputs
                                      (found_row stepName id
                                         (fst (driver_fault QSelect (ext w))) (table w))
                                      (snd (driver_fault QSelect (ext w)))))))))
              cs).
  { unfold invokeWorkflowStep. unfold bind at 1.
    unfold limiter_Wait, bind, get, deref.
    destruct (limiter w) as [l|]; cbn [ret panic].
    - destruct (Nat.ltb (held l) (limit l)); cbn [modify emit block].
      + set (w1 := add_event EvWait _).
        destruct (step_body_calls name id inputs stepName step w w1 Hrunnable)
          as (cs & Hcs & Hgood).
        { eexists [_]. split; reflexivity. }
        exists cs. split; [|exact Hgood].
        apply defer_Finish_calls. exact Hcs.
      + exists []. split; [apply calls_same; reflexivity | left; reflexivity].
    - exists []. split; [apply calls_same; reflexivity | left; reflexivity]. }
  destruct Hcalls as (cs & Hcs & Hgood).
  exists cs. split; [exact Hcs|]. split; [exact Hgood|].
  intros l h1 Hl Hfree Hf Hlog Hbegin Hnil.
  destruct (runnable_step_inserts name id inputs stepName step w l h1
              Hrunnable Hl Hfree Hf Hlog Hbegin) as (rest & Hins).
  pose proof (calls_unique _ _ _ _ Hcs Hins) as Heq.
  rewrite Hnil in Heq. discriminate Heq.
Qed.

End RunnableStepCalls.


(** The row of the step [second] of the workflow instance 12, with id 5. *)
Lemma deregister_tx_outcomes_witness :
  let row := {| Invoker.ID := 5%N; Invoker.WorkflowInstanceId := 12%N;
                Invoker.StepName := "second"; Invoker.Certs := [];
                Invoker.FinishedAt := None |} in
  let w := Invoker.set_table [row] Scenario.V2.w0 in
  Invoker.table (snd (Invoker.RunInTx (Invoker.deregister_tx row) w))
    = [Invoker.with_FinishedAt row (Some 1%Z)].
Proof.
  cbv zeta.
  destruct (deregister_tx_outcomes (H := Scenario.V2.env)
              {| Invoker.ID := 5%N; Invoker.WorkflowInstanceId := 12%N;
                 Invoker.StepName := "second"; Invoker.Certs := [];
                 Invoker.FinishedAt := None |}
              (Invoker.set_table
                 [{| Invoker.ID := 5%N; Invoker.WorkflowInstanceId := 12%N;
                     Invoker.StepName := "second"; Invoker.Certs := [];
                     Invoker.FinishedAt := None |}] Scenario.V2.w0)
              0 eq_refl) as [_ Hstamp].
  destruct (Hstamp 0 1%Z 0 0 None 0 eq_refl eq_refl eq_refl eq_refl) as [_ Htable].
  exact Htable.
Defined.

(** A runnable step without a row yet: the insert of a new row under
    the id the world hands out, then the registration of the job under
    that id.  And a runnable step with a row: the insert and the
    registration are those of that row. *)
Lemma runnable_step_registers_under_instance_id_witness :
  (let fresh := {| Invoker.ID := 0%N; Invoker.WorkflowInstanceId := 12%N;
                   Invoker.StepName := "second"; Invoker.Certs := [];
                   Invoker.FinishedAt := None |} in
   Observe.calls Scenario.V2.w0
     (snd (Invoker.invokeWorkflowStep "wf" 12 [] "second"
             (Scenario.V2.step "good" [Some 1] true) Scenario.V2.w0))
     [ Invoker.EvInsert fresh;
       Invoker.EvRegister (Nomad.with_ID (Scenario.job "good" [Some 1]) (Some "0")) ]) /\
  (let row := {| Invoker.ID := 5%N; Invoker.WorkflowInstanceId := 12%N;
                 Invoker.StepName := "second"; Invoker.Certs := [("k", JNull)];
                 Invoker.FinishedAt := Some 3%Z |} in
   let w := Invoker.set_table [row] Scenario.V2.w0 in
   Observe.calls w
     (snd (Invoker.invokeWorkflowStep "wf" 12 [] "second"
             (Scenario.V2.step "good" [Some 1] true) w))
     [ Invoker.EvInsert row;
       Invoker.EvRegister (Nomad.with_ID (Scenario.job "good" [Some 1]) (Some "5")) ]).
Proof.
  cbv zeta. split.
  - destruct (runnable_step_registers_under_instance_id (H := Scenario.V2.env) "wf" 12 []
                "second" (Scenario.V2.step "good" [Some 1] true) Scenario.V2.w0 eq_refl)
      as (_ & _ & cs & Hcalls & Hgood & _).
    assert (Hcs : cs = [ Invoker.EvInsert
                           {| Invoker.ID := 0%N; Invoker.WorkflowInstanceId := 12%N;
                              Invoker.StepName := "second"; Invoker.Certs := [];
                              Invoker.FinishedAt := None |};
                         Invoker.EvRegister
                           (Nomad.with_ID (Scenario.job "good" [Some 1]) (Some "0")) ]).
    { destruct Hcalls as (later & Htrace & Hfilter).
      match type of Htrace with ?a = _ => change (a = later ++ []) in Htrace end.
      rewrite app_nil_r in Htrace. rewrite <- Htrace in Hfilter.
      rewrite <- Hfilter. reflexivity. }
    rewrite <- Hcs. exact Hcalls.
  - destruct (runnable_step_registers_under_instance_id (H := Scenario.V2.env) "wf" 12 []
                "second" (Scenario.V2.step "good" [Some 1] true)
                (Invoker.set_table
                   [{| Invoker.ID := 5%N; Invoker.WorkflowInstanceId := 12%N;
                       Invoker.StepName := "second"; Invoker.Certs := [("k", JNull)];
                       Invoker.FinishedAt := Some 3%Z |}] Scenario.V2.w0) eq_refl)
      as (_ & _ & cs & Hcalls & Hgood & _).
    assert (Hcs : cs = [ Invoker.EvInsert
                           {| Invoker.ID := 5%N; Invoker.WorkflowInstanceId := 12%N;
                              Invoker.StepName := "second"; Invoker.Certs := [("k", JNull)];
                              Invoker.FinishedAt := Some 3%Z |};
                         Invoker.EvRegister
                           (Nomad.with_ID (Scenario.job "good" [Some 1]) (Some "5")) ]).
    { destruct Hcalls as (later & Htrace & Hfilter).
      match type of Htrace with ?a = _ => change (a = later ++ []) in Htrace end.
      rewrite app_nil_r in Htrace. rewrite <- Htrace in Hfilter.
      rewrite <- Hfilter. reflexivity. }
    rewrite <- Hcs. exact Hcalls.
Defined.

(** ** The logging sidecar: twice, and on a nil group *)

Section LoggingEdges.
Import Eff Invoker.
Context `{Env}.

Lemma range_TaskGroups_app (cfg : string) (pre rest : list (option Nomad.loc)) :
  forall h : gmap Nomad.loc Nomad.TaskGroup,
    range_TaskGroups cfg (pre ++ rest) h =
      match range_TaskGroups cfg pre h with
      | (true, h1) => range_TaskGroups cfg rest h1
      | (false, h1) => (false, h1)
      end.
Proof.
  induction pre as [|[l|] pre IH]; intros h; cbn [app range_TaskGroups]; try reflexivity.
  destruct (h !! l); [apply IH | reflexivity].
Qed.

(** X8.  [addLogging] is not idempotent: on a job of distinct allocated
    groups, a second call succeeds like the first and leaves every group
    with two [promtail] tasks after the tasks it had. *)
Theorem addLogging_twice_appends_two (job : Nomad.Job) (h : gmap Nomad.loc Nomad.TaskGroup)
    (cfg : string)
    (Hcfg : yaml_Marshal promtail_config = inr cfg)
    (Hdistinct : NoDup (Nomad.TaskGroups job))
    (Halloc : forall p, p ∈ Nomad.TaskGroups job -> exists l tg, p = Some l /\ h !! l = Some tg) :
  exists h1 h2,
    addLogging job h = (Return None, h1) /\
    addLogging job h1 = (Return None, h2) /\
    (forall l tg, Some l ∈ Nomad.TaskGroups job -> h !! l = Some tg ->
       h2 !! l = Some {| Nomad.GroupName := Nomad.GroupName tg;
                         Nomad.Tasks := Nomad.Tasks tg ++ [promtail_task cfg; promtail_task cfg] |}) /\
    (forall l, Some l ∉ Nomad.TaskGroups job -> h2 !! l = h !! l).
Proof.
  destruct (range_TaskGroups_appends cfg (Nomad.TaskGroups job) h Hdistinct Halloc)
    as (h1 & Hrun1 & Hin1 & Hout1).
  assert (Halloc1 : forall p, p ∈ Nomad.TaskGroups job ->
                      exists l tg, p = Some l /\ h1 !! l = Some tg).
  { intros p Hp. destruct (Halloc p Hp) as (l & tg & -> & Hl).
    eexists l, _. split; [reflexivity|]. exact (Hin1 l tg Hp Hl). }
  destruct (range_TaskGroups_appends cfg (Nomad.TaskGroups job) h1 Hdistinct Halloc1)
    as (h2 & Hrun2 & Hin2 & Hout2).
  exists h1, h2. unfold addLogging. rewrite Hcfg, Hrun1, Hrun2.
  split; [reflexivity|]. split; [reflexivity|]. split.
  - intros l tg Hmem Hl. rewrite (Hin2 l _ Hmem (Hin1 l tg Hmem Hl)).
    unfold Nomad.with_Tasks. cbn [Nomad.GroupName Nomad.Tasks].
    rewrite <- app_assoc. reflexivity.
  - intros l Hnot. rewrite (Hout2 l Hnot). exact (Hout1 l Hnot).
Qed.

(** X9.  Where [addLogging] does not go through.  When the
    configuration does not marshal, the error is returned under the
    message [while marshaling promtail config] and no group is touched.
    When the configuration marshals and a nil pointer stands among the
    task groups, after distinct allocated groups, the call panics at the
    nil pointer: the groups before it have their [promtail] task by
    then, and no other group is touched. *)
Theorem addLogging_failures (job : Nomad.Job) (h : gmap Nomad.loc Nomad.TaskGroup) :
  (forall e, yaml_Marshal promtail_config = inl e ->
     addLogging job h = (Return (Some ("while marshaling promtail config: " +:+ e)), h)) /\
  (forall cfg pre rest,
     yaml_Marshal promtail_config = inr cfg ->
     Nomad.TaskGroups job = pre ++ None :: rest ->
     NoDup pre ->
     (forall p, p ∈ pre -> exists l tg, p = Some l /\ h !! l = Some tg) ->
     exists h',
       addLogging job h = (Panic "invalid memory address or nil pointer dereference", h') /\
       (forall l tg, Some l ∈ pre -> h !! l = Some tg ->
          h' !! l = Some {| Nomad.GroupName := Nomad.GroupName tg;
                            Nomad.Tasks := Nomad.Tasks tg ++ [promtail_task cfg] |}) /\
       (forall l, Some l ∉ pre -> h' !! l = h !! l)).
Proof.
  split.
  - intros e He. unfold addLogging. rewrite He. reflexivity.
  - intros cfg pre rest Hcfg Hgroups Hdistinct Halloc.
    destruct (range_TaskGroups_appends cfg pre h Hdistinct Halloc) as (h' & Hrun & Hin & Hout).
    exists h'. unfold addLogging. rewrite Hcfg, Hgroups, range_TaskGroups_app, Hrun.
    cbn [range_TaskGroups]. split; [reflexivity|]. split; [exact Hin | exact Hout].
Qed.

End LoggingEdges.

(** A job of one group, twice through [addLogging]. *)
Lemma addLogging_twice_appends_two_witness :
  exists h1 h2,
    Invoker.addLogging (H := Scenario.V2.env) (Scenario.job "good" [Some 0]) Scenario.V2.h0
      = (Eff.Return None, h1) /\
    Invoker.addLogging (H := Scenario.V2.env) (Scenario.job "good" [Some 0]) h1
      = (Eff.Return None, h2) /\
    h2 !! 0 = Some {| Nomad.GroupName := Some "g";
                      Nomad.Tasks := Nomad.Tasks Scenario.V2.group
                                     ++ [Invoker.promtail_task "server: {}";
                                         Invoker.promtail_task "server: {}"] |}.
Proof.
  destruct (addLogging_twice_appends_two (H := Scenario.V2.env)
              (Scenario.job "good" [Some 0]) Scenario.V2.h0 "server: {}" eq_refl)
    as (h1 & h2 & Hrun1 & Hrun2 & Hin & _).
  - apply NoDup_singleton.
  - intros p Hp. apply list_elem_of_singleton in Hp as ->.
    exists 0, Scenario.V2.group. split; reflexivity.
  - exists h1, h2. split; [exact Hrun1|]. split; [exact Hrun2|].
    apply (Hin 0 Scenario.V2.group); [left | reflexivity].
Defined.

(** A job whose second task group is nil. *)
Lemma addLogging_failures_witness :
  exists h',
    Invoker.addLogging (H := Scenario.V2.env) (Scenario.job "good" [Some 0; None; Some 1])
      Scenario.V2.h0
      = (Eff.Panic "invalid memory address or nil pointer dereference", h') /\
    h' !! 0 = Some {| Nomad.GroupName := Some "g";
                      Nomad.Tasks := Nomad.Tasks Scenario.V2.group
                                     ++ [Invoker.promtail_task "server: {}"] |} /\
    h' !! 1 = Some Scenario.V2.group.
Proof.
  destruct (addLogging_failures (H := Scenario.V2.env)
              (Scenario.job "good" [Some 0; None; Some 1]) Scenario.V2.h0) as [_ Hnil].
  destruct (Hnil "server: {}" [Some 0] [Some 1] eq_refl eq_refl) as (h' & Hrun & Hin & Hout).
  - apply NoDup_singleton.
  - intros p Hp. apply list_elem_of_singleton in Hp as ->.
    exists 0, Scenario.V2.group. split; reflexivity.
  - exists h'. split; [exact Hrun|]. split.
    + apply (Hin 0 Scenario.V2.group); [left | reflexivity].
    + transitivity (Scenario.V2.h0 !! 1); [|reflexivity].
      apply (Hout 1). intros Hmem. apply list_elem_of_singleton in Hmem. discriminate Hmem.
Defined.

(** ** The event consumer: events that are not ours, order, replay *)

Section ConsumerEdges.
Import Eff NomadEventConsumer ObserveConsumer.
Context `{Env}.

(** X10.  The events the consumer lets pass.  An event that is not an
    allocation update is not handled at all.  An allocation whose
    client status is not terminal, whose job id is no UUID, or whose job
    id names no run, makes the handler return nil without updating a
    run, publishing or deregistering (the first and the last leave a log
    line).  An error of the lookup of the run is returned as it is. *)
Theorem consumer_ignores_foreign_events (a : Allocation) (w : World) :
  (forall event : Event,
     (Topic event <> "Allocation" \/ Type_ event <> "AllocationUpdated") ->
     handleNomadEvent event w = (Return None, w)) /\
  (ClientTerminalStatus a = false ->
     handleNomadAllocationEvent (Some a) w =
       (Return None,
        add_action (ActLog ("Ignoring allocation event with non-terminal client status " +:+
                            ClientStatus a)) w)) /\
  (forall e,
     ClientTerminalStatus a = true -> uuid_Parse (JobID a) = inl e ->
     handleNomadAllocationEvent (Some a) w = (Return None, w)) /\
  (forall id x,
     ClientTerminalStatus a = true -> uuid_Parse (JobID a) = inr id ->
     db_fault SGetRun (ext w) = (None, x) -> run (db w) !! id = None ->
     handleNomadAllocationEvent (Some a) w =
       (Return None,
        add_action (ActLog ("Ignoring Nomad event for Job with ID " +:+ uuid_String id +:+
                            " (no such Run)")) (set_ext x w))) /\
  (forall id e x,
     ClientTerminalStatus a = true -> uuid_Parse (JobID a) = inr id ->
     db_fault SGetRun (ext w) = (Some e, x) ->
     handleNomadAllocationEvent (Some a) w = (Return (Some e), set_ext x w)).
Proof.
  split; [|split; [|split; [|split]]].
  - intros event Hother. unfold handleNomadEvent.
    destruct (String.eqb_spec (Topic event) "Allocation") as [Ht | _]; [|reflexivity].
    destruct (String.eqb_spec (Type_ event) "AllocationUpdated") as [Hy | _]; [|reflexivity].
    destruct Hother as [Hn | Hn]; contradiction.
  - intros Hterm. unfold handleNomadAllocationEvent, bind. cbn [deref ret].
    rewrite Hterm. reflexivity.
  - intros e Hterm Hparse. unfold handleNomadAllocationEvent, bind. cbn [deref ret].
    rewrite Hterm. cbn [negb]. rewrite Hparse. reflexivity.
  - intros id x Hterm Hparse Hget Hrow. unfold handleNomadAllocationEvent.
    unfold bind at 1. cbn [deref ret]. rewrite Hterm. cbn [negb]. rewrite Hparse.
    unfold GetByNomadJobId, bind, call, get, ret. rewrite Hget. cbn [db set_ext]. rewrite Hrow.
    reflexivity.
  - intros id e x Hterm Hparse Hget. unfold handleNomadAllocationEvent.
    unfold bind at 1. cbn [deref ret]. rewrite Hterm. cbn [negb]. rewrite Hparse.
    unfold GetByNomadJobId, bind, call, get, ret. rewrite Hget. reflexivity.
Qed.

(** What follows the choice of the fact, action by action. *)
Lemma handler_after_fact_order (r' : Domain.Run) (id : Domain.UUID) (fact : JSON) (w : World) :
  let res :=
    bind (RunService_Update r')
      (fun u =>
         match u with
         | Some err =>
             ret (Some (errors_WithMessage err
                          ("Failed to update Run with ID " +:+ uuid_String (Domain.NomadJobID r'))))
         | None =>
             match json_Marshal (run_fact id fact) with
             | inl err => ret (Some (errors_WithMessage err "Failed to marshal Fact"))
             | inr message =>
                 bind (Publish FactCreateStreamName message)
                   (fun p =>
                      match p with
                      | Some err => ret (Some (errors_WithMessage err "Could not publish Fact"))
                      | None =>
                          bind (JobsDeregister (uuid_String (Domain.NomadJobID r')))
                            (fun d =>
                               match d with
                               | Some err =>
                                   ret (Some (errors_WithMessage err
                                                ("Failed to deregister Nomad job with ID " +:+
                                                 uuid_String (Domain.NomadJobID r'))))
                               | None => ret None
                               end)
                      end)
             end
         end) w in
  exists body message,
    trace (snd res) = body ++ trace w /\
    begins r' FactCreateStreamName message (uuid_String (Domain.NomadJobID r'))
      (List.filter is_effect (rev body)) /\
    (published (snd res) = published w \/
     published (snd res) = published w ++ [(FactCreateStreamName, message)]) /\
    (deregistered (snd res) = deregistered w \/
     (published (snd res) = published w ++ [(FactCreateStreamName, message)] /\
      deregistered (snd res) = deregistered w ++ [uuid_String (Domain.NomadJobID r')])).
Proof.
  cbv zeta.
  unfold RunService_Update, Publish, JobsDeregister, bind, emit, modify, call, get, ret, begins.
  cbn [ext add_action set_ext].
  destruct (db_fault SUpdateRun (ext w)) as [[e|] x2].
  { eexists [_], "". split; [reflexivity|]. cbn. split; [right; left; reflexivity|].
    split; left; reflexivity. }
  cbn [db set_ext add_action].
  destruct (run (db w) !! Domain.NomadJobID r') as [old|];
    cbn [db set_db set_ext add_action ext run];
    (destruct (json_Marshal (run_fact id fact)) as [e | message];
     [ eexists [_], ""; (split; [reflexivity|]); cbn;
       (split; [right; left; reflexivity|]); split; left; reflexivity
     | cbn [ext set_db set_ext add_action];
       destruct (mq_Publish FactCreateStreamName message x2) as [[e|] x3];
       [ eexists [_; _], message; (split; [reflexivity|]); cbn;
         (split; [right; right; left; reflexivity|]); split; left; reflexivity
       | cbn [ext set_db set_ext add_action add_published];
         destruct (nomad_JobsDeregister (uuid_String (Domain.NomadJobID r')) false x3)
           as [[e|] x4];
         eexists [_; _; _], message; (split; [reflexivity|]); cbn;
         (split; [right; right; right; reflexivity|]);
         [ split; [right; reflexivity | left; reflexivity]
         | split; [right; reflexivity | right; split; reflexivity] ] ] ]).
Qed.

(** X11.  The order of the handler.  Whatever the allocation and the
    outcome of the calls, the handler does, log lines apart, a beginning
    of this sequence and nothing else: the update of one run, one
    publication on the fact-creation stream, one deregistration of the
    job of that run.  So it publishes at most one fact, never before
    the update of the run was sent, and a job is on the list of the
    deregistered only when its fact is on the bus. *)
Theorem handler_updates_publishes_deregisters (allocation : option Allocation) (w : World) :
  let w' := snd (handleNomadAllocationEvent allocation w) in
  exists body r message,
    trace w' = body ++ trace w /\
    begins r FactCreateStreamName message (uuid_String (Domain.NomadJobID r))
      (List.filter is_effect (rev body)) /\
    (published w' = published w \/
     published w' = published w ++ [(FactCreateStreamName, message)]) /\
    (deregistered w' = deregistered w \/
     (published w' = published w ++ [(FactCreateStreamName, message)] /\
      deregistered w' = deregistered w ++ [uuid_String (Domain.NomadJobID r)])).
Proof.
  cbv zeta.
  pose (Q := fun w' : World =>
               exists body r message,
                 trace w' = body ++ trace w /\
                 begins r FactCreateStreamName message (uuid_String (Domain.NomadJobID r))
                   (List.filter is_effect (rev body)) /\
                 (published w' = published w \/
                  published w' = published w ++ [(FactCreateStreamName, message)]) /\
                 (deregistered w' = deregistered w \/
                  (published w' = published w ++ [(FactCreateStreamName, message)] /\
                   deregistered w' = deregistered w ++ [uuid_String (Domain.NomadJobID r)]))).
  pose (nobody := {| Domain.NomadJobID := 0%N; Domain.InvocationId := 0%N;
                     Domain.RunCreatedAt := 0%Z; Domain.FinishedAt := None;
                     Domain.Success := JNull; Domain.Failure := JNull |}).
  assert (Hnone : forall (body : list Action) (w' : World),
             forallb (fun a => negb (is_effect a)) body = true ->
             trace w' = body ++ trace w ->
             published w' = published w -> deregistered w' = deregistered w -> Q w').
  { intros body w' Hlogs Ht Hp Hd. exists body, nobody, "". split; [exact Ht|]. split.
    - left. clear Ht. induction body as [|a body IH]; [reflexivity|].
      cbn [forallb] in Hlogs. apply andb_true_iff in Hlogs as [Ha Hb].
      cbn [rev]. rewrite List.filter_app, (IH Hb). cbn [List.filter app].
      apply negb_true_iff in Ha. rewrite Ha. reflexivity.
    - split; left; assumption. }
  change (Q (snd (handleNomadAllocationEvent allocation w))).
  destruct allocation as [a|]; [|apply (Hnone []); reflexivity].
  unfold handleNomadAllocationEvent. unfold bind at 1. cbn [deref ret].
  destruct (ClientTerminalStatus a); cbn [negb].
  2: { unfold bind, emit, modify, ret. cbn [snd]. eapply (Hnone [ActLog _]); reflexivity. }
  destruct (uuid_Parse (JobID a)) as [e | id]; [apply (Hnone []); reflexivity|].
  unfold bind at 1. unfold GetByNomadJobId, call, get. unfold bind at 1.
  destruct (db_fault SGetRun (ext w)) as [[e|] x1]; cbn [ret].
  { apply (Hnone []); reflexivity. }
  unfold bind at 1. cbn [ret db set_ext].
  destruct (run (db w) !! id) as [r|]; cbn [ret].
  2: { unfold bind, emit, modify, ret. cbn [snd]. eapply (Hnone [ActLog _]); reflexivity. }
  destruct (select_fact (ClientStatus a) r) as [fact|]; [|apply (Hnone []); reflexivity].
  destruct (handler_after_fact_order (Domain.with_FinishedAt r (Some (modify_time a))) id fact
              (set_ext x1 w)) as (body & message & Ht & Hbegins & Hpub & Hder).
  cbv zeta in Ht, Hbegins, Hpub, Hder.
  exists body, (Domain.with_FinishedAt r (Some (modify_time a))), message.
  split; [exact Ht|]. split; [exact Hbegins|]. split; [exact Hpub | exact Hder].
Qed.

End ConsumerEdges.

Section ConsumerReplay.
Import Eff NomadEventConsumer ObserveConsumer.
Context `{Env}.

(** X12.  A fact can be on the bus while its run is still open.  When,
    in the transaction of an allocation update of a run the consumer
    finds, the update of the run, the marshalling and the publication
    succeed and the deregistration of the job then fails, the
    transaction returns the error and is rolled back: the database is as
    it was before the event ([finished_at] unset, the event not saved),
    and the fact stays published. *)
Theorem failed_deregister_leaves_fact_published (event : Event) (a : Allocation) (w : World)
    (id : Domain.UUID) (r : Domain.Run) (fact : JSON) (message : string) (e : Go.error)
    (x0 x1 x2 x3 x4 : Ext)
    (Htopic : Topic event = "Allocation") (Htype : Type_ event = "AllocationUpdated")
    (Hpayload : Payload event = inr (Some a))
    (Hterm : ClientTerminalStatus a = true)
    (Hparse : uuid_Parse (JobID a) = inr id)
    (Hbegin : db_fault SBegin (ext w) = (None, x0))
    (Hget : db_fault SGetRun x0 = (None, x1))
    (Hrow : run (db w) !! id = Some r)
    (Hfact : select_fact (ClientStatus a) r = Some fact)
    (Hupdate : db_fault SUpdateRun x1 = (None, x2))
    (Hmarshal : json_Marshal (run_fact id fact) = inr message)
    (Hpublish : mq_Publish FactCreateStreamName message x2 = (None, x3))
    (Hderegister : nomad_JobsDeregister (uuid_String (Domain.NomadJobID r)) false x3
                   = (Some e, x4)) :
  let res := event_tx event w in
  fst res = Return (Some ("Error handling Nomad event: Failed to deregister Nomad job with ID "
                          +:+ uuid_String (Domain.NomadJobID r) +:+ ": " +:+ e)) /\
  db (snd res) = db w /\
  published (snd res) = published w ++ [(FactCreateStreamName, message)] /\
  deregistered (snd res) = deregistered w.
Proof.
  cbv zeta.
  assert (Hres : exists w',
             event_tx event w =
               (Return (Some ("Error handling Nomad event: Failed to deregister Nomad job with ID "
                              +:+ uuid_String (Domain.NomadJobID r) +:+ ": " +:+ e)), w') /\
             db w' = db w /\
             published w' = published w ++ [(FactCreateStreamName, message)] /\
             deregistered w' = deregistered w).
  { eexists. split.
    - unfold event_tx, BeginFunc. rewrite Hbegin.
      unfold bind at 1. cbn [emit modify].
      set (w1 := add_action _ (set_ext x0 w)).
      unfold processNomadEvent. unfold bind at 1.
      unfold handleNomadEvent. rewrite Htopic, Htype, Hpayload.
      cbn [String.eqb Ascii.eqb Bool.eqb andb].
      rewrite (handler_known_run a w1 id r x1 Hterm Hparse Hget Hrow), Hfact.
      cbv zeta. subst w1.
      unfold RunService_Update, Publish, JobsDeregister, bind, emit, modify, call, get, ret.
      cbn [ext add_action set_ext Domain.with_FinishedAt Domain.NomadJobID]. rewrite Hupdate.
      cbn [db set_ext add_action Domain.NomadJobID].
      destruct (run (db w) !! Domain.NomadJobID r) as [old|];
        cbn [ext set_db set_ext add_action]; rewrite Hmarshal;
        cbn [ext set_db set_ext add_action]; rewrite Hpublish;
        cbn [ext set_db set_ext add_action add_published]; rewrite Hderegister;
        reflexivity.
    - repeat split; reflexivity. }
  destruct Hres as (w' & -> & Hdb & Hpub & Hder).
  repeat split; assumption.
Qed.

(** X13.  Within one run of [Start] the cursor after an item is the
    index of that item, and the test for skipping is strict: an item
    delivered again with the index of the item handled last (or any
    item whose index is not below the cursor) is handled again, event by
    event. *)
Theorem redelivered_item_is_handled_again (index : N) (events : Events) (w : World)
    (Hok : Err events = None) (Hle : (index <= Index events)%N) :
  turns index [events; events] w =
    match range_events (Events_ events) w with
    | (Return None, w1) =>
        match range_events (Events_ events) w1 with
        | (Return None, w2) => (Return (inr (Index events)), w2)
        | (Return (Some err), w2) => (Return (inl err), w2)
        | (Panic msg, w2) => (Panic msg, w2)
        | (Fatal msg, w2) => (Fatal msg, w2)
        | (Blocked, w2) => (Blocked, w2)
        end
    | (Return (Some err), w1) => (Return (inl err), w1)
    | (Panic msg, w1) => (Panic msg, w1)
    | (Fatal msg, w1) => (Fatal msg, w1)
    | (Blocked, w1) => (Blocked, w1)
    end.
Proof.
  cbn [turns]. unfold turn at 1. rewrite Hok.
  destruct (N.ltb_spec (Index events) index) as [Hlt | _]; [lia|].
  unfold bind at 1. unfold bind at 1.
  destruct (range_events (Events_ events) w) as [[[e|] | msg | msg | ] w1]; try reflexivity.
  cbn [ret]. unfold bind at 1. unfold turn. rewrite Hok, N.ltb_irrefl.
  unfold bind, ret.
  destruct (range_events (Events_ events) w1) as [[[e|] | msg | msg | ] w2]; reflexivity.
Qed.

End ConsumerReplay.

(** An allocation that is still running, and one of a job of ours that
    has no run. *)
Lemma consumer_ignores_foreign_events_witness :
  fst (NomadEventConsumer.handleNomadAllocationEvent
         (Some (Scenario.Consumer.alloc "running")) Scenario.Consumer.w0) = Eff.Return None /\
  NomadEventConsumer.handleNomadAllocationEvent
    (Some {| NomadEventConsumer.JobID := "not-a-uuid";
             NomadEventConsumer.ClientStatus := "complete";
             NomadEventConsumer.ModifyTime := 0%Z |}) Scenario.Consumer.w0
    = (Eff.Return None, Scenario.Consumer.w0).
Proof.
  split.
  - destruct (consumer_ignores_foreign_events (H := Scenario.Consumer.env)
                (Scenario.Consumer.alloc "running") Scenario.Consumer.w0) as (_ & Hrun & _).
    rewrite (Hrun eq_refl). reflexivity.
  - destruct (consumer_ignores_foreign_events (H := Scenario.Consumer.env)
                {| NomadEventConsumer.JobID := "not-a-uuid";
                   NomadEventConsumer.ClientStatus := "complete";
                   NomadEventConsumer.ModifyTime := 0%Z |} Scenario.Consumer.w0)
      as (_ & _ & Hparse & _).
    apply (Hparse "invalid UUID"); reflexivity.
Defined.

(** The item of index 5 delivered twice: the fact of the run goes out
    twice. *)
Lemma redelivered_item_is_handled_again_witness :
  NomadEventConsumer.published
    (snd (NomadEventConsumer.turns 1
            [Scenario.Consumer.batch 5 "complete"; Scenario.Consumer.batch 5 "complete"]
            Scenario.Consumer.w0))
  = [("fact.create", "success"); ("fact.create", "success")].
Proof.
  rewrite (redelivered_item_is_handled_again (H := Scenario.Consumer.env) 1
             (Scenario.Consumer.batch 5 "complete") Scenario.Consumer.w0 eq_refl).
  - vm_compute. reflexivity.
  - vm_compute. discriminate.
Defined.

(** The run with job id 7 completes while Nomad cannot deregister. *)
Lemma failed_deregister_leaves_fact_published_witness :
  let res := ObserveConsumer.event_tx (H := Outage.env)
               (Scenario.Consumer.event 5 "complete") Outage.w0 in
  NomadEventConsumer.db (snd res) = NomadEventConsumer.db Outage.w0 /\
  NomadEventConsumer.published (snd res) = [("fact.create", "success")].
Proof.
  cbv zeta.
  destruct (failed_deregister_leaves_fact_published (H := Outage.env)
              (Scenario.Consumer.event 5 "complete") (Scenario.Consumer.alloc "complete")
              Outage.w0 7%N Scenario.Consumer.a_run (JObject [("ok", JBool true)])
              "success" "nomad is down" tt tt tt tt tt
              eq_refl eq_refl eq_refl eq_refl eq_refl eq_refl eq_refl eq_refl eq_refl eq_refl
              eq_refl eq_refl eq_refl) as (_ & Hdb & Hpub & _).
  split; [exact Hdb | exact Hpub].
Defined.

(** ** Leaving the process *)

Section Exits.
Import Eff Exit.

Lemma stays_bind {S A B : Type} (m : M S A) (k : A -> M S B) :
  (forall s, stays (fst (m s))) -> (forall a s, stays (fst (k a s))) ->
  forall s, stays (fst (bind m k s)).
Proof.
  intros Hm Hk s. unfold bind. specialize (Hm s).
  destruct (m s) as [[a | msg | msg | ] s1]; cbn [fst] in *; try exact I; [apply Hk | exact Hm].
Qed.

Lemma stays_defer {S A : Type} (d : M S unit) (m : M S A) :
  (forall s, stays (fst (d s))) -> (forall s, stays (fst (m s))) ->
  forall s, stays (fst (defer d m s)).
Proof.
  intros Hd Hm s. unfold defer. specialize (Hm s).
  destruct (m s) as [[a | msg | msg | ] s1]; cbn [fst] in *; try exact I; try exact Hm.
  - specialize (Hd s1). destruct (d s1) as [[[] | msg | msg | ] s2]; cbn [fst] in *;
      try exact I; exact Hd.
  - specialize (Hd s1). destruct (d s1) as [[[] | msg' | msg' | ] s2]; cbn [fst] in *;
      try exact I; exact Hd.
Qed.

Lemma tame_stays {A : Type} (o : outcome A) : Frame.tame o -> stays o.
Proof. destruct o; intros Ht; try exact I. exact Ht. Qed.

Lemma V2_invokeWorkflow_stays `{Invoker.Env} (name : string) (id : N)
    (inputs : Invoker.WorkflowCerts) :
  forall w, stays (fst (Invoker.invokeWorkflow name id inputs w)).
Proof.
  assert (Hwait : forall w, stays (fst (Invoker.limiter_Wait w))).
  { intros w. unfold Invoker.limiter_Wait, bind, get, deref.
    destruct (Invoker.limiter w) as [l|]; cbn [ret panic]; [|exact I].
    destruct (Nat.ltb (Invoker.held l) (Invoker.limit l)); exact I. }
  assert (Hfinish : forall w, stays (fst (Invoker.limiter_Finish w))).
  { intros w. unfold Invoker.limiter_Finish, bind, get, deref.
    destruct (Invoker.limiter w) as [l|]; exact I. }
  assert (Hstep : forall stepName step w,
             stays (fst (Invoker.invokeWorkflowStep name id inputs stepName step w))).
  { intros stepName step. unfold Invoker.invokeWorkflowStep.
    apply stays_bind; [exact Hwait | intros _].
    apply stays_defer; [exact Hfinish|].
    intros w. apply tame_stays, tamed_step_body. }
  assert (Hloop : forall steps w, stays (fst (Invoker.range_steps name id inputs steps w))).
  { induction steps as [|[stepName step] rest IH]; cbn [Invoker.range_steps]; [intros w; exact I|].
    apply stays_bind; [apply Hstep | intros [e|]; [intros w; exact I | exact IH]]. }
  unfold Invoker.invokeWorkflow.
  apply stays_bind; [intros w; exact I | intros _].
  apply stays_bind.
  - intros w. unfold Invoker.evaluate.
    destruct (Invoker.EvaluateWorkflow name id inputs (Invoker.heap w) (Invoker.ext w))
      as [[res h] x]. exact I.
  - intros [err | workflow]; [intros w; exact I | apply Hloop].
Qed.

Lemma V1_invokeWorkflow_stays `{InvokerV1.Env} (name : string) (id : N) (inputs : string) :
  forall w, stays (fst (InvokerV1.invokeWorkflow name id inputs w)).
Proof.
  assert (Hcall : forall (A : Type) (f : InvokerV1.Ext -> A * InvokerV1.Ext) w,
             stays (fst (InvokerV1.call f w))).
  { intros A f w. unfold InvokerV1.call. destruct (f (InvokerV1.ext w)). exact I. }
  assert (Hemit : forall e w, stays (fst (InvokerV1.emit e w))) by (intros e w; exact I).
  assert (Hderef : forall (A : Type) (p : option A) (w : InvokerV1.World),
             stays (fst (deref p w))) by (intros A [a|] w; exact I).
  assert (Hwait : forall w, stays (fst (InvokerV1.limiter_Wait w))).
  { intros w. unfold InvokerV1.limiter_Wait, bind, get, deref.
    destruct (InvokerV1.limiter w) as [l|]; cbn [ret panic]; [|exact I].
    destruct (Nat.ltb (InvokerV1.held l) (InvokerV1.limit l)); exact I. }
  assert (Hfinish : forall w, stays (fst (InvokerV1.limiter_Finish w))).
  { intros w. unfold InvokerV1.limiter_Finish, bind, get, deref.
    destruct (InvokerV1.limiter w) as [l|]; exact I. }
  assert (Hrun : forall stepName step w,
             stays (fst (InvokerV1.run_step name id inputs stepName step w))).
  { intros stepName step. unfold InvokerV1.run_step.
    apply stays_bind; [apply Hderef | intros ty].
    destruct (String.eqb ty "nomad").
    - apply stays_bind; [apply Hderef | intros js].
      destruct (InvokerV1.json_Unmarshal_job js) as [e | job]; [intros w; exact I|].
      apply stays_bind; [apply Hemit | intros _].
      apply stays_bind; [apply Hcall | intros [e | response]]; [intros w; exact I|].
      apply stays_bind; [|intros _ w; exact I].
      destruct (0 <? String.length (Nomad.Warnings response))%nat; intros w; exact I.
    - apply stays_bind; [apply Hemit | intros _].
      apply stays_bind; [apply Hemit | intros _].
      apply stays_bind; [apply Hcall | intros [output [e|]]].
      + apply stays_bind; [apply Hemit | intros _ w; exact I].
      + intros w. exact I. }
  assert (Hstep : forall stepName step w,
             stays (fst (InvokerV1.invokeWorkflowStep name id inputs stepName step w))).
  { intros stepName step. unfold InvokerV1.invokeWorkflowStep.
    apply stays_bind; [exact Hwait | intros _].
    apply stays_defer; [exact Hfinish|].
    apply stays_bind; [apply Hrun | intros [early | err]]; [intros w; exact I|].
    apply stays_bind; [apply Hemit | intros _].
    destruct err; intros w; exact I. }
  assert (Hloop : forall steps w, stays (fst (InvokerV1.range_steps name id inputs steps w))).
  { induction steps as [|[stepName step] rest IH]; cbn [InvokerV1.range_steps];
      [intros w; exact I|].
    apply stays_bind; [apply Hemit | intros _].
    destruct (InvokerV1.Job step); [|exact IH].
    apply stays_bind; [apply Hstep | intros [e|]; [intros w; exact I | exact IH]]. }
  unfold InvokerV1.invokeWorkflow.
  apply stays_bind.
  - unfold InvokerV1.nixInstantiateWorkflow.
    apply stays_bind.
    + unfold InvokerV1.nixInstantiate.
      apply stays_bind; [apply Hemit | intros _].
      apply stays_bind; [apply Hcall | intros [output [e|]]].
      * apply stays_bind; [apply Hemit | intros _ w; exact I].
      * destruct (InvokerV1.json_Unmarshal_defs output) as [e | defs]; [|intros w; exact I].
        apply stays_bind; [apply Hemit | intros _ w; exact I].
    + intros [[defs|] [err|]] w; exact I.
  - intros [workflow [err|]]; [intros w; exact I|].
    apply stays_bind; [apply Hderef | intros wf]. apply Hloop.
Qed.

(** X14.  Either subscriber leaves the process exactly when the bus
    hands it an error in place of a message.  At a message it returns,
    panics or waits for a slot, whatever the subject, the payload, the
    evaluation and the calls to the database and to Nomad come to; it
    never calls [log.Fatalf]. *)
Theorem subscriber_exits_only_on_bus_error (E1 : InvokerV1.Env) (E2 : Invoker.Env) :
  (forall (m : InvokerV1.Message) (e : Go.error) (w : InvokerV1.World),
     InvokerV1.invokerSubscriber m (Some e) w
       = (Fatal ("error in liftbridge message: " +:+ e), w)) /\
  (forall (m : InvokerV1.Message) (w : InvokerV1.World),
     stays (fst (InvokerV1.invokerSubscriber m None w))) /\
  (forall (m : Invoker.Message) (e : Go.error) (w : Invoker.World),
     Invoker.invokerSubscriber m (Some e) w
       = (Fatal ("error in liftbridge message: " +:+ e), w)) /\
  (forall (m : Invoker.Message) (w : Invoker.World),
     stays (fst (Invoker.invokerSubscriber m None w))).
Proof.
  split; [reflexivity | split; [|split; [reflexivity|]]].
  - intros m. unfold InvokerV1.invokerSubscriber.
    apply stays_bind; [intros w; exact I | intros _].
    apply stays_bind.
    { intros w. unfold at_index. destruct (Go.index _ 1); exact I. }
    intros workflowName. apply stays_bind.
    { intros w. unfold at_index. destruct (Go.index _ 2); exact I. }
    intros idstr. destruct (Go.strconv_ParseUint idstr) as [err | id]; [intros w; exact I|].
    apply stays_bind; [apply V1_invokeWorkflow_stays | intros [e|] w; exact I].
  - intros m. unfold Invoker.invokerSubscriber.
    destruct (Invoker.json_Unmarshal_inputs (Invoker.Value m)) as [e | inputs].
    { intros w. exact I. }
    apply stays_bind.
    { intros w. unfold at_index. destruct (Go.index _ 1); exact I. }
    intros workflowName. apply stays_bind.
    { intros w. unfold at_index. destruct (Go.index _ 2); exact I. }
    intros idstr. destruct (Go.strconv_ParseUint idstr) as [err | id]; [intros w; exact I|].
    apply stays_bind; [apply V2_invokeWorkflow_stays | intros [e|] w; exact I].
Qed.

End Exits.
